(** * PELEpharmacophore: the grid/voxel aggregation engine

    A shallow embedding of [PELEpharmacophore/analysis/grid_analyzer.py]
    ([GridAnalyzer]) and of [PELEpharmacophore/target.py] ([Target],
    [format_line_pdb]).

    Conventions of the embedding.
    - Python objects live in a store and are named by their address, so that
      in-place updates and [copy.deepcopy] are visible: a [Grid] object holds
      the addresses of its [Voxel] objects.
    - A voxel owns its two dicts and the lists in them: they are part of
      the value of the voxel object, and no two voxels share one.
    - A Python [dict] is a finite map ([gmap]); [==] on dicts is equality of
      finite maps.  The order in which a dict is iterated is not kept.
    - A Python [int] is a [Z].  A Python or numpy float is an exact rational
      ([Q]): rounding, infinities and NaN are outside the model.
    - A call either returns, raises an exception (named by its class) or
      does not terminate; the store survives an exception. *)

From Stdlib Require Import QArith Qround Qabs Lqa Ascii DecimalString.
From stdpp Require Import gmap strings list fin_maps.

Open Scope Z_scope.

(** ** Outcomes of a call, and the store-passing monad *)

Inductive outcome (A : Type) : Type :=
  | Ok (a : A)
  | Raise (exc : string)
  | Diverge.
Arguments Ok {A} a.
Arguments Raise {A} exc.
Arguments Diverge {A}.

Global Instance outcome_eq_dec {A} `{EqDecision A} : EqDecision (outcome A).
Proof. solve_decision. Defined.

Definition M (St A : Type) : Type := St → outcome A * St.

Definition ret {St A} (a : A) : M St A := λ s, (Ok a, s).

Definition bind {St A B} (m : M St A) (k : A → M St B) : M St B :=
  λ s, match m s with
       | (Ok a, s') => k a s'
       | (Raise e, s') => (Raise e, s')
       | (Diverge, s') => (Diverge, s')
       end.

Notation "x <- m ;; k" := (bind m (λ x, k))
  (at level 100, m at next level, right associativity).
Notation "m ;;; k" := (bind m (λ _, k))
  (at level 100, right associativity).

Definition raise {St A} (exc : string) : M St A := λ s, (Raise exc, s).
Definition diverge {St A} : M St A := λ s, (Diverge, s).
Definition get {St} : M St St := λ s, (Ok s, s).
Definition modify {St} (f : St → St) : M St unit := λ s, (Ok tt, f s).
Definition lift {St A} (o : outcome A) : M St A := λ s, (o, s).

(** [for x in xs: body x] *)
Fixpoint for_each {St A} (xs : list A) (body : A → M St unit) : M St unit :=
  match xs with
  | [] => ret tt
  | x :: xs => body x ;;; for_each xs body
  end.

(** [for i, x in enumerate(xs): body i x], counting from [i]. *)
Fixpoint for_enumerate {St A} (i : nat) (xs : list A)
    (body : nat → A → M St unit) : M St unit :=
  match xs with
  | [] => ret tt
  | x :: xs => body i x ;;; for_enumerate (S i) xs body
  end.

(** [[f x for x in xs]] where [f] may raise. *)
Fixpoint map_each {St A B} (xs : list A) (f : A → M St B) : M St (list B) :=
  match xs with
  | [] => ret []
  | x :: xs => y <- f x ;; ys <- map_each xs f ;; ret (y :: ys)
  end.

(** ** Python containers *)

(** [d[k]] on a dict. *)
Definition dict_getitem {V} (d : gmap string V) (k : string) : outcome V :=
  match d !! k with
  | Some v => Ok v
  | None => Raise "KeyError"
  end.

(** [xs[i]] on a list or a one-dimensional array: a negative index counts
    from the end. *)
Definition list_getitem {A} (xs : list A) (i : Z) : outcome A :=
  let n := Z.of_nat (length xs) in
  if bool_decide (0 ≤ i < n) then
    match xs !! Z.to_nat i with Some x => Ok x | None => Raise "IndexError" end
  else if bool_decide (- n ≤ i < 0) then
    match xs !! Z.to_nat (n + i) with Some x => Ok x | None => Raise "IndexError" end
  else Raise "IndexError".

(** ** Points *)

Definition point : Type := Q * Q * Q.

Definition px (p : point) : Q := p.1.1.
Definition py (p : point) : Q := p.1.2.
Definition pz (p : point) : Q := p.2.

(** [scipy.spatial.distance.cdist(.., .., 'sqeuclidean')], one entry. *)
Definition sqeuclidean (p c : point) : Q :=
  ((px p - px c) * (px p - px c) + (py p - py c) * (py p - py c)
   + (pz p - pz c) * (pz p - pz c))%Q.

(** ** numpy *)

(** [row.argmin()]: the index of the first occurrence of the minimum.
    [argmin_from best_i best i xs] scans [xs], whose first entry has index
    [i], keeping the best index so far; only a strictly smaller entry
    replaces it. *)
Fixpoint argmin_from (best_i : nat) (best : Q) (i : nat) (xs : list Q) : nat :=
  match xs with
  | [] => best_i
  | x :: xs =>
      if Qle_bool best x then argmin_from best_i best (S i) xs
      else argmin_from i x (S i) xs
  end.

Definition argmin (xs : list Q) : outcome nat :=
  match xs with
  | [] => Raise "ValueError"
  | x :: xs => Ok (argmin_from 0 x 1 xs)
  end.

(** [all(p <= q)] on two points: the comparison holds on each axis. *)
Definition all_le (p q : point) : bool :=
  Qle_bool (px p) (px q) && Qle_bool (py p) (py q) && Qle_bool (pz p) (pz q).

(** [np.logical_and(lo <= a, a <= hi).all(axis=1)], one row; also
    [all(lo <= coord) and all(coord <= hi)]. *)
Definition inside (lo hi p : point) : bool := all_le lo p && all_le p hi.

(** [arr[mask]]: boolean indexing keeps the rows whose mask entry is true;
    the mask must be as long as the array. *)
Fixpoint select {A} (arr : list A) (mask : list bool) : list A :=
  match arr, mask with
  | x :: arr, b :: mask => if b then x :: select arr mask else select arr mask
  | _, _ => []
  end.

Definition boolean_index {A} (arr : list A) (mask : list bool) : outcome (list A) :=
  if bool_decide (length mask = length arr) then Ok (select arr mask)
  else Raise "IndexError".

(** ** The data model: [Voxel] and [Grid] objects in a store *)

Definition loc : Type := nat.

(** A provenance tag: the model (frame) a counted occurrence came from. *)
Definition origin : Type := nat.

Record Voxel : Type := mkVoxel {
  center : point;
  freq_dict : gmap string Z;
  origin_dict : gmap string (list origin)
}.

Record Grid : Type := mkGrid {
  grid_center : point;
  radius : Q;
  voxels : list loc
}.

(** Modelled from the spec: the attributes [v1] and [v8] of a grid, set by
    the constructor in [analysis/grid.py], are the opposite corners
    [center - (R,R,R)] and [center + (R,R,R)] of the cube. *)
Definition v1 (g : Grid) : point :=
  let c := grid_center g in
  ((px c - radius g)%Q, (py c - radius g)%Q, (pz c - radius g)%Q).
Definition v8 (g : Grid) : point :=
  let c := grid_center g in
  ((px c + radius g)%Q, (py c + radius g)%Q, (pz c + radius g)%Q).

(** The store.  Addresses are positions in allocation order.
    [threshold_dict] is the attribute [self.threshold_dict] of the analyzer
    ([None] until it is first assigned); [files] maps the path of a file to
    its lines. *)
Record state : Type := mkState {
  grid_objs : list Grid;
  voxel_objs : list Voxel;
  threshold_dict : option (gmap string Q);
  files : gmap string (list string)
}.

Definition set_grid_objs (f : list Grid → list Grid) (s : state) : state :=
  mkState (f (grid_objs s)) (voxel_objs s) (threshold_dict s) (files s).
Definition set_voxel_objs (f : list Voxel → list Voxel) (s : state) : state :=
  mkState (grid_objs s) (f (voxel_objs s)) (threshold_dict s) (files s).
Definition set_threshold_dict (d : option (gmap string Q)) (s : state) : state :=
  mkState (grid_objs s) (voxel_objs s) d (files s).
Definition set_files (f : gmap string (list string) → gmap string (list string))
    (s : state) : state :=
  mkState (grid_objs s) (voxel_objs s) (threshold_dict s) (f (files s)).

(** An address that names no object.  Python never produces one; the
    theorems rule it out by [grid_at]. *)
Definition dangling : string := "<dangling reference>".

Definition load_grid (g : loc) : M state Grid :=
  λ s, match grid_objs s !! g with
       | Some G => (Ok G, s)
       | None => (Raise dangling, s)
       end.

Definition load_voxel (l : loc) : M state Voxel :=
  λ s, match voxel_objs s !! l with
       | Some v => (Ok v, s)
       | None => (Raise dangling, s)
       end.

Definition alloc_grid (G : Grid) : M state loc :=
  λ s, (Ok (length (grid_objs s)), set_grid_objs (λ gs, gs ++ [G]) s).

Definition alloc_voxel (v : Voxel) : M state loc :=
  λ s, (Ok (length (voxel_objs s)), set_voxel_objs (λ vs, vs ++ [v]) s).

(** Run a computation that updates one voxel on the voxel object at [l]. *)
Definition with_voxel {A} (l : loc) (m : M Voxel A) : M state A :=
  λ s, match voxel_objs s !! l with
       | Some v => let '(o, v') := m v in (o, set_voxel_objs (λ vs, <[l := v']> vs) s)
       | None => (Raise dangling, s)
       end.

Definition set_freq_dict (f : gmap string Z → gmap string Z) (v : Voxel) : Voxel :=
  mkVoxel (center v) (f (freq_dict v)) (origin_dict v).
Definition set_origin_dict
    (f : gmap string (list origin) → gmap string (list origin)) (v : Voxel) : Voxel :=
  mkVoxel (center v) (freq_dict v) (f (origin_dict v)).

(** A Python value that the analyzer passes around: a [Grid] object, or a
    numpy array of voxel indices. *)
Inductive pyobj : Type :=
  | PGrid (g : loc)
  | PArray (inds : list nat).

(** [obj.voxels] *)
Definition attr_voxels (obj : pyobj) : M state (list loc) :=
  match obj with
  | PGrid g => G <- load_grid g ;; ret (voxels G)
  | PArray _ => raise "AttributeError"
  end.

(** [copy.deepcopy(obj)]: every object reached from [obj] is copied once (the
    memo maps an object already copied to its copy). *)
Fixpoint deepcopy_voxels (memo : gmap loc loc) (refs : list loc) : M state (list loc) :=
  match refs with
  | [] => ret []
  | l :: refs =>
      match memo !! l with
      | Some l' => rest <- deepcopy_voxels memo refs ;; ret (l' :: rest)
      | None =>
          v <- load_voxel l ;;
          l' <- alloc_voxel v ;;
          rest <- deepcopy_voxels (<[l := l']> memo) refs ;;
          ret (l' :: rest)
      end
  end.

Definition deepcopy (obj : pyobj) : M state pyobj :=
  match obj with
  | PGrid g =>
      G <- load_grid g ;;
      refs <- deepcopy_voxels ∅ (voxels G) ;;
      g' <- alloc_grid (mkGrid (grid_center G) (radius G) refs) ;;
      ret (PGrid g')
  | PArray inds => ret (PArray inds)
  end.

(** ** [PELEpharmacophore.helpers] and [PELEpharmacophore.analysis.grid] *)

(** Modelled from the spec: [helpers.frequency_dict(dict, key, value)] is
    not among the sources; by section 4.5 it adds [value] to the count
    stored under [key], a missing count being 0. *)
Definition frequency_dict (d : gmap string Z) (key : string) (value : Z) : gmap string Z :=
  <[key := default 0 (d !! key) + value]> d.

(** Modelled from the spec: [helpers.list_dict(dict, key, value)] is not
    among the sources; by section 4.5 it appends [value] to the list stored
    under [key], a missing list being empty. *)
Definition list_dict {A} (d : gmap string (list A)) (key : string) (value : A)
    : gmap string (list A) :=
  <[key := default [] (d !! key) ++ [value]]> d.

(** Modelled from the spec: [Grid.is_empty()] is not among the sources; by
    sections 3 and 4.5 a grid is empty when no voxel has registered a
    feature. *)
Definition is_empty (obj : pyobj) : M state bool :=
  match obj with
  | PGrid g =>
      G <- load_grid g ;;
      vs <- map_each (voxels G) load_voxel ;;
      ret (forallb (λ v, bool_decide (freq_dict v = ∅)) vs)
  | PArray _ => raise "AttributeError"
  end.

(** A distance [sqrt(3) * q], kept in this form: the square root of 3 is
    not rational. *)
Inductive distance : Type := Sqrt3Times (q : Q).

(** [|p - c| <= sqrt(3) * q], decided on squares. *)
Definition within (d : distance) (p c : point) : bool :=
  match d with
  | Sqrt3Times q => Qle_bool 0 q && Qle_bool (sqeuclidean p c) (3 * q * q)
  end.

(** Modelled from the spec: [helpers.neighbor_search(coords, center, dist)]
    is not among the sources; by section 4.2 it keeps the points no farther
    than [dist] from [center]. *)
Definition neighbor_search (coords : list point) (c : point) (dist : distance)
    : list point :=
  List.filter (λ p, within dist p c) coords.

(** ** [GridAnalyzer] (analysis/grid_analyzer.py) *)

(** The analyzer object: [self.grid] is the address of its grid. *)
Record GridAnalyzer : Type := mkGridAnalyzer { grid : loc }.

(** Evaluating a name: it must be bound in the local namespace [ns] of the
    call (the names used below are neither module globals nor builtins). *)
Definition load_name {A} (ns : gmap string A) (name : string) : outcome A :=
  match ns !! name with
  | Some v => Ok v
  | None => Raise "NameError"
  end.

(** [GridAnalyzer.get_grid_atoms(self, coords)], lines 30-48.  The only
    array bound in the call is the parameter [coords]; line 45 reads
    [coordinates] and line 46 reads [a]. *)
Definition get_grid_atoms (self : GridAnalyzer) (coords : list point)
    : M state (list point) :=
  let ns : gmap string (list point) := {[ "coords" := coords ]} in
  G <- load_grid (grid self) ;;
  let dist := Sqrt3Times (radius G) in
  coordinates <- lift (load_name ns "coordinates") ;;
  let atoms_near := neighbor_search coordinates (grid_center G) dist in
  a <- lift (load_name ns "a") ;;
  let inside_grid_mask := map (inside (v1 G) (v8 G)) a in
  coords <- lift (load_name ns "coords") ;;
  grid_atoms <- lift (boolean_index coords inside_grid_mask) ;;
  ret grid_atoms.

(** [dist.argmin(axis=1)] on the matrix [cdist(coords, voxel_centers,
    'sqeuclidean')]: one index per row.  With no voxel [cdist] refuses the
    empty second argument. *)
Definition nearest (voxel_centers : list point) (p : point) : outcome nat :=
  argmin (map (sqeuclidean p) voxel_centers).

Fixpoint each_ok {A B} (f : A → outcome B) (xs : list A) : outcome (list B) :=
  match xs with
  | [] => Ok []
  | x :: xs =>
      match f x with
      | Ok y => match each_ok f xs with
                | Ok ys => Ok (y :: ys)
                | Raise e => Raise e
                | Diverge => Diverge
                end
      | Raise e => Raise e
      | Diverge => Diverge
      end
  end.

Definition cdist_argmin (coords voxel_centers : list point) : outcome (list nat) :=
  match voxel_centers with
  | [] => Raise "ValueError"
  | _ => each_ok (nearest voxel_centers) coords
  end.

(** [GridAnalyzer.check_voxels(self, coords)], lines 51-69. *)
Definition check_voxels (self : GridAnalyzer) (coords : list point)
    : M state (list nat) :=
  model_grid <- deepcopy (PGrid (grid self)) ;;
  vs <- attr_voxels model_grid ;;
  voxel_centers <- map_each vs (λ l, v <- load_voxel l ;; ret (center v)) ;;
  voxel_inds <- lift (cdist_argmin coords voxel_centers) ;;
  ret voxel_inds.

(** Lines 96-101 of [merge_grids], on the voxel object [voxel] that is
    being updated: the features of [other_voxel] are added one by one.
    [aliased] tells that [other_voxel] is that same object; the loop of
    line 100 then runs over the list it appends to, and only ends when that
    list is empty. *)
Definition merge_voxel (aliased : bool) (other_voxel : Voxel) : M Voxel unit :=
  if bool_decide (freq_dict other_voxel = ∅) then ret tt
  else
    for_each (map_to_list (freq_dict other_voxel)) (λ '(feature, other_freq),
      modify (set_freq_dict (λ d, frequency_dict d feature other_freq)) ;;;
      other_models <- lift (dict_getitem (origin_dict other_voxel) feature) ;;
      if aliased then
        match other_models with [] => ret tt | _ :: _ => diverge end
      else
        for_each other_models (λ model,
          modify (set_origin_dict (λ d, list_dict d feature model)))).

(** One round of the loop of line 94: lines 95-101 for the index [i] and
    the voxel at address [other_voxel]. *)
Definition merge_grids_round (grid : pyobj) (i : nat) (other_voxel : loc)
    : M state unit :=
  grid_voxels <- attr_voxels grid ;;
  voxel <- lift (list_getitem grid_voxels (Z.of_nat i)) ;;
  ov <- load_voxel other_voxel ;;
  with_voxel voxel (merge_voxel (bool_decide (voxel = other_voxel)) ov).

(** [GridAnalyzer.merge_grids(self, grid, other_grid)], lines 77-102. *)
Definition merge_grids (grid other_grid : pyobj) : M state pyobj :=
  empty <- is_empty grid ;;
  if (empty : bool) then deepcopy other_grid
  else
    other_voxels <- attr_voxels other_grid ;;
    for_enumerate 0 other_voxels (merge_grids_round grid) ;;;
    ret grid.

(** The truth value of a numpy array of rows of three coordinates, as [if
    grid_atoms:] takes it: false when empty, refused when it has more than
    one element. *)
Definition array_truth (arr : list point) : outcome bool :=
  match arr with
  | [] => Ok false
  | _ :: _ => Raise "ValueError"
  end.

(** The loop of [analyze_trajectory], lines 125-130, carrying [traj_grid]. *)
Fixpoint analyze_steps (self : GridAnalyzer) (trajectory : list (list point))
    (accepted_steps : list Z) (traj_grid : pyobj) : M state pyobj :=
  match accepted_steps with
  | [] => ret traj_grid
  | step :: accepted_steps =>
      model <- lift (list_getitem trajectory step) ;;
      grid_atoms <- get_grid_atoms self model ;;
      truth <- lift (array_truth grid_atoms) ;;
      traj_grid <- (if (truth : bool) then
                      model_grid <- check_voxels self grid_atoms ;;
                      merge_grids traj_grid (PArray model_grid)
                    else ret traj_grid) ;;
      analyze_steps self trajectory accepted_steps traj_grid
  end.

(** [GridAnalyzer.analyze_trajectory(self, traj_and_report)], lines
    105-131.  [trajectory] is what [self.get_structure(trajfile)] returned
    (one coordinate array per model) and [accepted_steps] what
    [helpers.accepted_pele_steps(report)] returned; neither function is
    among the sources. *)
Definition analyze_trajectory (self : GridAnalyzer)
    (trajectory : list (list point)) (accepted_steps : list Z) : M state pyobj :=
  traj_grid <- deepcopy (PGrid (grid self)) ;;
  analyze_steps self trajectory accepted_steps traj_grid.

(** ** Stores that a run of the analyzer can reach *)

(** The voxel objects at the addresses [refs]. *)
Definition voxels_at (s : state) (refs : list loc) : option (list Voxel) :=
  mapM (λ l, voxel_objs s !! l) refs.

(** [g] is the address of the grid object [G], whose voxels are distinct
    objects with the values [vs]. *)
Definition grid_at (s : state) (g : loc) (G : Grid) (vs : list Voxel) : Prop :=
  grid_objs s !! g = Some G ∧ NoDup (voxels G) ∧ voxels_at s (voxels G) = Some vs.

(** The invariant of a voxel: origins are kept for the registered features
    and for no other, and a registered feature has at least one origin. *)
Definition wf_voxel (v : Voxel) : Prop :=
  dom (origin_dict v) = dom (freq_dict v) ∧
  map_Forall (λ _ models, models ≠ []) (origin_dict v).

(** Reading a voxel: a feature that was never counted has frequency 0 and
    no origin. *)
Definition frequency (v : Voxel) (feature : string) : Z :=
  default 0 (freq_dict v !! feature).
Definition origins (v : Voxel) (feature : string) : list origin :=
  default [] (origin_dict v !! feature).

Definition no_feature (v : Voxel) : bool := bool_decide (freq_dict v = ∅).

(** ** A worked scenario (spec, section 8)

    The grid of center (0,0,0) and radius 2 with two voxels per edge: eight
    voxels, centers (±1,±1,±1) in row-major order, held at addresses 0-7 of
    a store whose only grid is at address 0. *)
Definition scenario_centers : list point :=
  [ (-1, -1, -1); (-1, -1, 1); (-1, 1, -1); (-1, 1, 1);
    (1, -1, -1); (1, -1, 1); (1, 1, -1); (1, 1, 1) ]%Q.

Definition empty_voxel (c : point) : Voxel := mkVoxel c ∅ ∅.

Definition scenario_grid : Grid := mkGrid (0, 0, 0)%Q 2%Q (seq 0 8).

Definition scenario_state : state :=
  mkState [scenario_grid] (map empty_voxel scenario_centers) None ∅.

Definition scenario_self : GridAnalyzer := mkGridAnalyzer 0%nat.

(** ** What a merge amounts to, voxel by voxel *)

(** The sum of two voxels over the same cell: frequencies are added and
    origin lists concatenated, those of [v] first. *)
Definition combine_voxel (v o : Voxel) : Voxel :=
  mkVoxel (center v)
    (union_with (λ x y, Some (x + y)) (freq_dict v) (freq_dict o))
    (union_with (λ x y, Some (x ++ y)) (origin_dict v) (origin_dict o)).

(** One round of the loop of line 97, when it returns: the count of
    [feature] grows by [other_freq] and the origins that [o] holds for it
    are appended. *)
Definition add_feature (o v : Voxel) (item : string * Z) : Voxel :=
  mkVoxel (center v)
    (frequency_dict (freq_dict v) item.1 item.2)
    (match origin_dict o !! item.1 with
     | Some (m :: ms) => <[item.1 := default [] (origin_dict v !! item.1) ++ m :: ms]> (origin_dict v)
     | _ => origin_dict v
     end).

(** The values of the voxels of a grid after the voxels [vb] were merged
    into it, index by index; voxels beyond the shorter list are left as
    they are. *)
Fixpoint merge_values (va vb : list Voxel) : list Voxel :=
  match va, vb with
  | v :: va, o :: vb => combine_voxel v o :: merge_values va vb
  | va, [] => va
  | [], _ :: _ => []
  end.

(** Between [s] and [s'] nothing was allocated, and no object was written
    except the voxel objects at the addresses [refs]. *)
Definition only_writes (refs : list loc) (s s' : state) : Prop :=
  grid_objs s' = grid_objs s ∧ threshold_dict s' = threshold_dict s ∧
  files s' = files s ∧ length (voxel_objs s') = length (voxel_objs s) ∧
  ∀ l, l ∉ refs → voxel_objs s' !! l = voxel_objs s !! l.

(** The values of the voxels of the grid that [merge_grids] returns, when
    its first argument has the values [va] and its second the values [vb]:
    an empty first argument is replaced by a copy of the second. *)
Definition merged (va vb : list Voxel) : list Voxel :=
  if forallb no_feature va then vb else merge_values va vb.

(** The voxel values of the grid that a call returned, read in the store it
    left. *)
Definition result_voxels (r : outcome pyobj * state) : option (list Voxel) :=
  match r.1 with
  | Ok (PGrid g) => G ← grid_objs r.2 !! g; voxels_at r.2 (voxels G)
  | _ => None
  end.

(** Two voxels agree on every frequency, and on every origin list up to
    the order of its entries. *)
Definition same_counts (v w : Voxel) : Prop :=
  ∀ feature, frequency v feature = frequency w feature ∧
             origins v feature ≡ₚ origins w feature.

(** [merge(merge(a, b), c)] and [merge(a, merge(b, c))], run from the same
    store. *)
Definition merge_left (a b c : loc) : M state pyobj :=
  ab <- merge_grids (PGrid a) (PGrid b) ;; merge_grids ab (PGrid c).
Definition merge_right (a b c : loc) : M state pyobj :=
  bc <- merge_grids (PGrid b) (PGrid c) ;; merge_grids (PGrid a) bc.

(** ** Three snapshots over one lattice

    A lattice of two voxels, and three grids over it at addresses 0, 1 and
    2, with their voxels at addresses 0-1, 2-3 and 4-5.  The first two come
    from trajectories that each saw the feature ARO once in the first
    voxel; the third is empty. *)
Definition lattice_centers : list point := [ (-1, 0, 0); (1, 0, 0) ]%Q.

Definition snapshot_a : list Voxel :=
  [ mkVoxel (-1, 0, 0)%Q {[ "ARO" := 1 ]} {[ "ARO" := [1%nat] ]};
    mkVoxel (1, 0, 0)%Q ∅ ∅ ].
Definition snapshot_b : list Voxel :=
  [ mkVoxel (-1, 0, 0)%Q {[ "ARO" := 1 ]} {[ "ARO" := [2%nat] ]};
    mkVoxel (1, 0, 0)%Q {[ "HBD" := 2 ]} {[ "HBD" := [2%nat; 3%nat] ]} ].
Definition snapshot_c : list Voxel := map empty_voxel lattice_centers.

Definition lattice_grid (refs : list loc) : Grid := mkGrid (0, 0, 0)%Q 2%Q refs.

Definition three_grids : state :=
  mkState [lattice_grid [0; 1]%nat; lattice_grid [2; 3]%nat; lattice_grid [4; 5]%nat]
    (snapshot_a ++ snapshot_b ++ snapshot_c) None ∅.

(** ** Two grids built from different parameters

    Two one-voxel grids, one of center (0,0,0) and radius 2 with ARO
    counted once, one of center (10,10,10) and radius 5 with HBD counted
    once. *)
Definition incompatible_grids : state :=
  mkState [ mkGrid (0, 0, 0)%Q 2%Q [0%nat]; mkGrid (10, 10, 10)%Q 5%Q [1%nat] ]
    [ mkVoxel (0, 0, 0)%Q {[ "ARO" := 1 ]} {[ "ARO" := [1%nat] ]};
      mkVoxel (10, 10, 10)%Q {[ "HBD" := 1 ]} {[ "HBD" := [2%nat] ]} ]
    None ∅.

(** ** [np.histogram] *)

(** The outer edges of the bins: the least and the greatest value; a range
    of width 0 is widened by one half on each side, and an empty input is
    given the range from 0 to 1. *)
Definition outer_edges (a : list Z) : Q * Q :=
  match a with
  | [] => (0, 1)%Q
  | x :: xs =>
      let first_edge := foldr Z.min x xs in
      let last_edge := foldr Z.max x xs in
      if bool_decide (first_edge = last_edge)
      then (inject_Z first_edge - (1 # 2), inject_Z last_edge + (1 # 2))%Q
      else (inject_Z first_edge, inject_Z last_edge)
  end.

(** [np.linspace(start, stop, num)]: [arange(0, num) * step + start] with
    [step = (stop - start) / (num - 1)]. *)
Definition linspace (start stop : Q) (num : nat) : list Q :=
  let step := ((stop - start) / inject_Z (Z.of_nat (num - 1)))%Q in
  map (λ i, (inject_Z (Z.of_nat i) * step + start)%Q) (seq 0 num).

(** The second component of [np.histogram(a)]: the eleven edges of ten bins
    of equal width. *)
Definition histogram_bin_edges (a : list Z) : list Q :=
  linspace (outer_edges a).1 (outer_edges a).2 11.

(** ** Thresholds *)

(** Lines 173-176: the frequencies of each feature over the voxels that
    registered it, in the order of the voxels. *)
Definition collect_frequencies (vs : list Voxel) : gmap string (list Z) :=
  foldl (λ freq_dict_all voxel,
           if bool_decide (freq_dict voxel = ∅) then freq_dict_all
           else foldl (λ all item, list_dict all item.1 item.2)
                  freq_dict_all (map_to_list (freq_dict voxel)))
    ∅ vs.

(** [self.threshold_dict[element] = value] *)
Definition threshold_dict_setitem (element : string) (value : Q) (s : state) : state :=
  set_threshold_dict (Some (<[element := value]> (default ∅ (threshold_dict s)))) s.

(** [GridAnalyzer.set_frequency_filter(self, threshold)], lines 160-180. *)
Definition set_frequency_filter (self : GridAnalyzer) (threshold : Z)
    : M state (gmap string Q) :=
  modify (set_threshold_dict (Some ∅)) ;;;
  G <- load_grid (grid self) ;;
  vs <- map_each (voxels G) load_voxel ;;
  let freq_dict_all := collect_frequencies vs in
  for_each (map_to_list freq_dict_all) (λ '(element, freqlist),
    let bin_edges := histogram_bin_edges freqlist in
    edge <- lift (list_getitem bin_edges threshold) ;;
    modify (threshold_dict_setitem element edge)) ;;;
  s <- get ;;
  ret (default ∅ (threshold_dict s)).

(** The test of line 201, [freq >= self.threshold_dict[feature]], for a
    voxel that registered [feature]. *)
Definition survives (thresholds : gmap string Q) (feature : string) (v : Voxel) : bool :=
  match freq_dict v !! feature, thresholds !! feature with
  | Some freq, Some cutoff => Qle_bool cutoff (inject_Z freq)
  | _, _ => false
  end.

(** The number of voxels that survive for a feature. *)
Definition survivors (thresholds : gmap string Q) (feature : string) (vs : list Voxel)
    : nat :=
  length (List.filter (survives thresholds feature) vs).

(** The position that the index [t] names in an array of eleven edges, and
    the edge found there. *)
Definition edge_index (t : Z) : nat := Z.to_nat (if bool_decide (0 ≤ t) then t else 11 + t).
Definition bin_edge (t : Z) (a : list Z) : Q :=
  default 0%Q (histogram_bin_edges a !! edge_index t).

(** ** Formatted output (target.py, [format_line_pdb]) *)

Definition newline : string := String "010"%char "".

Fixpoint spaces (n : nat) : string :=
  match n with O => "" | S n => String " " (spaces n) end.
Fixpoint zeros (n : nat) : string :=
  match n with O => "" | S n => String "0" (zeros n) end.

(** [{s:<w}] and [{s:>w}]: padding with blanks, never cutting. *)
Definition ljust (width : nat) (s : string) : string :=
  s +:+ spaces (width - String.length s).
Definition rjust (width : nat) (s : string) : string :=
  spaces (width - String.length s) +:+ s.

(** The decimal digits of a natural number. *)
Definition decimal (n : Z) : string :=
  NilZero.string_of_uint (N.to_uint (Z.to_N n)).

(** Rounding to the nearest integer, a tie going to the even one. *)
Definition round_half_even (q : Q) : Z :=
  let f := Qfloor q in
  match (q - inject_Z f ?= 1 # 2)%Q with
  | Lt => f
  | Gt => f + 1
  | Eq => if Z.even f then f else f + 1
  end.

(** [{x:.3f}] and [{x:.2f}]: the sign, the integer part, and [precision]
    digits after the point. *)
Definition format_f (precision : nat) (x : Q) : string :=
  let unit := 10 ^ Z.of_nat precision in
  let n := round_half_even (Qabs x * inject_Z unit) in
  (if Qle_bool 0 x then "" else "-")
  +:+ decimal (n / unit) +:+ "."
  +:+ (let digits := decimal (n mod unit) in
       zeros (precision - String.length digits) +:+ digits).

(** [atomname[0]] *)
Definition first_char (s : string) : outcome string :=
  match s with
  | EmptyString => Raise "IndexError"
  | String c _ => Ok (String c "")
  end.

(** [format_line_pdb(coords, atomname, bfact, atomnum, resname, chain,
    resnum, occ)], lines 113-118. *)
Definition format_line_pdb_with (coords : point) (atomname : string) (bfact : Z)
    (atomnum resname chain resnum : string) (occ : Q) : outcome string :=
  let '(x, y, z) := coords in
  let atomstr := "ATOM" in
  match first_char atomname with
  | Ok element =>
      Ok (ljust 5 atomstr +:+ rjust 5 atomnum +:+ " " +:+ ljust 4 atomname +:+ " "
          +:+ ljust 3 resname +:+ " " +:+ chain +:+ rjust 4 resnum +:+ "    "
          +:+ rjust 8 (format_f 3 x) +:+ rjust 8 (format_f 3 y)
          +:+ rjust 8 (format_f 3 z)
          +:+ rjust 6 (format_f 2 occ) +:+ rjust 6 (format_f 2 (inject_Z bfact))
          +:+ rjust 12 element +:+ newline)
  | Raise exc => Raise exc
  | Diverge => Diverge
  end.

(** The call with the default arguments [atomnum="1"], [resname="UNK"],
    [chain="A"], [resnum="1"], [occ=1.00]. *)
Definition format_line_pdb (coords : point) (atomname : string) (bfact : Z)
    : outcome string :=
  format_line_pdb_with coords atomname bfact "1" "UNK" "A" "1" 1%Q.

(** The record of section 6 of the spec, written from its words:
    [ATOM  {atomnum:>5} {atomname:<4} {resname:<3} {chain}{resnum:>4}
    {x:>8.3f}{y:>8.3f}{z:>8.3f}{occ:>6.2f}{bfactor:>6.2f}{element:>12}]
    with the fixed values of the placeholders. *)
Definition spec_record (coords : point) (atomname : string) (bfactor : Z)
    (element : string) : string :=
  let '(x, y, z) := coords in
  "ATOM  " +:+ rjust 5 "1" +:+ " " +:+ ljust 4 atomname +:+ " "
  +:+ ljust 3 "UNK" +:+ " " +:+ "A" +:+ rjust 4 "1" +:+ "    "
  +:+ rjust 8 (format_f 3 x) +:+ rjust 8 (format_f 3 y) +:+ rjust 8 (format_f 3 z)
  +:+ rjust 6 (format_f 2 1) +:+ rjust 6 (format_f 2 (inject_Z bfactor))
  +:+ rjust 12 element.

(** The columns that this layout gives to the coordinates and to the
    bfactor, counted from 0. *)
Definition spec_x (line : string) : string := String.substring 30 8 line.
Definition spec_y (line : string) : string := String.substring 38 8 line.
Definition spec_z (line : string) : string := String.substring 46 8 line.
Definition spec_bfactor (line : string) : string := String.substring 60 6 line.

(** Reading a decimal number from a field, the blanks around it ignored. *)
Definition digit_value (c : ascii) : option Z :=
  let n := nat_of_ascii c in
  if (48 <=? n)%nat && (n <=? 57)%nat then Some (Z.of_nat (n - 48)) else None.

Fixpoint read_number (cs : list ascii) (after_point : bool) (num : Z) (den : positive)
    : option Q :=
  match cs with
  | [] => Some (num # den)
  | c :: cs =>
      if Ascii.eqb c "." then
        if after_point then None else read_number cs true num den
      else
        match digit_value c with
        | Some d =>
            read_number cs after_point (10 * num + d)
              (if after_point then 10 * den else den)%positive
        | None => None
        end
  end.

Fixpoint drop_blanks (cs : list ascii) : list ascii :=
  match cs with
  | [] => []
  | c :: cs' => if Ascii.eqb c " " then drop_blanks cs' else cs
  end.

Definition strip (cs : list ascii) : list ascii :=
  reverse (drop_blanks (reverse (drop_blanks cs))).

Definition parse_field (field : string) : option Q :=
  match strip (String.list_ascii_of_string field) with
  | [] => None
  | c :: cs =>
      if Ascii.eqb c "-" then Qopp <$> read_number cs false 0 1
      else read_number (c :: cs) false 0 1
  end.

(** The record written for the voxel of center (1.0, 2.0, 3.0) with
    frequency 5 for HBD, and the record written when x is -100.5. *)
Definition written_line : string :=
  "ATOM     1 HBD  UNK A   1       1.000   2.000   3.000  1.00  5.00           H"
  +:+ newline.
Definition written_line_wide : string :=
  "ATOM     1 HBD  UNK A   1    -100.500   2.000   3.000  1.00  5.00           H"
  +:+ newline.

(** ** [Target] (target.py) *)

(** An atom as the parser gives it: [atom.get_coord()] and
    [atom.get_feature()]. *)
Record Atom : Type := mkAtom { coord : point; feature : string }.

(** The target object: [self.grid] is the address of its grid. *)
Record Target : Type := mkTarget { target_grid : loc }.

(** [neighbor_search(atom_list, center, distance)], lines 108-111, built on
    Biopython's [NeighborSearch.search], which returns the atoms within
    [distance] of [center]; they are kept here in the order of
    [atom_list]. *)
Definition Target_neighbor_search (atom_list : list Atom) (c : point) (dist : distance)
    : list Atom :=
  List.filter (λ a, within dist (coord a) c) atom_list.

(** [Target.get_grid_atoms(self, structure)], lines 32-48, from line 44 on:
    [atoms] is the list that lines 34-43 build from the structure. *)
Definition Target_get_grid_atoms (self : Target) (atoms : list Atom)
    : M state (list Atom) :=
  G <- load_grid (target_grid self) ;;
  let dist := Sqrt3Times (radius G) in
  let atoms_near := Target_neighbor_search atoms (grid_center G) dist in
  let grid_atoms :=
    List.filter (λ atom, all_le (v1 G) (coord atom) && all_le (coord atom) (v8 G))
      atoms_near in
  ret grid_atoms.

(** [cdist(.., .., 'euclidean')], one entry.  The square root is not a
    rational function: [sqrt] stands for it, and is only asked to keep the
    order of its arguments. *)
Definition euclidean (sqrt : Q → Q) (p c : point) : Q := sqrt (sqeuclidean p c).

(** [d.setdefault(key, []).append(value)] *)
Definition setdefault_append {K} `{Countable K} {A}
    (d : gmap K (list A)) (key : K) (value : A) : gmap K (list A) :=
  <[key := default [] (d !! key) ++ [value]]> d.

(** [Target.check_voxels(self, grid_atoms)], lines 50-61.  [cdist] refuses
    an empty list of atoms as it refuses an empty list of voxels. *)
Definition Target_check_voxels (sqrt : Q → Q) (self : Target) (grid_atoms : list Atom)
    : M state (gmap nat (list string)) :=
  G <- load_grid (target_grid self) ;;
  voxel_centers <- map_each (voxels G) (λ l, v <- load_voxel l ;; ret (center v)) ;;
  let atom_coords := map coord grid_atoms in
  min <- lift (match atom_coords, voxel_centers with
               | [], _ | _, [] => Raise "ValueError"
               | _, _ => each_ok (λ p, argmin (map (euclidean sqrt p) voxel_centers))
                           atom_coords
               end) ;;
  let voxel_dict :=
    foldl (λ voxel_dict item, setdefault_append voxel_dict item.2 (feature item.1))
      ∅ (zip grid_atoms min) in
  ret voxel_dict.

(** [Target.set_frequency_filter(self, threshold)], lines 84-92. *)
Definition Target_collect_frequencies (vs : list Voxel) : gmap string (list Z) :=
  foldl (λ freq_dict_all voxel,
           foldl (λ all item, setdefault_append all item.1 item.2)
             freq_dict_all (map_to_list (freq_dict voxel)))
    ∅ vs.

Definition Target_set_frequency_filter (self : Target) (threshold : Z) : M state unit :=
  modify (set_threshold_dict (Some ∅)) ;;;
  G <- load_grid (target_grid self) ;;
  vs <- map_each (voxels G) load_voxel ;;
  let freq_dict_all := Target_collect_frequencies vs in
  for_each (map_to_list freq_dict_all) (λ '(element, freqlist),
    let bin_edges := histogram_bin_edges freqlist in
    edge <- lift (list_getitem bin_edges threshold) ;;
    modify (threshold_dict_setitem element edge)).

(** ** The writer *)

(** [open(path, 'a')] creates the file if there is none; [f.write(line)]
    adds a line at its end. *)
Definition open_append (path : string) (fs : gmap string (list string))
    : gmap string (list string) :=
  <[path := default [] (fs !! path)]> fs.
Definition write_line (path line : string) (fs : gmap string (list string))
    : gmap string (list string) :=
  <[path := default [] (fs !! path) ++ [line]]> fs.

(** [self.threshold_dict] *)
Definition attr_threshold_dict : M state (gmap string Q) :=
  λ s, match threshold_dict s with
       | Some d => (Ok d, s)
       | None => (Raise "AttributeError", s)
       end.

(** [f"{element}pharmacophore.pdb"] *)
Definition pharmacophore_file (element : string) : string :=
  element +:+ "pharmacophore.pdb".

(** [Target.save_pharmacophores(self)], lines 94-100; what [print] shows is
    not kept. *)
Definition Target_save_pharmacophores (self : Target) : M state unit :=
  G <- load_grid (target_grid self) ;;
  for_each (voxels G) (λ l,
    voxel <- load_voxel l ;;
    for_each (map_to_list (freq_dict voxel)) (λ '(element, freq),
      thresholds <- attr_threshold_dict ;;
      cutoff <- lift (dict_getitem thresholds element) ;;
      if Qle_bool cutoff (inject_Z freq) then
        let path := pharmacophore_file element in
        modify (set_files (open_append path)) ;;;
        line <- lift (format_line_pdb (center voxel) element freq) ;;
        modify (set_files (write_line path line))
      else ret tt)).

(** The record of a voxel for a feature, and the records that the voxels
    [vs] have in the file of a feature: one for each voxel that survives,
    in the order of the voxels. *)
Definition record (feature : string) (v : Voxel) : string :=
  match format_line_pdb (center v) feature (frequency v feature) with
  | Ok line => line
  | _ => ""
  end.
Definition records (thresholds : gmap string Q) (feature : string) (vs : list Voxel)
    : list string :=
  map (record feature) (List.filter (survives thresholds feature) vs).

(** ** Further invariants and readings of the store *)

(** A voxel keeps one origin for each occurrence it counted. *)
Definition counted (v : Voxel) : Prop :=
  freq_dict v = (λ models, Z.of_nat (length models)) <$> origin_dict v.

(** Every feature that a voxel counted has an entry in its origins. *)
Definition has_origins (v : Voxel) : Prop :=
  dom (freq_dict v) ⊆ dom (origin_dict v).

(** [GridAnalyzer.fill_grid(self, feature, voxel_inds)], lines 72-74.  The
    loop variable is [i]; line 74 indexes the voxels by [voxel].
    [count_feature] stands for the method [Voxel.count_feature] of
    [analysis/grid.py], which is not among the sources. *)
Definition fill_grid (count_feature : string → M Voxel unit) (self : GridAnalyzer)
    (feature : string) (voxel_inds : list nat) : M state unit :=
  for_each voxel_inds (λ i,
    let ns : gmap string nat := {[ "i" := i ]} in
    G <- load_grid (grid self) ;;
    voxel <- lift (load_name ns "voxel") ;;
    l <- lift (list_getitem (voxels G) (Z.of_nat voxel)) ;;
    with_voxel l (count_feature feature)).

(** A grid without voxels, alone in its store. *)
Definition no_voxel_state : state :=
  mkState [mkGrid (0, 0, 0)%Q 2%Q []] [] None ∅.

(** The frequencies of a feature in the voxels that registered it, in the
    order of the voxels. *)
Definition registered (feature : string) (vs : list Voxel) : list Z :=
  omap (λ v, freq_dict v !! feature) vs.

(** A grid of three voxels that counted ARO once, four times and ten
    times. *)
Definition spread_voxels : list Voxel :=
  [ mkVoxel (-1, 0, 0)%Q {[ "ARO" := 1 ]} {[ "ARO" := [1%nat] ]};
    mkVoxel (0, 0, 0)%Q {[ "ARO" := 4 ]} {[ "ARO" := [1; 2; 3; 4]%nat ]};
    mkVoxel (1, 0, 0)%Q {[ "ARO" := 10 ]}
      {[ "ARO" := [1; 2; 3; 4; 5; 6; 7; 8; 9; 10]%nat ]} ].

Definition spread_state : state :=
  mkState [mkGrid (0, 0, 0)%Q 2%Q [0; 1; 2]%nat] spread_voxels None ∅.

(** [Target.merge_voxel_dicts(self, voxel_dict)], lines 69-71, on the value
    of [self.voxel_dict_all]. *)
Definition Target_merge_voxel_dicts (voxel_dict_all voxel_dict : gmap nat (list string))
    : gmap nat (list string) :=
  foldl (λ all item, foldl (λ all a, setdefault_append all item.1 a) all item.2)
    voxel_dict_all (map_to_list voxel_dict).

(** Lines 75-80: the number of times each feature occurs in [atomlist]. *)
Definition count_features (atomlist : list string) : gmap string Z :=
  foldl (λ freq_dict atom,
           match freq_dict !! atom with
           | Some n => <[atom := n + 1]> freq_dict
           | None => <[atom := 1]> freq_dict
           end)
    ∅ atomlist.

(** [Target.get_frequencies(self)], lines 73-82, for the value
    [voxel_dict_all] of [self.voxel_dict_all].  [set_frequencies] stands
    for the method [Voxel.set_frequencies] of [grid.py], which is not among
    the sources. *)
Definition Target_get_frequencies (set_frequencies : gmap string Z → M Voxel unit)
    (self : Target) (voxel_dict_all : gmap nat (list string)) : M state unit :=
  for_each (map_to_list voxel_dict_all) (λ '(i, atomlist),
    let freq_dict := count_features atomlist in
    G <- load_grid (target_grid self) ;;
    l <- lift (list_getitem (voxels G) (Z.of_nat i)) ;;
    with_voxel l (set_frequencies freq_dict)).

(** The method as its name and line 88 tell it: the dict becomes the
    [freq_dict] of the voxel. *)
Definition store_frequencies (freq_dict : gmap string Z) : M Voxel unit :=
  modify (set_freq_dict (λ _, freq_dict)).

(** The number of atoms of [atoms] that carry [feature] and are nearest to
    the voxel of index [i]. *)
Definition atoms_counted (cs : list point) (feature_name : string) (i : nat)
    (atoms : list Atom) : nat :=
  length (List.filter
            (λ a, bool_decide (feature a = feature_name)
                  && bool_decide (nearest cs (coord a) = Ok i)) atoms).

(** * Properties *)

(** ** Running the monad *)

Lemma bind_Ok {St A B} (m : M St A) (k : A → M St B) s a s' :
  m s = (Ok a, s') → bind m k s = k a s'.
Proof. intros H. unfold bind. by rewrite H. Qed.

Lemma bind_Raise {St A B} (m : M St A) (k : A → M St B) s e s' :
  m s = (Raise e, s') → bind m k s = (Raise e, s').
Proof. intros H. unfold bind. by rewrite H. Qed.

Lemma bind_Diverge {St A B} (m : M St A) (k : A → M St B) s s' :
  m s = (Diverge, s') → bind m k s = (Diverge, s').
Proof. intros H. unfold bind. by rewrite H. Qed.

(** ** [argmin]: the first index of the minimum *)

Lemma argmin_from_spec (xs pre : list Q) (best_i : nat) (best : Q) :
  pre !! best_i = Some best →
  (∀ j dj, pre !! j = Some dj → (best <= dj)%Q) →
  (∀ j dj, (j < best_i)%nat → pre !! j = Some dj → (best < dj)%Q) →
  ∃ d, (pre ++ xs) !! argmin_from best_i best (length pre) xs = Some d ∧
    (∀ j dj, (pre ++ xs) !! j = Some dj → (d <= dj)%Q) ∧
    (∀ j dj, (j < argmin_from best_i best (length pre) xs)%nat →
       (pre ++ xs) !! j = Some dj → (d < dj)%Q).
Proof.
  revert pre best_i best.
  induction xs as [|x xs IH]; intros pre best_i best Hb Hle Hlt; simpl.
  - rewrite app_nil_r. eauto.
  - replace (pre ++ x :: xs) with ((pre ++ [x]) ++ xs) by by rewrite <- app_assoc.
    replace (S (length pre)) with (length (pre ++ [x]))
      by (rewrite length_app; simpl; lia).
    destruct (Qle_bool best x) eqn:Hc.
    + apply Qle_bool_iff in Hc. apply IH.
      * rewrite lookup_app_l; [done | by eapply lookup_lt_Some].
      * intros j dj Hj. apply lookup_app_Some in Hj as [Hj | [_ Hj]]; [eauto |].
        apply list_lookup_singleton_Some in Hj as [_ <-]. done.
      * intros j dj Hji Hj. apply lookup_app_Some in Hj as [Hj | [Hge _]]; [eauto |].
        apply lookup_lt_Some in Hb. lia.
    + assert (x < best)%Q as Hxb.
      { apply Qnot_le_lt. intros Hle'. apply Qle_bool_iff in Hle'. congruence. }
      apply IH.
      * rewrite lookup_app_r by lia. by rewrite Nat.sub_diag.
      * intros j dj Hj. apply lookup_app_Some in Hj as [Hj | [_ Hj]].
        -- apply Qlt_le_weak. eapply Qlt_le_trans; eauto.
        -- apply list_lookup_singleton_Some in Hj as [_ <-]. apply Qle_refl.
      * intros j dj Hji Hj. apply lookup_app_Some in Hj as [Hj | [Hge _]].
        -- eapply Qlt_le_trans; eauto.
        -- lia.
Qed.

Lemma argmin_spec (ds : list Q) :
  ds ≠ [] →
  ∃ i d, argmin ds = Ok i ∧ ds !! i = Some d ∧
    (∀ j dj, ds !! j = Some dj → (d <= dj)%Q) ∧
    (∀ j dj, (j < i)%nat → ds !! j = Some dj → (d < dj)%Q).
Proof.
  destruct ds as [|x xs]; [done | intros _]. simpl.
  destruct (argmin_from_spec xs [x] 0 x) as (d & Hd & Hle & Hlt).
  - done.
  - intros j dj Hj. apply list_lookup_singleton_Some in Hj as [_ <-]. apply Qle_refl.
  - intros; lia.
  - exists (argmin_from 0 x 1 xs), d. eauto.
Qed.

(** ** Reading the store *)

Lemma voxels_at_Forall2 s refs vs :
  voxels_at s refs = Some vs ↔ Forall2 (λ l v, voxel_objs s !! l = Some v) refs vs.
Proof. apply mapM_Some. Qed.

Lemma voxels_at_length s refs vs :
  voxels_at s refs = Some vs → length vs = length refs.
Proof. intros H. symmetry. by eapply length_mapM. Qed.

Lemma voxels_at_lookup s refs vs i l :
  voxels_at s refs = Some vs → refs !! i = Some l →
  ∃ v, vs !! i = Some v ∧ voxel_objs s !! l = Some v.
Proof.
  intros H Hl. apply voxels_at_Forall2 in H.
  destruct (Forall2_lookup_l _ _ _ _ _ H Hl) as (v & ? & ?). eauto.
Qed.

Lemma voxels_at_valid s refs vs l :
  voxels_at s refs = Some vs → l ∈ refs → (l < length (voxel_objs s))%nat.
Proof.
  intros H Hl. apply list_elem_of_lookup in Hl as [i Hi].
  destruct (voxels_at_lookup _ _ _ _ _ H Hi) as (v & _ & Hv).
  by eapply lookup_lt_Some.
Qed.

Lemma map_each_load_voxel s refs vs :
  voxels_at s refs = Some vs → map_each refs load_voxel s = (Ok vs, s).
Proof.
  intros H. apply voxels_at_Forall2 in H.
  induction H as [|l v refs vs Hl _ IH]; simpl; [done |].
  erewrite bind_Ok; [| unfold load_voxel; by rewrite Hl].
  erewrite bind_Ok; [| exact IH]. done.
Qed.

Lemma map_each_load_center s refs vs :
  voxels_at s refs = Some vs →
  map_each refs (λ l, v <- load_voxel l ;; ret (center v)) s = (Ok (map center vs), s).
Proof.
  intros H. apply voxels_at_Forall2 in H.
  induction H as [|l v refs vs Hl _ IH]; simpl; [done |].
  erewrite bind_Ok; [| erewrite bind_Ok; [done | unfold load_voxel; by rewrite Hl]].
  erewrite bind_Ok; [| exact IH]. done.
Qed.

(** ** [copy.deepcopy] of a grid *)

Lemma deepcopy_voxels_fresh refs : ∀ memo s vs,
  NoDup refs → (∀ l, l ∈ refs → memo !! l = None) →
  voxels_at s refs = Some vs →
  deepcopy_voxels memo refs s =
    (Ok (seq (length (voxel_objs s)) (length refs)),
     set_voxel_objs (λ objs, objs ++ vs) s).
Proof.
  induction refs as [|l refs IH]; intros memo s vs Hnd Hmemo Hvs.
  - apply voxels_at_length in Hvs. destruct vs; [|done]. simpl.
    unfold ret, set_voxel_objs. rewrite app_nil_r. by destruct s.
  - apply voxels_at_Forall2 in Hvs.
    apply Forall2_cons_inv_l in Hvs as (v & vs' & Hl & Hrest & ->).
    apply NoDup_cons in Hnd as [Hnotin Hnd].
    simpl. rewrite Hmemo by left.
    erewrite bind_Ok; [| unfold load_voxel; by rewrite Hl].
    erewrite bind_Ok; [| reflexivity].
    erewrite bind_Ok; cycle 1.
    { apply (IH _ _ vs'); [done | |].
      - intros l' Hl'. rewrite lookup_insert_ne; [apply Hmemo; by right |].
        intros ->. done.
      - apply voxels_at_Forall2. eapply Forall2_impl; [exact Hrest |].
        intros l' v' Hv'. simpl in *. rewrite lookup_app_l; [done |].
        eapply lookup_lt_Some, Hv'. }
    unfold ret, set_voxel_objs. simpl. rewrite length_app. simpl.
    rewrite Nat.add_1_r. by rewrite <- app_assoc.
Qed.

(** The state after [deepcopy] of a grid with voxel values [vs]. *)
Lemma deepcopy_grid s g G vs :
  grid_at s g G vs →
  deepcopy (PGrid g) s =
    (Ok (PGrid (length (grid_objs s))),
     set_grid_objs (λ gs, gs ++ [mkGrid (grid_center G) (radius G)
                                   (seq (length (voxel_objs s)) (length vs))])
       (set_voxel_objs (λ objs, objs ++ vs) s)).
Proof.
  intros (HG & Hnd & Hvs). simpl.
  erewrite bind_Ok; [| unfold load_grid; by rewrite HG].
  erewrite bind_Ok; [| by apply (deepcopy_voxels_fresh _ ∅ s vs)].
  erewrite bind_Ok; [| reflexivity].
  rewrite (voxels_at_length _ _ _ Hvs). done.
Qed.

Lemma voxels_at_seq_app s vs (f := λ objs : list Voxel, objs ++ vs) :
  voxels_at (set_voxel_objs f s) (seq (length (voxel_objs s)) (length vs)) = Some vs.
Proof.
  apply voxels_at_Forall2. apply Forall2_lookup. intros i.
  destruct (decide (i < length vs)%nat) as [Hi|Hi].
  - rewrite lookup_seq_lt by done.
    destruct (lookup_lt_is_Some_2 vs i Hi) as [v Hv]. rewrite Hv.
    constructor. subst f. unfold set_voxel_objs. simpl. rewrite lookup_app_r by lia.
    by replace (length (voxel_objs s) + i - length (voxel_objs s))%nat with i by lia.
  - rewrite lookup_seq_ge by lia. rewrite lookup_ge_None_2 by lia. constructor.
Qed.

(** ** Voxel assignment *)

Lemma each_ok_Forall2 {A B} (f : A → outcome B) (P : A → B → Prop) xs :
  (∀ x, x ∈ xs → ∃ y, f x = Ok y ∧ P x y) →
  ∃ ys, each_ok f xs = Ok ys ∧ Forall2 P xs ys.
Proof.
  induction xs as [|x xs IH]; intros H; simpl.
  - exists []. split; [done | constructor].
  - destruct (H x) as (y & Hy & HP); [by left |].
    destruct IH as (ys & Hys & HF); [intros; apply H; by right |].
    rewrite Hy, Hys. exists (y :: ys). split; [done | by constructor].
Qed.

Lemma nearest_spec (cs : list point) (p : point) :
  cs ≠ [] →
  ∃ i ci, nearest cs p = Ok i ∧ cs !! i = Some ci ∧
    (∀ j cj, cs !! j = Some cj → (sqeuclidean p ci <= sqeuclidean p cj)%Q) ∧
    (∀ j cj, (j < i)%nat → cs !! j = Some cj →
       (sqeuclidean p ci < sqeuclidean p cj)%Q).
Proof.
  intros Hne. unfold nearest.
  destruct (argmin_spec (map (sqeuclidean p) cs)) as (i & d & Hi & Hd & Hle & Hlt).
  { by destruct cs. }
  change (map (sqeuclidean p) cs) with (sqeuclidean p <$> cs) in *.
  rewrite list_lookup_fmap in Hd.
  destruct (cs !! i) as [ci|] eqn:Hci; [|done]. simpl in Hd.
  injection Hd as <-. exists i, ci. split_and!; [done | done | |].
  - intros j cj Hj. apply (Hle j). rewrite list_lookup_fmap, Hj. done.
  - intros j cj Hji Hj. apply (Hlt j); [done |]. rewrite list_lookup_fmap, Hj. done.
Qed.



(** The scenario of the spec: the point (0.9, 0.9, 0.9) goes to the voxel
    of center (1,1,1), the last one; the grid center, equally far from the
    eight voxel centers, goes to voxel 0. *)
Example check_voxels_scenario :
  (check_voxels scenario_self [(9 # 10, 9 # 10, 9 # 10); (0, 0, 0)]%Q scenario_state).1
  = Ok [7%nat; 0%nat].
Proof. vm_compute. reflexivity. Qed.

(** ** Merging one voxel into another *)

Lemma voxel_eq (v w : Voxel) :
  center v = center w → freq_dict v = freq_dict w → origin_dict v = origin_dict w →
  v = w.
Proof. destruct v, w; simpl; by intros -> -> ->. Qed.

Lemma for_each_list_dict (feature : string) (models : list origin) : ∀ v : Voxel,
  for_each models (λ model, modify (set_origin_dict (λ d, list_dict d feature model))) v
  = (Ok tt,
     match models with
     | [] => v
     | _ :: _ => set_origin_dict
         (λ d, <[feature := default [] (d !! feature) ++ models]> d) v
     end).
Proof.
  induction models as [|m ms IH]; intros v; [done |].
  simpl. erewrite bind_Ok; [| reflexivity]. rewrite IH.
  destruct ms as [|m' ms]; [done |]. f_equal.
  unfold set_origin_dict, list_dict; simpl.
  rewrite lookup_insert_eq, insert_insert_eq. simpl.
  by rewrite <- app_assoc.
Qed.

Lemma merge_voxel_round (o v : Voxel) (feature : string) (other_freq : Z) models :
  origin_dict o !! feature = Some models →
  (modify (set_freq_dict (λ d, frequency_dict d feature other_freq)) ;;;
   other_models <- lift (dict_getitem (origin_dict o) feature) ;;
   for_each other_models (λ model,
     modify (set_origin_dict (λ d, list_dict d feature model)))) v
  = (Ok tt, add_feature o v (feature, other_freq)).
Proof.
  intros Hm. erewrite bind_Ok; [| reflexivity].
  erewrite bind_Ok; [| unfold lift, dict_getitem; by rewrite Hm].
  rewrite for_each_list_dict. unfold add_feature; simpl. rewrite Hm.
  by destruct models.
Qed.

Lemma merge_voxel_foldl (o v : Voxel) :
  dom (freq_dict o) ⊆ dom (origin_dict o) →
  merge_voxel false o v = (Ok tt, foldl (add_feature o) v (map_to_list (freq_dict o))).
Proof.
  intros Hdom. unfold merge_voxel. case_bool_decide as He.
  { rewrite He, map_to_list_empty. done. }
  assert (∀ item, item ∈ map_to_list (freq_dict o) →
            is_Some (origin_dict o !! item.1)) as Hall.
  { intros [f n] Hin. apply elem_of_map_to_list in Hin. simpl.
    apply elem_of_dom, Hdom, elem_of_dom. eauto. }
  revert v Hall. generalize (map_to_list (freq_dict o)).
  induction l as [|[f n] l IH]; intros v Hall; [done |].
  simpl. destruct (Hall (f, n)) as [ms Hms]; [by left |]. simpl in Hms.
  erewrite bind_Ok; [| exact (merge_voxel_round o v f n ms Hms)].
  apply IH. intros item Hin. apply Hall. by right.
Qed.

Lemma foldl_add_feature_center o l : ∀ v, center (foldl (add_feature o) v l) = center v.
Proof. induction l as [|x l IH]; intros v; simpl; [done | by rewrite IH]. Qed.

Lemma foldl_add_feature_other o l k : ∀ v,
  k ∉ l.*1 →
  freq_dict (foldl (add_feature o) v l) !! k = freq_dict v !! k ∧
  origin_dict (foldl (add_feature o) v l) !! k = origin_dict v !! k.
Proof.
  induction l as [|[f n] l IH]; intros v Hk; simpl; [done |].
  rewrite fmap_cons in Hk. apply not_elem_of_cons in Hk as [Hkf Hk]. simpl in Hkf.
  destruct (IH (add_feature o v (f, n)) Hk) as [-> ->].
  unfold add_feature, frequency_dict; simpl.
  rewrite lookup_insert_ne by done. split; [done |].
  destruct (origin_dict o !! f) as [[|m ms]|]; [done | | done].
  by rewrite lookup_insert_ne.
Qed.

Lemma foldl_add_feature_item o l k n : ∀ v,
  NoDup l.*1 → (k, n) ∈ l →
  freq_dict (foldl (add_feature o) v l) !! k = Some (default 0 (freq_dict v !! k) + n) ∧
  origin_dict (foldl (add_feature o) v l) !! k =
    match origin_dict o !! k with
    | Some (m :: ms) => Some (default [] (origin_dict v !! k) ++ m :: ms)
    | _ => origin_dict v !! k
    end.
Proof.
  induction l as [|[f n'] l IH]; intros v Hnd Hin; [by apply elem_of_nil in Hin |].
  rewrite fmap_cons in Hnd. apply NoDup_cons in Hnd as [Hf Hnd]. simpl in Hf.
  apply elem_of_cons in Hin as [Heq | Hin]; simpl.
  - injection Heq as <- <-.
    destruct (foldl_add_feature_other o l k (add_feature o v (k, n)) Hf) as [-> ->].
    unfold add_feature, frequency_dict; simpl. rewrite lookup_insert_eq.
    split; [done |].
    destruct (origin_dict o !! k) as [[|m ms]|]; [done | | done].
    by rewrite lookup_insert_eq.
  - assert (k ≠ f) as Hkf.
    { intros ->. apply Hf. apply list_elem_of_fmap. by exists (f, n). }
    destruct (IH (add_feature o v (f, n')) Hnd Hin) as [-> ->].
    assert (freq_dict (add_feature o v (f, n')) !! k = freq_dict v !! k) as ->.
    { unfold add_feature, frequency_dict; simpl. by rewrite lookup_insert_ne. }
    assert (origin_dict (add_feature o v (f, n')) !! k = origin_dict v !! k) as ->.
    { unfold add_feature; simpl.
      destruct (origin_dict o !! f) as [[|m' ms']|]; [done | | done].
      by rewrite lookup_insert_ne. }
    done.
Qed.

(** Merging a well-formed voxel into a distinct one yields their sum. *)
Lemma merge_voxel_combine (o v : Voxel) :
  wf_voxel o → merge_voxel false o v = (Ok tt, combine_voxel v o).
Proof.
  intros [Hdom Hne]. rewrite merge_voxel_foldl by by rewrite Hdom.
  f_equal. apply voxel_eq.
  - by rewrite foldl_add_feature_center.
  - apply map_eq. intros k. unfold combine_voxel; simpl.
    rewrite lookup_union_with.
    destruct (freq_dict o !! k) as [n|] eqn:Hk.
    + destruct (foldl_add_feature_item o (map_to_list (freq_dict o)) k n v) as [-> _].
      { apply NoDup_fst_map_to_list. } { by apply elem_of_map_to_list. }
      by destruct (freq_dict v !! k).
    + destruct (foldl_add_feature_other o (map_to_list (freq_dict o)) k v) as [-> _].
      { intros Hin. apply list_elem_of_fmap in Hin as ([k' n] & -> & Hin).
        apply elem_of_map_to_list in Hin. simpl in Hk. congruence. }
      by destruct (freq_dict v !! k).
  - apply map_eq. intros k. unfold combine_voxel; simpl.
    rewrite lookup_union_with.
    destruct (freq_dict o !! k) as [n|] eqn:Hk.
    + destruct (foldl_add_feature_item o (map_to_list (freq_dict o)) k n v) as [_ ->].
      { apply NoDup_fst_map_to_list. } { by apply elem_of_map_to_list. }
      assert (is_Some (origin_dict o !! k)) as [ms Hms].
      { apply elem_of_dom. rewrite Hdom. apply elem_of_dom. eauto. }
      rewrite Hms. pose proof (Hne k ms Hms) as Hms'. simpl in Hms'.
      destruct ms as [|m ms]; [done |]. by destruct (origin_dict v !! k).
    + destruct (foldl_add_feature_other o (map_to_list (freq_dict o)) k v) as [_ ->].
      { intros Hin. apply list_elem_of_fmap in Hin as ([k' n] & -> & Hin).
        apply elem_of_map_to_list in Hin. simpl in Hk. congruence. }
      assert (origin_dict o !! k = None) as ->.
      { apply not_elem_of_dom. rewrite Hdom. by apply not_elem_of_dom. }
      by destruct (origin_dict v !! k).
Qed.

(** ** The loop of [merge_grids] *)

Lemma list_getitem_nat {A} (xs : list A) (i : nat) (x : A) :
  xs !! i = Some x → list_getitem xs (Z.of_nat i) = Ok x.
Proof.
  intros H. pose proof (lookup_lt_Some _ _ _ H) as Hlt. unfold list_getitem.
  rewrite bool_decide_eq_true_2 by lia. by rewrite Nat2Z.id, H.
Qed.

Lemma list_getitem_nat_ge {A} (xs : list A) (i : nat) :
  (length xs ≤ i)%nat → list_getitem xs (Z.of_nat i) = Raise "IndexError".
Proof.
  intros H. unfold list_getitem.
  rewrite bool_decide_eq_false_2 by lia. by rewrite bool_decide_eq_false_2 by lia.
Qed.

Lemma only_writes_refl refs s : only_writes refs s s.
Proof. by repeat split. Qed.

Lemma only_writes_trans refs1 refs2 refs s1 s2 s3 :
  only_writes refs1 s1 s2 → only_writes refs2 s2 s3 →
  (∀ l, l ∈ refs1 → l ∈ refs) → (∀ l, l ∈ refs2 → l ∈ refs) →
  only_writes refs s1 s3.
Proof.
  intros (Hg1 & Ht1 & Hf1 & Hl1 & Hv1) (Hg2 & Ht2 & Hf2 & Hl2 & Hv2) H1 H2.
  split_and!; [congruence | congruence | congruence | congruence |].
  intros l Hl. rewrite Hv2, Hv1; [done | |]; intros Hin; apply Hl; auto.
Qed.

Lemma only_writes_voxels_at refs s s' rs :
  only_writes refs s s' → (∀ l, l ∈ rs → l ∉ refs) →
  voxels_at s' rs = voxels_at s rs.
Proof.
  intros (_ & _ & _ & _ & Hv) Hdisj. unfold voxels_at.
  apply Forall_mapM_ext, Forall_forall. intros l Hl. apply Hv, Hdisj, Hl.
Qed.

Lemma only_writes_insert s l v :
  only_writes [l] s (set_voxel_objs (λ vs, <[l := v]> vs) s).
Proof.
  split_and!; try done.
  - simpl. by rewrite length_insert.
  - intros l' Hl'. simpl. rewrite list_lookup_insert_ne; [done |].
    intros ->. apply Hl'. by left.
Qed.

Lemma with_voxel_run {A} s l v (m : M Voxel A) o v' :
  voxel_objs s !! l = Some v → m v = (o, v') →
  with_voxel l m s = (o, set_voxel_objs (λ vs, <[l := v']> vs) s).
Proof. intros Hl Hm. unfold with_voxel. by rewrite Hl, Hm. Qed.

Lemma merge_grids_loop a Ga : ∀ obs pre suf s ovs vs,
  grid_objs s !! a = Some Ga → voxels Ga = pre ++ suf → NoDup suf →
  voxels_at s suf = Some vs →
  voxels_at s obs = Some ovs → Forall wf_voxel ovs →
  (∀ l, l ∈ obs → l ∉ suf) →
  ∃ s', for_enumerate (length pre) obs (merge_grids_round (PGrid a)) s
        = (if bool_decide (length obs ≤ length suf)%nat
           then Ok tt else Raise "IndexError", s') ∧
    only_writes suf s s' ∧
    voxels_at s' suf = Some (merge_values vs ovs).
Proof.
  induction obs as [|ol obs IH]; intros pre suf s ovs vs Ha Hrefs Hnd Hvs Hovs Hwf Hdisj.
  - apply voxels_at_length in Hovs. destruct ovs; [|done]. simpl.
    exists s. split_and!; [done | apply only_writes_refl | by destruct vs].
  - apply voxels_at_Forall2 in Hovs.
    apply Forall2_cons_inv_l in Hovs as (ov & ovs' & Hol & Hovs & ->).
    apply Forall_cons in Hwf as [Hwf_ov Hwf].
    simpl for_enumerate. destruct suf as [|l suf].
    + (* the grid has no voxel of index [length pre] *)
      exists s. rewrite bool_decide_eq_false_2 by (simpl; lia).
      apply voxels_at_length in Hvs. destruct vs; [|done].
      split_and!; [| apply only_writes_refl | done].
      apply bind_Raise. unfold merge_grids_round.
      erewrite bind_Ok; [| simpl; erewrite bind_Ok; [reflexivity |];
                           unfold load_grid; by rewrite Ha].
      apply bind_Raise. unfold lift. rewrite list_getitem_nat_ge; [done |].
      rewrite Hrefs, app_nil_r. done.
    + apply voxels_at_Forall2 in Hvs.
      apply Forall2_cons_inv_l in Hvs as (v & vs' & Hl & Hvs & ->).
      apply NoDup_cons in Hnd as [Hl_suf Hnd].
      assert (l ≠ ol) as Hne.
      { intros ->. apply (Hdisj ol); by left. }
      set (s1 := set_voxel_objs (λ objs, <[l := combine_voxel v ov]> objs) s).
      assert (merge_grids_round (PGrid a) (length pre) ol s = (Ok tt, s1)) as Hround.
      { unfold merge_grids_round.
        erewrite bind_Ok; [| simpl; erewrite bind_Ok; [reflexivity |];
                             unfold load_grid; by rewrite Ha].
        erewrite bind_Ok; cycle 1.
        { unfold lift. rewrite (list_getitem_nat _ _ l); [done |].
          rewrite Hrefs, lookup_app_r by lia. by rewrite Nat.sub_diag. }
        erewrite bind_Ok; [| unfold load_voxel; by rewrite Hol].
        rewrite bool_decide_eq_false_2 by done.
        apply (with_voxel_run s l v); [done | by apply merge_voxel_combine]. }
      pose proof (only_writes_insert s l (combine_voxel v ov)) as Hw1. fold s1 in Hw1.
      destruct (IH (pre ++ [l]) suf s1 ovs' vs') as (s' & Hrun & Hw & Hvs').
      * subst s1. exact Ha.
      * by rewrite <- app_assoc.
      * done.
      * rewrite (only_writes_voxels_at [l] s s1); [by apply voxels_at_Forall2 | done |].
        intros l' Hl' Hin. apply list_elem_of_singleton in Hin as ->. done.
      * rewrite (only_writes_voxels_at [l] s s1); [by apply voxels_at_Forall2 | done |].
        intros l' Hl' Hin. apply list_elem_of_singleton in Hin as ->.
        apply (Hdisj l); [by right | by left].
      * done.
      * intros l' Hl' Hin. apply (Hdisj l'); by right.
      * exists s'. split_and!.
        -- erewrite bind_Ok; [| exact Hround].
           rewrite length_app in Hrun. simpl in Hrun. rewrite Nat.add_1_r in Hrun.
           rewrite Hrun. simpl length.
           destruct (decide (length obs ≤ length suf)%nat).
           ++ by rewrite !bool_decide_eq_true_2 by lia.
           ++ by rewrite !bool_decide_eq_false_2 by lia.
        -- eapply only_writes_trans; [exact Hw1 | exact Hw | |].
           ++ intros l' Hl'. apply list_elem_of_singleton in Hl' as ->. by left.
           ++ intros l' Hl'. by right.
        -- apply voxels_at_Forall2. simpl. constructor.
           ++ destruct Hw as (_ & _ & _ & _ & Hframe). rewrite Hframe by done.
              subst s1. simpl. apply list_lookup_insert_eq. by eapply lookup_lt_Some.
           ++ by apply voxels_at_Forall2.
Qed.

(** ** [merge_grids] on two separate grids *)

Lemma refs_disjoint_sym (refs1 refs2 : list loc) : refs1 ## refs2 → refs2 ## refs1.
Proof. intros H l H2 H1. by apply (H l). Qed.

Lemma is_empty_run s a Ga va :
  grid_at s a Ga va → is_empty (PGrid a) s = (Ok (forallb no_feature va), s).
Proof.
  intros (Ha & _ & Hva). simpl.
  erewrite bind_Ok; [| unfold load_grid; by rewrite Ha].
  erewrite bind_Ok; [| by apply map_each_load_voxel]. done.
Qed.

Lemma grid_at_frame refs s s' g G vs :
  only_writes refs s s' → grid_at s g G vs → voxels G ## refs → grid_at s' g G vs.
Proof.
  intros Hw (Hg & Hnd & Hvs) Hdisj. split_and!; [| done |].
  - destruct Hw as (-> & _). done.
  - rewrite (only_writes_voxels_at refs s s'); [done | done |].
    intros l Hl Hin. by apply (Hdisj l).
Qed.

(** Allocation leaves the grids of the store as they are. *)
Lemma grid_at_alloc s g G vs new_grids new_voxels :
  grid_at s g G vs →
  grid_at (set_grid_objs (λ gs, gs ++ new_grids)
             (set_voxel_objs (λ objs, objs ++ new_voxels) s)) g G vs.
Proof.
  intros (Hg & Hnd & Hvs). split_and!; [| done |].
  - simpl. rewrite lookup_app_l; [done | by eapply lookup_lt_Some].
  - apply voxels_at_Forall2. apply voxels_at_Forall2 in Hvs.
    eapply Forall2_impl; [exact Hvs |]. intros l v Hl. simpl in *.
    rewrite lookup_app_l; [done |]. eapply lookup_lt_Some, Hl.
Qed.

Lemma grid_at_valid s g G vs l :
  grid_at s g G vs → l ∈ voxels G → (l < length (voxel_objs s))%nat.
Proof. intros (_ & _ & Hvs) Hl. by eapply voxels_at_valid. Qed.

(** The copy that [deepcopy] allocates. *)
Lemma grid_at_copy s G vs :
  let s' := set_grid_objs (λ gs, gs ++ [mkGrid (grid_center G) (radius G)
                                         (seq (length (voxel_objs s)) (length vs))])
              (set_voxel_objs (λ objs, objs ++ vs) s) in
  grid_at s' (length (grid_objs s))
    (mkGrid (grid_center G) (radius G) (seq (length (voxel_objs s)) (length vs))) vs.
Proof.
  intros s'. split_and!.
  - subst s'. simpl. rewrite lookup_app_r by lia. by rewrite Nat.sub_diag.
  - apply NoDup_seq.
  - apply (voxels_at_seq_app s vs).
Qed.

(** The first argument is empty: a copy of the second is returned. *)
Lemma merge_grids_empty s a b Ga Gb va vb :
  grid_at s a Ga va → grid_at s b Gb vb → forallb no_feature va = true →
  merge_grids (PGrid a) (PGrid b) s =
    (Ok (PGrid (length (grid_objs s))),
     set_grid_objs (λ gs, gs ++ [mkGrid (grid_center Gb) (radius Gb)
                                   (seq (length (voxel_objs s)) (length vb))])
       (set_voxel_objs (λ objs, objs ++ vb) s)).
Proof.
  intros Ha Hb He. unfold merge_grids.
  erewrite bind_Ok; [| by eapply is_empty_run]. rewrite He.
  by apply deepcopy_grid.
Qed.

(** The first argument is not empty: the voxels of the second are merged
    into its own, index by index, until it has none left. *)
Lemma merge_grids_nonempty s a b Ga Gb va vb :
  grid_at s a Ga va → grid_at s b Gb vb → voxels Gb ## voxels Ga →
  Forall wf_voxel vb → forallb no_feature va = false →
  ∃ s', merge_grids (PGrid a) (PGrid b) s
        = (if bool_decide (length vb ≤ length va)%nat
           then Ok (PGrid a) else Raise "IndexError", s') ∧
    only_writes (voxels Ga) s s' ∧
    voxels_at s' (voxels Ga) = Some (merge_values va vb).
Proof.
  intros Ha Hb Hdisj Hwf He. unfold merge_grids.
  erewrite bind_Ok; [| by eapply is_empty_run]. rewrite He.
  destruct Ha as (Ha & Hnd & Hva). destruct Hb as (Hb & _ & Hvb).
  erewrite bind_Ok; [| simpl; erewrite bind_Ok; [reflexivity |];
                       unfold load_grid; by rewrite Hb].
  destruct (merge_grids_loop a Ga (voxels Gb) [] (voxels Ga) s vb va)
    as (s' & Hrun & Hw & Hvs); try done.
  exists s'. split_and!; [| done | done].
  simpl in Hrun. rewrite (voxels_at_length _ _ _ Hva), (voxels_at_length _ _ _ Hvb).
  case_bool_decide.
  - erewrite bind_Ok; [done | exact Hrun].
  - erewrite bind_Raise; [done | exact Hrun].
Qed.

(** The call returns; the grid it returns holds the merged values, in
    voxels that are those of the first argument or new ones; every grid
    that shares no voxel with the first argument is left as it was. *)
Lemma merge_grids_ok s a b Ga Gb va vb :
  grid_at s a Ga va → grid_at s b Gb vb → voxels Gb ## voxels Ga →
  Forall wf_voxel vb → (length vb ≤ length va)%nat →
  ∃ r Gr s',
    merge_grids (PGrid a) (PGrid b) s = (Ok (PGrid r), s') ∧
    grid_at s' r Gr (merged va vb) ∧
    (∀ l, l ∈ voxels Gr → l ∈ voxels Ga ∨ (length (voxel_objs s) ≤ l)%nat) ∧
    (∀ g G vs, grid_at s g G vs → voxels G ## voxels Ga → grid_at s' g G vs).
Proof.
  intros Ha Hb Hdisj Hwf Hlen. unfold merged.
  destruct (forallb no_feature va) eqn:He.
  - eexists _, _, _. split; [by eapply merge_grids_empty |].
    split_and!.
    + apply grid_at_copy.
    + intros l Hl. right. simpl in Hl. apply elem_of_seq in Hl. lia.
    + intros g G vs Hg _. by apply grid_at_alloc.
  - destruct (merge_grids_nonempty s a b Ga Gb va vb) as (s' & Hrun & Hw & Hvs);
      try done.
    rewrite bool_decide_eq_true_2 in Hrun by done.
    exists a, Ga, s'. split_and!; [done | | by left |].
    + destruct Ha as (Ha & Hnd & _). split_and!; [| done | done].
      destruct Hw as (-> & _). done.
    + intros g G vs Hg Hsep. by eapply grid_at_frame.
Qed.

(** ** The algebra of merged values *)

Lemma frequency_combine v o feature :
  frequency (combine_voxel v o) feature = frequency v feature + frequency o feature.
Proof.
  unfold frequency, combine_voxel; simpl. rewrite lookup_union_with.
  destruct (freq_dict v !! feature), (freq_dict o !! feature); simpl; lia.
Qed.

Lemma origins_combine v o feature :
  origins (combine_voxel v o) feature = origins v feature ++ origins o feature.
Proof.
  unfold origins, combine_voxel; simpl. rewrite lookup_union_with.
  destruct (origin_dict v !! feature), (origin_dict o !! feature); simpl;
    by rewrite ?app_nil_r.
Qed.

Lemma wf_voxel_combine v o : wf_voxel v → wf_voxel o → wf_voxel (combine_voxel v o).
Proof.
  intros [Hdv Hnv] [Hdo Hno]. split.
  - apply set_eq. intros k. rewrite !elem_of_dom. unfold combine_voxel; simpl.
    rewrite !lookup_union_with.
    assert (is_Some (origin_dict v !! k) ↔ is_Some (freq_dict v !! k)) as Hv
      by by rewrite <- !elem_of_dom, Hdv.
    assert (is_Some (origin_dict o !! k) ↔ is_Some (freq_dict o !! k)) as Ho
      by by rewrite <- !elem_of_dom, Hdo.
    revert Hv Ho. rewrite !is_Some_alt.
    destruct (origin_dict v !! k), (origin_dict o !! k),
      (freq_dict v !! k), (freq_dict o !! k); simpl; tauto.
  - intros k ms. unfold combine_voxel; simpl. rewrite lookup_union_with.
    destruct (origin_dict v !! k) as [x|] eqn:Hx,
             (origin_dict o !! k) as [y|] eqn:Hy; simpl; intros [= <-].
    + pose proof (Hnv k x Hx) as Hx'. simpl in Hx'. by destruct x.
    + by apply (Hnv k).
    + by apply (Hno k).
Qed.

Lemma no_feature_counts v feature :
  wf_voxel v → no_feature v = true →
  frequency v feature = 0 ∧ origins v feature = [].
Proof.
  intros [Hdom _] He. apply bool_decide_eq_true_1 in He.
  unfold frequency, origins. rewrite He in *.
  rewrite dom_empty_L in Hdom. apply dom_empty_inv_L in Hdom. rewrite Hdom.
  by rewrite !lookup_empty.
Qed.

Lemma merge_values_length va vb :
  (length vb ≤ length va)%nat → length (merge_values va vb) = length va.
Proof.
  revert vb. induction va as [|v va IH]; intros [|o vb] Hlen; simpl in *;
    try done; try lia.
  rewrite IH; [done | lia].
Qed.

Lemma merged_length va vb :
  length va = length vb → length (merged va vb) = length va.
Proof.
  intros Hlen. unfold merged. destruct (forallb no_feature va); [done |].
  apply merge_values_length. lia.
Qed.

Lemma merge_values_lookup va vb i v o :
  va !! i = Some v → vb !! i = Some o →
  merge_values va vb !! i = Some (combine_voxel v o).
Proof.
  revert vb i. induction va as [|v' va IH]; intros [|o' vb] [|i] Hv Ho;
    simpl in *; try done.
  - by injection Hv as ->; injection Ho as ->.
  - by apply IH.
Qed.

(** Every voxel of the merged grid counts what the two operands counted:
    frequencies are added, and the origins of the first operand are
    followed by those of the second. *)
Lemma merged_counts va vb i v o :
  Forall wf_voxel va → va !! i = Some v → vb !! i = Some o →
  ∃ x, merged va vb !! i = Some x ∧
    ∀ feature, frequency x feature = frequency v feature + frequency o feature ∧
               origins x feature = origins v feature ++ origins o feature.
Proof.
  intros Hwf Hv Ho. unfold merged. destruct (forallb no_feature va) eqn:He.
  - exists o. split; [done |]. intros feature.
    rewrite forallb_forall in He.
    destruct (no_feature_counts v feature) as [-> ->].
    + rewrite Forall_forall in Hwf. apply Hwf. by eapply list_elem_of_lookup_2.
    + apply He. apply list_elem_of_In. by eapply list_elem_of_lookup_2.
    + split; [lia | done].
  - exists (combine_voxel v o). split; [by apply merge_values_lookup |].
    intros feature. by rewrite frequency_combine, origins_combine.
Qed.

Lemma wf_merge_values va vb :
  Forall wf_voxel va → Forall wf_voxel vb → Forall wf_voxel (merge_values va vb).
Proof.
  intros Ha. revert vb. induction Ha as [|v va Hv Ha IH]; intros [|o vb] Hb; simpl;
    try done.
  - by constructor.
  - apply Forall_cons in Hb as [Ho Hb]. constructor; [by apply wf_voxel_combine | auto].
Qed.

Lemma wf_merged va vb :
  Forall wf_voxel va → Forall wf_voxel vb → Forall wf_voxel (merged va vb).
Proof.
  intros Ha Hb. unfold merged. destruct (forallb no_feature va); [done |].
  by apply wf_merge_values.
Qed.

Lemma merged_comm va vb :
  length va = length vb → Forall wf_voxel va → Forall wf_voxel vb →
  Forall2 same_counts (merged va vb) (merged vb va).
Proof.
  intros Hlen Ha Hb. apply Forall2_same_length_lookup_2.
  { rewrite !merged_length; done. }
  intros i x y Hx Hy.
  assert (i < length va)%nat as Hi.
  { apply lookup_lt_Some in Hx. by rewrite merged_length in Hx. }
  destruct (lookup_lt_is_Some_2 va i Hi) as [v Hv].
  destruct (lookup_lt_is_Some_2 vb i) as [o Ho]; [lia |].
  destruct (merged_counts va vb i v o Ha Hv Ho) as (x' & Hx' & Hcx).
  destruct (merged_counts vb va i o v Hb Ho Hv) as (y' & Hy' & Hcy).
  assert (x' = x) as -> by congruence. assert (y' = y) as -> by congruence.
  intros feature. destruct (Hcx feature) as [-> ->], (Hcy feature) as [-> ->].
  split; [lia | apply Permutation_app_comm].
Qed.

Lemma merged_assoc va vb vc :
  length va = length vb → length vb = length vc →
  Forall wf_voxel va → Forall wf_voxel vb →
  Forall2 same_counts (merged (merged va vb) vc) (merged va (merged vb vc)).
Proof.
  intros Hab Hbc Ha Hb.
  assert (length (merged va vb) = length va) as Hlab by by apply merged_length.
  assert (length (merged vb vc) = length vb) as Hlbc by by apply merged_length.
  assert (length (merged (merged va vb) vc) = length va) as Hl
    by (rewrite merged_length; congruence).
  assert (length (merged va (merged vb vc)) = length va) as Hr
    by (rewrite merged_length; congruence).
  apply Forall2_same_length_lookup_2; [congruence |].
  intros i x y Hx Hy.
  assert (i < length va)%nat as Hi.
  { apply lookup_lt_Some in Hy. by rewrite Hr in Hy. }
  destruct (lookup_lt_is_Some_2 va i Hi) as [v Hv].
  destruct (lookup_lt_is_Some_2 vb i) as [o Ho]; [lia |].
  destruct (lookup_lt_is_Some_2 vc i) as [w Hw]; [lia |].
  destruct (merged_counts va vb i v o Ha Hv Ho) as (vo & Hvo & Hcvo).
  destruct (merged_counts vb vc i o w Hb Ho Hw) as (ow & How & Hcow).
  destruct (merged_counts (merged va vb) vc i vo w (wf_merged _ _ Ha Hb) Hvo Hw)
    as (x' & Hx' & Hcx).
  destruct (merged_counts va (merged vb vc) i v ow Ha Hv How) as (y' & Hy' & Hcy).
  assert (x' = x) as -> by congruence. assert (y' = y) as -> by congruence.
  intros feature.
  destruct (Hcx feature) as [-> ->], (Hcy feature) as [-> ->],
           (Hcvo feature) as [-> ->], (Hcow feature) as [-> ->].
  split; [lia | by rewrite app_assoc].
Qed.

Lemma result_voxels_grid_at (r : outcome pyobj * state) g s' G vs :
  r = (Ok (PGrid g), s') → grid_at s' g G vs → result_voxels r = Some vs.
Proof. intros -> (Hg & _ & Hvs). unfold result_voxels; simpl. by rewrite Hg. Qed.

(** Two successive merges of separate grids. *)
Lemma merge_grids_twice s a b c Ga Gb Gc va vb vc :
  grid_at s a Ga va → grid_at s b Gb vb → grid_at s c Gc vc →
  voxels Ga ## voxels Gb → voxels Ga ## voxels Gc → voxels Gb ## voxels Gc →
  Forall wf_voxel va → Forall wf_voxel vb → Forall wf_voxel vc →
  length va = length vb → length vb = length vc →
  result_voxels (merge_left a b c s) = Some (merged (merged va vb) vc) ∧
  result_voxels (merge_right a b c s) = Some (merged va (merged vb vc)).
Proof.
  intros Ha Hb Hc Hab Hac Hbc Hwa Hwb Hwc Hlab Hlbc. split.
  - destruct (merge_grids_ok s a b Ga Gb va vb) as (r1 & G1 & s1 & Hrun1 & Hg1 & Hrefs1 & Hframe1);
      [done | done | by apply refs_disjoint_sym | done | lia |].
    destruct (merge_grids_ok s1 r1 c G1 Gc (merged va vb) vc)
      as (r2 & G2 & s2 & Hrun2 & Hg2 & _ & _).
    + done.
    + apply Hframe1; [done | by apply refs_disjoint_sym].
    + intros l Hlc Hl1. destruct (Hrefs1 l Hl1) as [Hla | Hfresh].
      * by apply (Hac l).
      * pose proof (grid_at_valid s c Gc vc l Hc Hlc). lia.
    + done.
    + rewrite merged_length; [lia | done].
    + eapply result_voxels_grid_at; [| exact Hg2].
      unfold merge_left. erewrite bind_Ok; [exact Hrun2 | exact Hrun1].
  - destruct (merge_grids_ok s b c Gb Gc vb vc) as (r1 & G1 & s1 & Hrun1 & Hg1 & Hrefs1 & Hframe1);
      [done | done | by apply refs_disjoint_sym | done | lia |].
    destruct (merge_grids_ok s1 a r1 Ga G1 va (merged vb vc))
      as (r2 & G2 & s2 & Hrun2 & Hg2 & _ & _).
    + by apply Hframe1.
    + done.
    + intros l Hl1 Hla. destruct (Hrefs1 l Hl1) as [Hlb | Hfresh].
      * by apply (Hab l).
      * pose proof (grid_at_valid s a Ga va l Ha Hla). lia.
    + by apply wf_merged.
    + rewrite merged_length; [lia | done].
    + eapply result_voxels_grid_at; [| exact Hg2].
      unfold merge_right. erewrite bind_Ok; [exact Hrun2 | exact Hrun1].
Qed.

Lemma merge_grids_result s a b Ga Gb va vb :
  grid_at s a Ga va → grid_at s b Gb vb → voxels Ga ## voxels Gb →
  Forall wf_voxel vb → length va = length vb →
  result_voxels (merge_grids (PGrid a) (PGrid b) s) = Some (merged va vb).
Proof.
  intros Ha Hb Hab Hwb Hlen.
  destruct (merge_grids_ok s a b Ga Gb va vb) as (r & G & s' & Hrun & Hg & _ & _);
    [done | done | by apply refs_disjoint_sym | done | lia |].
  by eapply result_voxels_grid_at.
Qed.

(** C1.  For three separate, well-formed grids over the same lattice, the
    two ways of merging all three, and the two orders of merging two of
    them, return grids that agree at every voxel index and for every
    feature: the frequency is the same, and the origin lists hold the same
    entries up to their order. *)
Theorem merge_grids_commutative_associative s a b c Ga Gb Gc va vb vc :
  grid_at s a Ga va → grid_at s b Gb vb → grid_at s c Gc vc →
  voxels Ga ## voxels Gb → voxels Ga ## voxels Gc → voxels Gb ## voxels Gc →
  Forall wf_voxel va → Forall wf_voxel vb → Forall wf_voxel vc →
  length va = length vb → length vb = length vc →
  ∃ abc_left abc_right ab ba,
    result_voxels (merge_left a b c s) = Some abc_left ∧
    result_voxels (merge_right a b c s) = Some abc_right ∧
    result_voxels (merge_grids (PGrid a) (PGrid b) s) = Some ab ∧
    result_voxels (merge_grids (PGrid b) (PGrid a) s) = Some ba ∧
    length abc_left = length va ∧ length ab = length va ∧
    Forall2 same_counts abc_left abc_right ∧
    Forall2 same_counts ab ba.
Proof.
  intros Ha Hb Hc Hab Hac Hbc Hwa Hwb Hwc Hlab Hlbc.
  destruct (merge_grids_twice s a b c Ga Gb Gc va vb vc) as [Hl Hr]; try done.
  exists (merged (merged va vb) vc), (merged va (merged vb vc)),
    (merged va vb), (merged vb va).
  split_and!; [done | done | | | | | |].
  - by eapply merge_grids_result.
  - eapply merge_grids_result; [done | done | by apply refs_disjoint_sym | done | done].
  - rewrite merged_length; rewrite merged_length; congruence.
  - by rewrite merged_length.
  - by apply merged_assoc.
  - by apply merged_comm.
Qed.

Lemma wf_empty_voxel c : wf_voxel (empty_voxel c).
Proof. split; [done | apply map_Forall_empty]. Qed.

Lemma wf_single_feature c feature n m ms :
  wf_voxel (mkVoxel c {[ feature := n ]} {[ feature := m :: ms ]}).
Proof.
  split; simpl.
  - by rewrite !dom_singleton_L.
  - by apply map_Forall_singleton.
Qed.

Lemma three_grids_at :
  grid_at three_grids 0%nat (lattice_grid [0; 1]%nat) snapshot_a ∧
  grid_at three_grids 1%nat (lattice_grid [2; 3]%nat) snapshot_b ∧
  grid_at three_grids 2%nat (lattice_grid [4; 5]%nat) snapshot_c.
Proof.
  split_and!; (split_and!; [reflexivity | | reflexivity]);
    apply (NoDup_seq _ 2).
Defined.

Lemma three_grids_wf :
  Forall wf_voxel snapshot_a ∧ Forall wf_voxel snapshot_b ∧ Forall wf_voxel snapshot_c.
Proof.
  split_and!; repeat constructor;
    first [apply wf_single_feature | apply (wf_empty_voxel _)].
Defined.

Lemma merge_grids_commutative_associative_witness :
  ∃ abc_left abc_right ab ba,
    result_voxels (merge_left 0%nat 1%nat 2%nat three_grids) = Some abc_left ∧
    result_voxels (merge_right 0%nat 1%nat 2%nat three_grids) = Some abc_right ∧
    result_voxels (merge_grids (PGrid 0%nat) (PGrid 1%nat) three_grids) = Some ab ∧
    result_voxels (merge_grids (PGrid 1%nat) (PGrid 0%nat) three_grids) = Some ba ∧
    length abc_left = length snapshot_a ∧ length ab = length snapshot_a ∧
    Forall2 same_counts abc_left abc_right ∧
    Forall2 same_counts ab ba.
Proof.
  destruct three_grids_at as (Ha & Hb & Hc).
  destruct three_grids_wf as (Hwa & Hwb & Hwc).
  apply (merge_grids_commutative_associative three_grids 0%nat 1%nat 2%nat
           _ _ _ _ _ _ Ha Hb Hc); try done.
  - intros l H1 H2. apply list_elem_of_In in H1, H2. simpl in *. lia.
  - intros l H1 H2. apply list_elem_of_In in H1, H2. simpl in *. lia.
  - intros l H1 H2. apply list_elem_of_In in H1, H2. simpl in *. lia.
Defined.

(** The scenario of the spec: two trajectories that each saw ARO once in
    the same voxel merge to a frequency of 2 with two origin entries. *)
Example merge_grids_scenario :
  result_voxels (merge_grids (PGrid 0%nat) (PGrid 1%nat) three_grids)
  = Some [ mkVoxel (-1, 0, 0)%Q {[ "ARO" := 2 ]} {[ "ARO" := [1%nat; 2%nat] ]};
           mkVoxel (1, 0, 0)%Q {[ "HBD" := 2 ]} {[ "HBD" := [2%nat; 3%nat] ]} ].
Proof. vm_compute. reflexivity. Qed.

(** ** The empty grid is an identity *)

Lemma combine_voxel_empty v c : combine_voxel v (empty_voxel c) = v.
Proof.
  apply voxel_eq; unfold combine_voxel; simpl; [done | |];
    apply map_eq; intros k; rewrite lookup_union_with, lookup_empty;
    by destruct (_ !! k).
Qed.

Lemma merge_values_empty vs :
  merge_values vs (map (λ v, empty_voxel (center v)) vs) = vs.
Proof.
  induction vs as [|v vs IH]; simpl; [done |].
  by rewrite combine_voxel_empty, IH.
Qed.

Lemma no_feature_empty_voxel v :
  wf_voxel v → no_feature v = true → empty_voxel (center v) = v.
Proof.
  intros [Hdom _] He. apply bool_decide_eq_true_1 in He.
  rewrite He, dom_empty_L in Hdom. apply dom_empty_inv_L in Hdom.
  by apply voxel_eq.
Qed.

Lemma merged_empty vs :
  Forall wf_voxel vs → merged vs (map (λ v, empty_voxel (center v)) vs) = vs.
Proof.
  intros Hwf. unfold merged. destruct (forallb no_feature vs) eqn:He.
  - rewrite forallb_forall in He. induction Hwf as [|v vs Hv Hwf IH]; simpl; [done |].
    rewrite no_feature_empty_voxel; [| done | apply He; by left].
    rewrite IH; [done |]. intros w Hw. apply He. by right.
  - apply merge_values_empty.
Qed.

(** C3.  Merging into a well-formed grid [g] an empty grid over the same
    lattice (the same cells, no feature registered, no voxel shared with
    [g]) returns a grid whose voxels are equal to those of [g]: same
    centers, same frequency maps, same origin maps. *)
Theorem merge_grids_empty_identity s g e G Ge vs :
  grid_at s g G vs →
  grid_at s e Ge (map (λ v, empty_voxel (center v)) vs) →
  voxels G ## voxels Ge → Forall wf_voxel vs →
  result_voxels (merge_grids (PGrid g) (PGrid e) s) = Some vs.
Proof.
  intros Hg He Hsep Hwf.
  rewrite (merge_grids_result s g e G Ge vs _ Hg He Hsep).
  - by rewrite merged_empty.
  - apply Forall_forall. intros w Hw. apply list_elem_of_fmap in Hw as (v & -> & _).
    apply wf_empty_voxel.
  - by rewrite length_map.
Qed.

Lemma merge_grids_empty_identity_witness :
  result_voxels (merge_grids (PGrid 1%nat) (PGrid 2%nat) three_grids) = Some snapshot_b.
Proof.
  destruct three_grids_at as (_ & Hb & Hc).
  destruct three_grids_wf as (_ & Hwb & _).
  apply (merge_grids_empty_identity three_grids 1%nat 2%nat _ _ snapshot_b Hb Hc).
  - intros l H1 H2. apply list_elem_of_In in H1, H2. simpl in *. lia.
  - exact Hwb.
Defined.

(** ** No compatibility check *)

(** C6, as the code has it.  [merge_grids] never looks at the center or the
    radius of its arguments and raises no [IncompatibleGridError]: on two
    separate grids, the second well-formed, it returns a copy of the second
    when the first is empty, returns the first when the first has at least
    as many voxels as the second, and otherwise raises [IndexError]. *)
Theorem merge_grids_outcome s a b Ga Gb va vb :
  grid_at s a Ga va → grid_at s b Gb vb → voxels Ga ## voxels Gb →
  Forall wf_voxel vb →
  (merge_grids (PGrid a) (PGrid b) s).1 =
    (if forallb no_feature va then Ok (PGrid (length (grid_objs s)))
     else if bool_decide (length vb ≤ length va)%nat then Ok (PGrid a)
     else Raise "IndexError") ∧
  (merge_grids (PGrid a) (PGrid b) s).1 ≠ Raise "IncompatibleGridError".
Proof.
  intros Ha Hb Hsep Hwf.
  assert ((merge_grids (PGrid a) (PGrid b) s).1 =
    (if forallb no_feature va then Ok (PGrid (length (grid_objs s)))
     else if bool_decide (length vb ≤ length va)%nat then Ok (PGrid a)
     else Raise "IndexError")) as Hout.
  { destruct (forallb no_feature va) eqn:He.
    - by erewrite merge_grids_empty.
    - destruct (merge_grids_nonempty s a b Ga Gb va vb) as (s' & -> & _);
        [done | done | by apply refs_disjoint_sym | done | done |].
      done. }
  split; [done |]. rewrite Hout.
  destruct (forallb no_feature va); [done |]. by case_bool_decide.
Qed.

Lemma merge_grids_outcome_witness :
  (merge_grids (PGrid 0%nat) (PGrid 1%nat) three_grids).1 = Ok (PGrid 0%nat) ∧
  (merge_grids (PGrid 0%nat) (PGrid 1%nat) three_grids).1
    ≠ Raise "IncompatibleGridError".
Proof.
  destruct three_grids_at as (Ha & Hb & _).
  destruct three_grids_wf as (_ & Hwb & _).
  apply (merge_grids_outcome three_grids 0%nat 1%nat _ _ snapshot_a snapshot_b Ha Hb).
  - intros l H1 H2. apply list_elem_of_In in H1, H2. simpl in *. lia.
  - exact Hwb.
Defined.

(** C6 as stated fails: these two grids were built from different centers
    and radii, and merging them returns the first grid, with the count of
    the second added to its voxel. *)
Lemma merge_grids_incompatible_counterexample :
  (∃ G0 G1, grid_objs incompatible_grids !! 0%nat = Some G0 ∧
            grid_objs incompatible_grids !! 1%nat = Some G1 ∧
            grid_center G0 ≠ grid_center G1 ∧ radius G0 ≠ radius G1) ∧
  (merge_grids (PGrid 0%nat) (PGrid 1%nat) incompatible_grids).1 = Ok (PGrid 0%nat) ∧
  (merge_grids (PGrid 0%nat) (PGrid 1%nat) incompatible_grids).1
    ≠ Raise "IncompatibleGridError" ∧
  result_voxels (merge_grids (PGrid 0%nat) (PGrid 1%nat) incompatible_grids)
  = Some [ mkVoxel (0, 0, 0)%Q {[ "ARO" := 1; "HBD" := 1 ]}
             {[ "ARO" := [1%nat]; "HBD" := [2%nat] ]} ].
Proof.
  split_and!.
  - eexists _, _. split_and!; [reflexivity | reflexivity | discriminate | discriminate].
  - vm_compute. reflexivity.
  - vm_compute. discriminate.
  - vm_compute. reflexivity.
Qed.

(** ** What [merge_grids] writes *)

Lemma list_getitem_elem {A} (xs : list A) (i : Z) (x : A) :
  list_getitem xs i = Ok x → x ∈ xs.
Proof.
  unfold list_getitem. repeat case_bool_decide; [| | done].
  - destruct (xs !! Z.to_nat i) eqn:H'; [| done]. intros [= <-].
    by eapply list_elem_of_lookup_2.
  - destruct (xs !! Z.to_nat _) eqn:H'; [| done]. intros [= <-].
    by eapply list_elem_of_lookup_2.
Qed.

Lemma only_writes_weaken refs refs' s s' :
  only_writes refs s s' → (∀ l, l ∈ refs → l ∈ refs') → only_writes refs' s s'.
Proof.
  intros Hw Hsub. eapply (only_writes_trans refs [] refs' s s' s');
    [done | apply only_writes_refl | done |].
  intros l Hl. by apply elem_of_nil in Hl.
Qed.

(** Whatever its outcome, a round of the loop writes no object but a voxel
    of the first argument. *)
Lemma merge_grids_round_writes s a Ga i ol :
  grid_objs s !! a = Some Ga →
  only_writes (voxels Ga) s (merge_grids_round (PGrid a) i ol s).2.
Proof.
  intros Ha. unfold merge_grids_round.
  erewrite bind_Ok; [| simpl; erewrite bind_Ok; [reflexivity |];
                       unfold load_grid; by rewrite Ha].
  unfold bind at 1, lift.
  destruct (list_getitem (voxels Ga) (Z.of_nat i)) as [l|e|] eqn:Hl;
    [| apply only_writes_refl | apply only_writes_refl].
  apply list_getitem_elem in Hl.
  unfold bind, load_voxel. destruct (voxel_objs s !! ol) as [ov|];
    [| apply only_writes_refl].
  unfold with_voxel. destruct (voxel_objs s !! l) as [v|]; [| apply only_writes_refl].
  destruct (merge_voxel _ ov v) as [o v']. simpl.
  eapply only_writes_weaken; [apply only_writes_insert |].
  intros l' Hl'. by apply list_elem_of_singleton in Hl' as ->.
Qed.

Lemma merge_grids_loop_writes a Ga obs : ∀ i s,
  grid_objs s !! a = Some Ga →
  only_writes (voxels Ga) s (for_enumerate i obs (merge_grids_round (PGrid a)) s).2.
Proof.
  induction obs as [|ol obs IH]; intros i s Ha; simpl; [apply only_writes_refl |].
  pose proof (merge_grids_round_writes s a Ga i ol Ha) as Hw.
  unfold bind. destruct (merge_grids_round (PGrid a) i ol s) as [[[]|e|] s1];
    simpl in *; [| done | done].
  eapply only_writes_trans; [exact Hw | apply IH | done | done].
  destruct Hw as (-> & _). done.
Qed.

(** C10.  On two separate grids, whatever the outcome of the call, the
    second argument is left as it was: same grid object, same voxels with
    the same frequency and origin maps.  When the first argument is not
    empty, nothing is allocated, only voxels of the first argument are
    written, no grid but the first argument can be returned, and it is
    returned whenever the second argument is well-formed and has no more
    voxels than the first.  When the first argument is empty, it is left
    as it was too, and the call returns a newly allocated grid whose voxels
    are new objects with the values of those of the second argument. *)
Theorem merge_grids_frame s a b Ga Gb va vb :
  grid_at s a Ga va → grid_at s b Gb vb → voxels Ga ## voxels Gb →
  let r := merge_grids (PGrid a) (PGrid b) s in
  grid_at r.2 b Gb vb ∧
  (forallb no_feature va = false →
     only_writes (voxels Ga) s r.2 ∧
     (∀ g, r.1 = Ok g → g = PGrid a) ∧
     (Forall wf_voxel vb → (length vb ≤ length va)%nat → r.1 = Ok (PGrid a))) ∧
  (forallb no_feature va = true →
     grid_at r.2 a Ga va ∧
     r.1 = Ok (PGrid (length (grid_objs s))) ∧
     ∃ G', grid_at r.2 (length (grid_objs s)) G' vb ∧
           ∀ l, l ∈ voxels G' → (length (voxel_objs s) ≤ l)%nat).
Proof.
  intros Ha Hb Hsep r. subst r.
  destruct (forallb no_feature va) eqn:He.
  - erewrite merge_grids_empty by done. simpl.
    split_and!; [by apply grid_at_alloc | done |]. intros _.
    split_and!; [by apply grid_at_alloc | done |].
    eexists. split; [apply grid_at_copy |].
    intros l Hl. simpl in Hl. apply elem_of_seq in Hl. lia.
  - assert (∃ o s', merge_grids (PGrid a) (PGrid b) s = (o, s') ∧
              only_writes (voxels Ga) s s' ∧ (∀ g, o = Ok g → g = PGrid a))
      as (o & s' & Hrun & Hw & Hret).
    { unfold merge_grids.
      erewrite bind_Ok; [| by eapply is_empty_run]. rewrite He.
      destruct Ha as (Ha & _), Hb as (Hb & _).
      erewrite bind_Ok; [| simpl; erewrite bind_Ok; [reflexivity |];
                           unfold load_grid; by rewrite Hb].
      pose proof (merge_grids_loop_writes a Ga (voxels Gb) 0 s Ha) as Hw.
      unfold bind.
      destruct (for_enumerate 0 (voxels Gb) (merge_grids_round (PGrid a)) s)
        as [[[]|e|] s']; simpl in Hw; eexists _, _;
        (split; [reflexivity |]); split; try done.
      by intros g [= <-]. }
    rewrite Hrun. simpl. split_and!.
    + eapply grid_at_frame; [exact Hw | done | by apply refs_disjoint_sym].
    + intros _. split_and!; [done | done |]. intros Hwf Hlen.
      destruct (merge_grids_nonempty s a b Ga Gb va vb) as (s'' & Hrun' & _);
        [done | done | by apply refs_disjoint_sym | done | done |].
      rewrite bool_decide_eq_true_2 in Hrun' by done. congruence.
    + done.
Qed.

Lemma merge_grids_frame_witness :
  let r := merge_grids (PGrid 0%nat) (PGrid 1%nat) three_grids in
  grid_at r.2 1%nat (lattice_grid [2; 3]%nat) snapshot_b ∧
  (forallb no_feature snapshot_a = false →
     only_writes [0; 1]%nat three_grids r.2 ∧
     (∀ g, r.1 = Ok g → g = PGrid 0%nat) ∧
     (Forall wf_voxel snapshot_b → (length snapshot_b ≤ length snapshot_a)%nat →
      r.1 = Ok (PGrid 0%nat))) ∧
  (forallb no_feature snapshot_a = true →
     grid_at r.2 0%nat (lattice_grid [0; 1]%nat) snapshot_a ∧
     r.1 = Ok (PGrid (length (grid_objs three_grids))) ∧
     ∃ G', grid_at r.2 (length (grid_objs three_grids)) G' snapshot_b ∧
           ∀ l, l ∈ voxels G' → (length (voxel_objs three_grids) ≤ l)%nat).
Proof.
  destruct three_grids_at as (Ha & Hb & _).
  apply (merge_grids_frame three_grids 0%nat 1%nat _ _ snapshot_a snapshot_b Ha Hb).
  intros l H1 H2. apply list_elem_of_In in H1, H2. simpl in *. lia.
Defined.

(** An aside on aliasing: merging a grid that holds counts into itself does
    not return, the loop of line 100 appending to the list it runs over. *)
Example merge_grids_into_itself :
  (merge_grids (PGrid 0%nat) (PGrid 0%nat) three_grids).1 = Diverge.
Proof. vm_compute. reflexivity. Qed.

(** ** The spatial filter of the analyzer *)

(** Lines 45 and 46 read names that the call does not bind: whatever the
    coordinates, the call raises [NameError] and leaves the store as it
    was. *)
Lemma get_grid_atoms_NameError self coords s G :
  grid_objs s !! grid self = Some G →
  get_grid_atoms self coords s = (Raise "NameError", s).
Proof.
  intros HG. unfold get_grid_atoms.
  erewrite bind_Ok; [| unfold load_grid; by rewrite HG].
  apply bind_Raise. reflexivity.
Qed.

(** C5 on [GridAnalyzer.get_grid_atoms].  On the grid of the scenario the
    filter raises [NameError], for an empty set of points as for the two
    points of the scenario, instead of returning the points inside the
    cube. *)
Theorem get_grid_atoms_raises :
  (get_grid_atoms scenario_self [] scenario_state).1 = Raise "NameError" ∧
  (get_grid_atoms scenario_self [(9 # 10, 9 # 10, 9 # 10); (5 # 2, 0, 0)]%Q
     scenario_state).1 = Raise "NameError".
Proof. split; by erewrite get_grid_atoms_NameError. Qed.

(** ** Aggregation over a trajectory *)

Lemma analyze_trajectory_no_step self trajectory s G vs :
  grid_at s (grid self) G vs →
  result_voxels (analyze_trajectory self trajectory [] s) = Some vs ∧
  grid_at (analyze_trajectory self trajectory [] s).2 (grid self) G vs.
Proof.
  intros Hg. unfold analyze_trajectory.
  erewrite bind_Ok; [| by apply deepcopy_grid]. simpl analyze_steps. split.
  - eapply result_voxels_grid_at; [reflexivity | apply grid_at_copy].
  - by apply grid_at_alloc.
Qed.

(** As soon as one step was accepted, the call raises [NameError] (from
    [get_grid_atoms]) instead of returning a snapshot; the template grid is
    as it was before the call. *)
Lemma analyze_trajectory_NameError self trajectory step steps model s G vs :
  grid_at s (grid self) G vs →
  list_getitem trajectory step = Ok model →
  (analyze_trajectory self trajectory (step :: steps) s).1 = Raise "NameError" ∧
  grid_at (analyze_trajectory self trajectory (step :: steps) s).2 (grid self) G vs.
Proof.
  intros Hg Hmodel. unfold analyze_trajectory.
  erewrite bind_Ok; [| by apply deepcopy_grid]. simpl analyze_steps.
  erewrite bind_Ok; [| unfold lift; by rewrite Hmodel].
  erewrite bind_Raise; cycle 1.
  { eapply get_grid_atoms_NameError. simpl.
    destruct Hg as (Hg & _). rewrite lookup_app_l; [done | by eapply lookup_lt_Some]. }
  split; [done |]. by apply grid_at_alloc.
Qed.

(** C9 on [GridAnalyzer.analyze_trajectory].  For a trajectory of one
    model, whose only step is accepted, over the grid of the scenario, the
    call raises [NameError] and returns no snapshot; the template grid is
    unchanged. *)
Theorem analyze_trajectory_raises :
  (analyze_trajectory scenario_self [[(9 # 10, 9 # 10, 9 # 10)%Q]] [0]
     scenario_state).1 = Raise "NameError" ∧
  grid_at (analyze_trajectory scenario_self [[(9 # 10, 9 # 10, 9 # 10)%Q]] [0]
             scenario_state).2
    0%nat scenario_grid (map empty_voxel scenario_centers).
Proof.
  apply (analyze_trajectory_NameError scenario_self _ 0 [] [(9 # 10, 9 # 10, 9 # 10)%Q]
           scenario_state scenario_grid); [| reflexivity].
  split_and!; [reflexivity | apply NoDup_seq | reflexivity].
Qed.

(** ** Thresholds from the histogram *)

Lemma histogram_bin_edges_length a : length (histogram_bin_edges a) = 11%nat.
Proof. unfold histogram_bin_edges, linspace. by rewrite length_map, length_seq. Qed.

Lemma bin_edges_getitem a t :
  list_getitem (histogram_bin_edges a) t =
    if bool_decide (-11 ≤ t ≤ 10) then Ok (bin_edge t a) else Raise "IndexError".
Proof.
  unfold list_getitem, bin_edge, edge_index.
  rewrite histogram_bin_edges_length.
  change (Z.of_nat 11) with 11.
  destruct (decide (0 ≤ t < 11)) as [H|H].
  - rewrite (bool_decide_eq_true_2 (0 ≤ t < 11)) by done.
    rewrite (bool_decide_eq_true_2 (-11 ≤ t ≤ 10)) by lia.
    rewrite (bool_decide_eq_true_2 (0 ≤ t)) by lia.
    destruct (lookup_lt_is_Some_2 (histogram_bin_edges a) (Z.to_nat t)) as [e ->];
      [rewrite histogram_bin_edges_length; lia | done].
  - rewrite (bool_decide_eq_false_2 (0 ≤ t < 11)) by done.
    destruct (decide (-11 ≤ t < 0)) as [H'|H'].
    + rewrite (bool_decide_eq_true_2 (-11 ≤ t < 0)) by done.
      rewrite (bool_decide_eq_true_2 (-11 ≤ t ≤ 10)) by lia.
      rewrite (bool_decide_eq_false_2 (0 ≤ t)) by lia.
      destruct (lookup_lt_is_Some_2 (histogram_bin_edges a) (Z.to_nat (11 + t)))
        as [e ->]; [rewrite histogram_bin_edges_length; lia | done].
    + rewrite (bool_decide_eq_false_2 (-11 ≤ t < 0)) by done.
      by rewrite (bool_decide_eq_false_2 (-11 ≤ t ≤ 10)) by lia.
Qed.

Lemma set_threshold_dict_id s d :
  threshold_dict s = Some d → set_threshold_dict (Some d) s = s.
Proof. destruct s; simpl; by intros ->. Qed.

Lemma thresholds_loop t (L : list (string * list Z)) :
  -11 ≤ t ≤ 10 → ∀ s d, threshold_dict s = Some d →
  for_each L (λ '(element, freqlist),
    let bin_edges := histogram_bin_edges freqlist in
    edge <- lift (list_getitem bin_edges t) ;;
    modify (threshold_dict_setitem element edge)) s
  = (Ok tt, set_threshold_dict
              (Some (foldl (λ d item, <[item.1 := bin_edge t item.2]> d) d L)) s).
Proof.
  intros Ht. induction L as [|[k a] L IH]; intros s d Hd; simpl.
  - by rewrite set_threshold_dict_id.
  - erewrite bind_Ok; cycle 1.
    { erewrite bind_Ok; [reflexivity |]. unfold lift.
      by rewrite bin_edges_getitem, bool_decide_eq_true_2. }
    unfold threshold_dict_setitem. rewrite Hd. simpl.
    erewrite IH; [| reflexivity]. by destruct s.
Qed.

Lemma thresholds_loop_IndexError t (L : list (string * list Z)) s :
  ¬ (-11 ≤ t ≤ 10) → L ≠ [] →
  for_each L (λ '(element, freqlist),
    let bin_edges := histogram_bin_edges freqlist in
    edge <- lift (list_getitem bin_edges t) ;;
    modify (threshold_dict_setitem element edge)) s
  = (Raise "IndexError", s).
Proof.
  intros Ht HL. destruct L as [|[k a] L]; [done |]. simpl.
  apply bind_Raise, bind_Raise. unfold lift.
  by rewrite bin_edges_getitem, bool_decide_eq_false_2.
Qed.

Lemma foldl_insert_other {V W} (g : V → W) (L : list (string * V)) k :
  ∀ d : gmap string W,
  k ∉ L.*1 → foldl (λ d item, <[item.1 := g item.2]> d) d L !! k = d !! k.
Proof.
  induction L as [|[k' v] L IH]; intros d Hk; simpl; [done |].
  rewrite fmap_cons in Hk. apply not_elem_of_cons in Hk as [Hne Hk].
  rewrite IH by done. by rewrite lookup_insert_ne.
Qed.

Lemma foldl_insert_item {V W} (g : V → W) (L : list (string * V)) k v :
  ∀ d : gmap string W,
  NoDup L.*1 → (k, v) ∈ L →
  foldl (λ d item, <[item.1 := g item.2]> d) d L !! k = Some (g v).
Proof.
  induction L as [|[k' v'] L IH]; intros d Hnd Hin; [by apply elem_of_nil in Hin |].
  rewrite fmap_cons in Hnd. apply NoDup_cons in Hnd as [Hk' Hnd].
  apply elem_of_cons in Hin as [[= <- <-] | Hin]; simpl.
  - rewrite foldl_insert_other by done. by rewrite lookup_insert_eq.
  - by apply IH.
Qed.

Lemma foldl_insert_map_to_list {V W} (g : V → W) (m : gmap string V) :
  foldl (λ d item, <[item.1 := g item.2]> d) ∅ (map_to_list m) = g <$> m.
Proof.
  apply map_eq. intros k. rewrite lookup_fmap.
  destruct (m !! k) as [v|] eqn:Hk; simpl.
  - apply foldl_insert_item; [apply NoDup_fst_map_to_list | by apply elem_of_map_to_list].
  - rewrite foldl_insert_other; [done |].
    intros Hin. apply list_elem_of_fmap in Hin as ([k' v] & -> & Hin).
    apply elem_of_map_to_list in Hin. simpl in Hk. congruence.
Qed.

(** What [set_frequency_filter] does, on a grid with voxel values [vs]. *)
Lemma set_frequency_filter_run self t s G vs :
  grid_at s (grid self) G vs →
  set_frequency_filter self t s =
    if bool_decide (-11 ≤ t ≤ 10) then
      (Ok (bin_edge t <$> collect_frequencies vs),
       set_threshold_dict (Some (bin_edge t <$> collect_frequencies vs)) s)
    else if bool_decide (collect_frequencies vs = ∅) then
      (Ok ∅, set_threshold_dict (Some ∅) s)
    else (Raise "IndexError", set_threshold_dict (Some ∅) s).
Proof.
  intros (HG & _ & Hvs). unfold set_frequency_filter.
  erewrite bind_Ok; [| reflexivity].
  erewrite bind_Ok; [| unfold load_grid; simpl; by rewrite HG].
  erewrite bind_Ok; [| by apply map_each_load_voxel].
  case_bool_decide as Ht.
  - erewrite bind_Ok; [| by apply (thresholds_loop t _ Ht _ ∅)].
    rewrite foldl_insert_map_to_list. by destruct s.
  - case_bool_decide as He.
    + rewrite He, map_to_list_empty. by destruct s.
    + apply bind_Raise. apply thresholds_loop_IndexError; [done |].
      intros Hnil. by apply map_to_list_empty_iff in Hnil.
Qed.

(** C7, as the code has it.  [set_frequency_filter] raises no
    [InvalidThresholdError] and writes no file.  The bin index is used as a
    Python index into the eleven bin edges: for an index from -11 to 10,
    and so for every index from 0 to 9, the call returns the edge of that
    index for each feature; for any other index it raises [IndexError] if
    some voxel registered a feature, and returns no threshold at all if
    none did. *)
Theorem set_frequency_filter_index self t s G vs :
  grid_at s (grid self) G vs →
  let r := set_frequency_filter self t s in
  r.1 ≠ Raise "InvalidThresholdError" ∧
  files r.2 = files s ∧
  (0 ≤ t ≤ 9 → ∃ thresholds, r.1 = Ok thresholds) ∧
  (-11 ≤ t ≤ 10 → r.1 = Ok (bin_edge t <$> collect_frequencies vs)) ∧
  (¬ (-11 ≤ t ≤ 10) → collect_frequencies vs ≠ ∅ → r.1 = Raise "IndexError") ∧
  (¬ (-11 ≤ t ≤ 10) → collect_frequencies vs = ∅ → r.1 = Ok ∅).
Proof.
  intros Hg r. subst r. rewrite (set_frequency_filter_run self t s G vs Hg).
  repeat case_bool_decide; simpl; split_and!; try done; try lia; eauto.
Qed.

Lemma set_frequency_filter_index_witness :
  let r := set_frequency_filter (mkGridAnalyzer 1%nat) 12 three_grids in
  r.1 ≠ Raise "InvalidThresholdError" ∧
  files r.2 = files three_grids ∧
  (0 ≤ 12 ≤ 9 → ∃ thresholds, r.1 = Ok thresholds) ∧
  (-11 ≤ 12 ≤ 10 → r.1 = Ok (bin_edge 12 <$> collect_frequencies snapshot_b)) ∧
  (¬ (-11 ≤ 12 ≤ 10) → collect_frequencies snapshot_b ≠ ∅ → r.1 = Raise "IndexError") ∧
  (¬ (-11 ≤ 12 ≤ 10) → collect_frequencies snapshot_b = ∅ → r.1 = Ok ∅).
Proof.
  destruct three_grids_at as (_ & Hb & _).
  exact (set_frequency_filter_index (mkGridAnalyzer 1%nat) 12 three_grids _ _ Hb).
Defined.

(** C7 as stated fails: the bin indices 10 and -1 lie outside [0, 9] and
    the call returns thresholds for them; with no feature registered the
    call returns for the index 99 as well; and for the index 12 the error
    is an [IndexError]. *)
Lemma set_frequency_filter_counterexample :
  ¬ (0 ≤ 10 ≤ 9) ∧ ¬ (0 ≤ -1 ≤ 9) ∧ ¬ (0 ≤ 99 ≤ 9) ∧ ¬ (0 ≤ 12 ≤ 9) ∧
  (∃ thresholds, (set_frequency_filter (mkGridAnalyzer 1%nat) 10 three_grids).1
                 = Ok thresholds) ∧
  (∃ thresholds, (set_frequency_filter (mkGridAnalyzer 1%nat) (-1) three_grids).1
                 = Ok thresholds) ∧
  (set_frequency_filter (mkGridAnalyzer 2%nat) 99 three_grids).1 = Ok ∅ ∧
  (set_frequency_filter (mkGridAnalyzer 1%nat) 12 three_grids).1 = Raise "IndexError".
Proof.
  split_and!; try lia.
  - eexists. vm_compute. reflexivity.
  - eexists. vm_compute. reflexivity.
  - vm_compute. reflexivity.
  - vm_compute. reflexivity.
Qed.

(** ** Thresholds grow with the bin index *)

Lemma foldr_min_le x xs : foldr Z.min x xs ≤ x.
Proof. induction xs as [|y ys IH]; simpl; lia. Qed.

Lemma foldr_max_ge x xs : x ≤ foldr Z.max x xs.
Proof. induction xs as [|y ys IH]; simpl; lia. Qed.

Lemma outer_edges_le a : ((outer_edges a).1 <= (outer_edges a).2)%Q.
Proof.
  destruct a as [|x xs]; simpl; [done |].
  pose proof (foldr_min_le x xs). pose proof (foldr_max_ge x xs).
  case_bool_decide as He; simpl.
  - rewrite He. lra.
  - rewrite <- Zle_Qle. lia.
Qed.

Lemma linspace_lookup start stop num i :
  (i < num)%nat →
  linspace start stop num !! i =
    Some (inject_Z (Z.of_nat i) * ((stop - start) / inject_Z (Z.of_nat (num - 1)))
          + start)%Q.
Proof.
  intros Hi. unfold linspace.
  change (map ?f ?l) with (f <$> l).
  by rewrite list_lookup_fmap, lookup_seq_lt.
Qed.

Lemma bin_edge_monotone a k :
  0 ≤ k ≤ 9 → (bin_edge k a <= bin_edge (k + 1) a)%Q.
Proof.
  intros Hk. unfold bin_edge, edge_index, histogram_bin_edges.
  rewrite !bool_decide_eq_true_2 by lia.
  rewrite !linspace_lookup by lia. simpl default.
  rewrite !Z2Nat.id by lia.
  pose proof (outer_edges_le a) as Hle.
  set (lo := (outer_edges a).1) in *. set (hi := (outer_edges a).2) in *.
  assert (0 <= (hi - lo) / inject_Z (Z.of_nat (11 - 1)))%Q as Hstep.
  { apply Qle_shift_div_l; [done | lra]. }
  apply Qplus_le_l. apply Qmult_le_compat_r; [| done].
  rewrite <- Zle_Qle. lia.
Qed.

Lemma filter_length_le {A} (P Q : A → bool) (l : list A) :
  (∀ x, P x = true → Q x = true) →
  (length (List.filter P l) ≤ length (List.filter Q l))%nat.
Proof.
  intros HPQ. induction l as [|x l IH]; simpl; [done |].
  destruct (P x) eqn:HP.
  - rewrite (HPQ x HP). simpl. lia.
  - destruct (Q x); simpl; lia.
Qed.

(** C8.  For the bin indices [k] and [k + 1] from 0 to 10, the thresholds
    are computed for the same features, the cutoff of a feature for
    [k + 1] is at least its cutoff for [k], and no more voxels survive for
    [k + 1] than for [k]. *)
Theorem threshold_monotone self k s G vs :
  grid_at s (grid self) G vs → 0 ≤ k ≤ 9 →
  ∃ lower upper,
    (set_frequency_filter self k s).1 = Ok lower ∧
    (set_frequency_filter self (k + 1) s).1 = Ok upper ∧
    ∀ feature,
      match lower !! feature, upper !! feature with
      | Some cutoff, Some cutoff' => (cutoff <= cutoff')%Q
      | None, None => True
      | _, _ => False
      end ∧
      (survivors upper feature vs ≤ survivors lower feature vs)%nat.
Proof.
  intros Hg Hk.
  rewrite !(set_frequency_filter_run self _ s G vs Hg).
  rewrite !bool_decide_eq_true_2 by lia. simpl.
  eexists _, _. split_and!; [reflexivity | reflexivity |].
  intros feature.
  assert (match (bin_edge k <$> collect_frequencies vs) !! feature,
                (bin_edge (k + 1) <$> collect_frequencies vs) !! feature with
          | Some cutoff, Some cutoff' => (cutoff <= cutoff')%Q
          | None, None => True
          | _, _ => False
          end) as Hcut.
  { rewrite !lookup_fmap. destruct (collect_frequencies vs !! feature); simpl; [| done].
    by apply bin_edge_monotone. }
  split; [done |]. unfold survivors. apply filter_length_le.
  intros v. unfold survives.
  destruct (freq_dict v !! feature) as [freq|]; [| done].
  destruct ((bin_edge k <$> collect_frequencies vs) !! feature) as [c|],
           ((bin_edge (k + 1) <$> collect_frequencies vs) !! feature) as [c'|];
    try done.
  rewrite !Qle_bool_iff. intros Hc'. by eapply Qle_trans.
Qed.

Lemma threshold_monotone_witness :
  ∃ lower upper,
    (set_frequency_filter (mkGridAnalyzer 1%nat) 3 three_grids).1 = Ok lower ∧
    (set_frequency_filter (mkGridAnalyzer 1%nat) (3 + 1) three_grids).1 = Ok upper ∧
    ∀ feature,
      match lower !! feature, upper !! feature with
      | Some cutoff, Some cutoff' => (cutoff <= cutoff')%Q
      | None, None => True
      | _, _ => False
      end ∧
      (survivors upper feature snapshot_b ≤ survivors lower feature snapshot_b)%nat.
Proof.
  destruct three_grids_at as (_ & Hb & _).
  apply (threshold_monotone (mkGridAnalyzer 1%nat) 3 three_grids _ _ Hb). lia.
Defined.

(** ** The written record *)

(** C4 on [format_line_pdb].  For the voxel of center (1.0, 2.0, 3.0) with
    frequency 5 for HBD, the function writes the tag ATOM in 5 columns
    where the layout of the spec has 6: the record has 77 columns where the
    spec has 78, and each field after the tag starts one column earlier.
    The columns that the spec gives to x, y, z and the bfactor hold the
    last seven characters of the field and the first of the next one; for
    this voxel they still read 1, 2, 3 and 5, but with x = -100.5, whose
    field fills its eight columns, they read 100.5. *)
Theorem format_line_pdb_columns :
  format_line_pdb (1, 2, 3)%Q "HBD" 5 = Ok written_line ∧
  spec_record (1, 2, 3)%Q "HBD" 5 "H"
  = "ATOM      1 HBD  UNK A   1       1.000   2.000   3.000  1.00  5.00           H" ∧
  written_line ≠ spec_record (1, 2, 3)%Q "HBD" 5 "H" +:+ newline ∧
  String.length written_line = 78%nat ∧
  String.length (spec_record (1, 2, 3)%Q "HBD" 5 "H" +:+ newline) = 79%nat ∧
  spec_x (spec_record (1, 2, 3)%Q "HBD" 5 "H") = "   1.000" ∧
  spec_x written_line = "  1.000 " ∧ spec_y written_line = "  2.000 " ∧
  spec_z written_line = "  3.000 " ∧ spec_bfactor written_line = " 5.00 " ∧
  Qred <$> parse_field (spec_x written_line) = Some 1%Q ∧
  Qred <$> parse_field (spec_y written_line) = Some 2%Q ∧
  Qred <$> parse_field (spec_z written_line) = Some 3%Q ∧
  Qred <$> parse_field (spec_bfactor written_line) = Some 5%Q ∧
  format_line_pdb (-201 # 2, 2, 3)%Q "HBD" 5 = Ok written_line_wide ∧
  spec_x written_line_wide = "100.500 " ∧
  Qred <$> parse_field (spec_x written_line_wide) = Some (201 # 2)%Q ∧
  Qred <$> parse_field (spec_x (spec_record (-201 # 2, 2, 3)%Q "HBD" 5 "H"))
    = Some (-201 # 2)%Q.
Proof.
  split_and!; try (vm_compute; reflexivity).
  vm_compute. discriminate.
Qed.

(** ** The spatial filter of [Target] *)

(** The cube lies within the sphere of radius [sqrt(3) * radius]. *)
Lemma inside_within G p :
  inside (v1 G) (v8 G) p = true →
  within (Sqrt3Times (radius G)) p (grid_center G) = true.
Proof.
  unfold inside, all_le, within, sqeuclidean, v1, v8. destruct p as [[x y] z].
  destruct (grid_center G) as [[cx cy] cz]. unfold px, py, pz; simpl.
  rewrite !andb_true_iff, !Qle_bool_iff.
  intros [[[H1 H2] H3] [[H4 H5] H6]].
  set (r := radius G) in *.
  assert (0 <= r)%Q by lra.
  assert ((x - cx) * (x - cx) <= r * r)%Q by nra.
  assert ((y - cy) * (y - cy) <= r * r)%Q by nra.
  assert ((z - cz) * (z - cz) <= r * r)%Q by nra.
  split; [done | lra].
Qed.

Lemma filter_filter_implied {A} (P R : A → bool) (l : list A) :
  (∀ x, R x = true → P x = true) →
  List.filter R (List.filter P l) = List.filter R l.
Proof.
  intros HRP. induction l as [|x l IH]; simpl; [done |].
  destruct (R x) eqn:HR.
  - rewrite (HRP x HR). simpl. by rewrite HR, IH.
  - destruct (P x); simpl; by rewrite ?HR, IH.
Qed.

(** X12.  [Target.get_grid_atoms] returns, in their order, the atoms that
    are within [sqrt(3) * radius] of the center and inside the cube, which
    are the atoms inside the cube: the neighbor search filters nothing
    that the cube keeps.  An empty input gives an empty output, and the
    store is left as it was. *)
Lemma Target_get_grid_atoms_spec self atoms s G :
  grid_objs s !! target_grid self = Some G →
  ∃ grid_atoms,
    Target_get_grid_atoms self atoms s = (Ok grid_atoms, s) ∧
    (∀ a, a ∈ grid_atoms ↔
          a ∈ atoms ∧ within (Sqrt3Times (radius G)) (coord a) (grid_center G) = true
          ∧ inside (v1 G) (v8 G) (coord a) = true) ∧
    grid_atoms = List.filter (λ a, inside (v1 G) (v8 G) (coord a)) atoms ∧
    (atoms = [] → grid_atoms = []).
Proof.
  intros HG. unfold Target_get_grid_atoms.
  erewrite bind_Ok; [| unfold load_grid; by rewrite HG].
  eexists. split; [reflexivity |]. unfold Target_neighbor_search. split_and!.
  - intros a. rewrite !list_elem_of_In, !filter_In. unfold inside. tauto.
  - apply (filter_filter_implied
             (λ a, within (Sqrt3Times (radius G)) (coord a) (grid_center G))
             (λ a, inside (v1 G) (v8 G) (coord a))).
    intros a. apply inside_within.
  - by intros ->.
Qed.

Lemma Target_get_grid_atoms_spec_witness :
  let atoms := [mkAtom (9 # 10, 9 # 10, 9 # 10)%Q "HBD"; mkAtom (5 # 2, 0, 0)%Q "ARO"] in
  ∃ grid_atoms,
    Target_get_grid_atoms (mkTarget 0%nat) atoms scenario_state
    = (Ok grid_atoms, scenario_state) ∧
    (∀ a, a ∈ grid_atoms ↔
          a ∈ atoms
          ∧ within (Sqrt3Times (radius scenario_grid)) (coord a)
              (grid_center scenario_grid) = true
          ∧ inside (v1 scenario_grid) (v8 scenario_grid) (coord a) = true) ∧
    grid_atoms
    = List.filter (λ a, inside (v1 scenario_grid) (v8 scenario_grid) (coord a)) atoms ∧
    (atoms = [] → grid_atoms = []).
Proof.
  apply (Target_get_grid_atoms_spec (mkTarget 0%nat)
           [mkAtom (9 # 10, 9 # 10, 9 # 10)%Q "HBD"; mkAtom (5 # 2, 0, 0)%Q "ARO"]
           scenario_state scenario_grid).
  reflexivity.
Defined.

(** The scenario of the spec: of the points (0.9, 0.9, 0.9) and
    (2.5, 0, 0), the second lies beyond [v8], whose x is 2, and is
    dropped. *)
Example Target_get_grid_atoms_scenario :
  (Target_get_grid_atoms (mkTarget 0%nat)
     [mkAtom (9 # 10, 9 # 10, 9 # 10)%Q "HBD"; mkAtom (5 # 2, 0, 0)%Q "HBD"]
     scenario_state).1
  = Ok [mkAtom (9 # 10, 9 # 10, 9 # 10)%Q "HBD"].
Proof. vm_compute. reflexivity. Qed.

(** ** [Target] against [GridAnalyzer] *)

Lemma argmin_from_ext (f : Q → Q) xs : ∀ best_i best i,
  (∀ x y, Qle_bool (f x) (f y) = Qle_bool x y) →
  argmin_from best_i (f best) i (map f xs) = argmin_from best_i best i xs.
Proof.
  induction xs as [|x xs IH]; intros best_i best i Hf; simpl; [done |].
  rewrite Hf. destruct (Qle_bool best x); by apply IH.
Qed.

(** With the Euclidean distance the nearest voxel is the same as with its
    square. *)
Lemma argmin_euclidean sqrt cs p :
  (∀ x y, Qle_bool (sqrt x) (sqrt y) = Qle_bool x y) →
  argmin (map (euclidean sqrt p) cs) = nearest cs p.
Proof.
  intros Hsqrt. unfold nearest, euclidean. destruct cs as [|c cs]; [done |]. simpl.
  f_equal.
  rewrite <- (argmin_from_ext sqrt (map (sqeuclidean p) cs) 0%nat
                (sqeuclidean p c) 1%nat Hsqrt).
  by rewrite List.map_map.
Qed.

Lemma Target_collect_frequencies_eq vs :
  Target_collect_frequencies vs = collect_frequencies vs.
Proof.
  unfold Target_collect_frequencies, collect_frequencies.
  generalize (∅ : gmap string (list Z)).
  induction vs as [|v vs IH]; intros d; simpl; [done |].
  rewrite IH. f_equal. case_bool_decide as He; [| done].
  by rewrite He, map_to_list_empty.
Qed.

Lemma each_ok_ext {A B} (f g : A → outcome B) xs :
  (∀ x, f x = g x) → each_ok f xs = each_ok g xs.
Proof. intros Hfg. induction xs as [|x xs IH]; simpl; [done |]. by rewrite Hfg, IH. Qed.

Lemma each_ok_map {A B C} (h : A → B) (f : B → outcome C) xs :
  each_ok f (map h xs) = each_ok (λ x, f (h x)) xs.
Proof. induction xs as [|x xs IH]; simpl; [done |]. by rewrite IH. Qed.

Lemma voxel_dict_fold (cs : list point) atoms mins :
  Forall2 (λ a m, nearest cs (coord a) = Ok m) atoms mins →
  ∀ (d : gmap nat (list string)) i,
    default [] (foldl (λ voxel_dict item,
                         setdefault_append voxel_dict item.2 (feature item.1))
                  d (zip atoms mins) !! i)
    = default [] (d !! i)
      ++ map feature
           (List.filter (λ a, bool_decide (nearest cs (coord a) = Ok i)) atoms).
Proof.
  induction 1 as [|a m atoms mins Ham _ IH]; intros d i; simpl.
  - by rewrite app_nil_r.
  - rewrite IH. unfold setdefault_append. rewrite Ham.
    destruct (decide (m = i)) as [->|Hne].
    + rewrite lookup_insert_eq, bool_decide_eq_true_2 by done. simpl.
      by rewrite <- app_assoc.
    + rewrite lookup_insert_ne by done.
      rewrite bool_decide_eq_false_2; [done |]. by intros [= ->].
Qed.

Lemma Target_check_voxels_run sqrt self grid_atoms s G vs :
  (∀ x y, Qle_bool (sqrt x) (sqrt y) = Qle_bool x y) →
  grid_objs s !! target_grid self = Some G → voxels_at s (voxels G) = Some vs →
  vs ≠ [] → grid_atoms ≠ [] →
  ∃ mins,
    Forall2 (λ a m, nearest (map center vs) (coord a) = Ok m) grid_atoms mins ∧
    Target_check_voxels sqrt self grid_atoms s
    = (Ok (foldl (λ voxel_dict item,
                    setdefault_append voxel_dict item.2 (feature item.1))
             ∅ (zip grid_atoms mins)), s).
Proof.
  intros Hsqrt HG Hvs Hne Hatoms. unfold Target_check_voxels.
  erewrite bind_Ok; [| unfold load_grid; by rewrite HG].
  erewrite bind_Ok; [| by apply map_each_load_center].
  destruct (each_ok_Forall2 (λ a, nearest (map center vs) (coord a))
              (λ a m, nearest (map center vs) (coord a) = Ok m) grid_atoms)
    as (mins & Hmins & HF).
  { intros a _. destruct (nearest_spec (map center vs) (coord a)) as (i & _ & Hi & _).
    - by destruct vs.
    - eauto. }
  exists mins. split; [done |].
  erewrite bind_Ok; [reflexivity |].
  unfold lift. destruct grid_atoms as [|a atoms]; [done |].
  destruct vs as [|v vs]; [done |].
  cbn [map]. rewrite <- Hmins.
  change (coord a :: map coord atoms) with (map coord (a :: atoms)).
  rewrite each_ok_map. f_equal. apply each_ok_ext. intros a'.
  by apply (argmin_euclidean sqrt (center v :: map center vs)).
Qed.

(** X13.  [Target.check_voxels] files each atom under the voxel that
    [GridAnalyzer.check_voxels] gives to its coordinates: under the index
    of a voxel are the features of the atoms nearest to it, in the order of
    the atoms, and each atom is filed once. *)
Lemma Target_check_voxels_nearest sqrt self grid_atoms s G vs :
  (∀ x y, Qle_bool (sqrt x) (sqrt y) = Qle_bool x y) →
  grid_objs s !! target_grid self = Some G → voxels_at s (voxels G) = Some vs →
  vs ≠ [] → grid_atoms ≠ [] →
  ∃ voxel_dict,
    Target_check_voxels sqrt self grid_atoms s = (Ok voxel_dict, s) ∧
    ∀ i, default [] (voxel_dict !! i)
         = map feature
             (List.filter (λ a, bool_decide (nearest (map center vs) (coord a) = Ok i))
                grid_atoms).
Proof.
  intros Hsqrt HG Hvs Hne Hatoms.
  destruct (Target_check_voxels_run sqrt self grid_atoms s G vs Hsqrt HG Hvs Hne Hatoms)
    as (mins & HF & Hrun).
  eexists. split; [exact Hrun |]. intros i.
  rewrite (voxel_dict_fold (map center vs) grid_atoms mins HF). by rewrite lookup_empty.
Qed.

Lemma Target_check_voxels_nearest_witness :
  let grid_atoms :=
    [mkAtom (9 # 10, 9 # 10, 9 # 10)%Q "HBD"; mkAtom (-1, -1, -1)%Q "ARO"] in
  ∃ voxel_dict,
    Target_check_voxels (λ x, x) (mkTarget 0%nat) grid_atoms scenario_state
    = (Ok voxel_dict, scenario_state) ∧
    ∀ i, default [] (voxel_dict !! i)
         = map feature
             (List.filter
                (λ a, bool_decide
                        (nearest (map center (map empty_voxel scenario_centers)) (coord a)
                         = Ok i))
                grid_atoms).
Proof.
  apply (Target_check_voxels_nearest (λ x, x) (mkTarget 0%nat)
           [mkAtom (9 # 10, 9 # 10, 9 # 10)%Q "HBD"; mkAtom (-1, -1, -1)%Q "ARO"]
           scenario_state scenario_grid (map empty_voxel scenario_centers));
    [reflexivity | reflexivity | reflexivity | discriminate | discriminate].
Defined.

(** X17.  [Target.set_frequency_filter] leaves the store that
    [GridAnalyzer.set_frequency_filter] leaves, and raises when it raises. *)
Lemma Target_set_frequency_filter_agrees g t s G vs :
  grid_at s g G vs →
  (Target_set_frequency_filter (mkTarget g) t s).2
  = (set_frequency_filter (mkGridAnalyzer g) t s).2 ∧
  match (Target_set_frequency_filter (mkTarget g) t s).1,
        (set_frequency_filter (mkGridAnalyzer g) t s).1 with
  | Ok _, Ok _ => True
  | Raise e, Raise e' => e = e'
  | Diverge, Diverge => True
  | _, _ => False
  end.
Proof.
  intros Hg. rewrite (set_frequency_filter_run (mkGridAnalyzer g) t s G vs Hg).
  destruct Hg as (HG & _ & Hvs). unfold Target_set_frequency_filter.
  erewrite bind_Ok; [| reflexivity].
  erewrite bind_Ok; [| unfold load_grid; simpl; by rewrite HG].
  erewrite bind_Ok; [| by apply map_each_load_voxel].
  rewrite Target_collect_frequencies_eq.
  case_bool_decide as Ht.
  - rewrite (thresholds_loop t _ Ht _ ∅) by done.
    rewrite foldl_insert_map_to_list. by destruct s.
  - case_bool_decide as He.
    + rewrite He, map_to_list_empty. by destruct s.
    + rewrite thresholds_loop_IndexError; [done | done |].
      intros Hnil. by apply map_to_list_empty_iff in Hnil.
Qed.

Lemma Target_set_frequency_filter_agrees_witness :
  (Target_set_frequency_filter (mkTarget 1%nat) 3 three_grids).2
  = (set_frequency_filter (mkGridAnalyzer 1%nat) 3 three_grids).2 ∧
  match (Target_set_frequency_filter (mkTarget 1%nat) 3 three_grids).1,
        (set_frequency_filter (mkGridAnalyzer 1%nat) 3 three_grids).1 with
  | Ok _, Ok _ => True
  | Raise e, Raise e' => e = e'
  | Diverge, Diverge => True
  | _, _ => False
  end.
Proof.
  destruct three_grids_at as (_ & Hb & _).
  apply (Target_set_frequency_filter_agrees 1%nat 3 three_grids _ _ Hb).
Defined.

(** ** The records that [Target.save_pharmacophores] writes *)

Lemma string_length_app (x t : string) :
  String.length (x +:+ t) = (String.length x + String.length t)%nat.
Proof. induction x as [|c x IH]; simpl; [done | by rewrite IH]. Qed.

Lemma string_app_inj_r (x : string) : ∀ y t, x +:+ t = y +:+ t → x = y.
Proof.
  induction x as [|c x IH]; intros [|d y] t H; [done | | |].
  - apply (f_equal String.length) in H. rewrite !string_length_app in H.
    simpl in H. lia.
  - apply (f_equal String.length) in H. rewrite !string_length_app in H.
    simpl in H. lia.
  - cbn in H. injection H as -> H. f_equal. by eapply IH.
Qed.

Lemma pharmacophore_file_inj f f' :
  pharmacophore_file f = pharmacophore_file f' → f = f'.
Proof. apply string_app_inj_r. Qed.

Lemma set_files_set_files fs1 fs2 s :
  set_files (λ _, fs2) (set_files (λ _, fs1) s) = set_files (λ _, fs2) s.
Proof. by destruct s. Qed.

Lemma set_files_id s : set_files (λ _, files s) s = s.
Proof. by destruct s. Qed.

(** One round of the loop of line 96, for a feature that has a threshold
    and a name that is not empty. *)
Lemma save_round (v : Voxel) thresholds s element freq cutoff :
  threshold_dict s = Some thresholds → thresholds !! element = Some cutoff →
  element ≠ "" →
  ∃ line, format_line_pdb (center v) element freq = Ok line ∧
  (thresholds <- attr_threshold_dict ;;
   cutoff <- lift (dict_getitem thresholds element) ;;
   if Qle_bool cutoff (inject_Z freq) then
     let path := pharmacophore_file element in
     modify (set_files (open_append path)) ;;;
     line <- lift (format_line_pdb (center v) element freq) ;;
     modify (set_files (write_line path line))
   else ret tt) s
  = (Ok tt,
     set_files (λ _, if Qle_bool cutoff (inject_Z freq)
                     then write_line (pharmacophore_file element) line (files s)
                     else files s) s).
Proof.
  intros Htd Hc Hne.
  assert (∃ line, format_line_pdb (center v) element freq = Ok line) as [line Hline].
  { unfold format_line_pdb, format_line_pdb_with. destruct (center v) as [[x y] z].
    destruct element; [done |]. simpl. eauto. }
  exists line. split; [done |].
  erewrite bind_Ok; [| unfold attr_threshold_dict; by rewrite Htd].
  erewrite bind_Ok; [| unfold lift, dict_getitem; by rewrite Hc].
  destruct (Qle_bool cutoff (inject_Z freq)); [| by rewrite set_files_id].
  erewrite bind_Ok; [| reflexivity].
  erewrite bind_Ok; [| unfold lift; by rewrite Hline].
  unfold modify. f_equal. destruct s; unfold set_files, write_line, open_append; simpl.
  f_equal. by rewrite lookup_insert_eq, insert_insert_eq.
Qed.

Lemma save_voxel_loop (v : Voxel) thresholds (L : list (string * Z)) : ∀ s,
  threshold_dict s = Some thresholds → NoDup L.*1 →
  (∀ item, item ∈ L → is_Some (thresholds !! item.1) ∧ item.1 ≠ "") →
  ∃ fs,
    for_each L (λ '(element, freq),
      thresholds <- attr_threshold_dict ;;
      cutoff <- lift (dict_getitem thresholds element) ;;
      if Qle_bool cutoff (inject_Z freq) then
        let path := pharmacophore_file element in
        modify (set_files (open_append path)) ;;;
        line <- lift (format_line_pdb (center v) element freq) ;;
        modify (set_files (write_line path line))
      else ret tt) s
    = (Ok tt, set_files (λ _, fs) s) ∧
    (∀ f, f ∉ L.*1 →
       default [] (fs !! pharmacophore_file f)
       = default [] (files s !! pharmacophore_file f)) ∧
    (∀ f n cutoff line, (f, n) ∈ L → thresholds !! f = Some cutoff →
       format_line_pdb (center v) f n = Ok line →
       default [] (fs !! pharmacophore_file f)
       = default [] (files s !! pharmacophore_file f)
         ++ if Qle_bool cutoff (inject_Z n) then [line] else []).
Proof.
  induction L as [|[element freq] L IH]; intros s Htd Hnd Hall.
  - exists (files s). simpl. rewrite set_files_id. split_and!; [done | done |].
    intros f n c line Hin. by apply elem_of_nil in Hin.
  - rewrite fmap_cons in Hnd. apply NoDup_cons in Hnd as [Hel Hnd]. simpl in Hel.
    destruct (Hall (element, freq)) as [[cutoff Hc] Hne]; [by left |]. simpl in *.
    destruct (save_round v thresholds s element freq cutoff Htd Hc Hne)
      as (line & Hline & Hround).
    set (fs1 := if Qle_bool cutoff (inject_Z freq)
                then write_line (pharmacophore_file element) line (files s)
                else files s) in *.
    destruct (IH (set_files (λ _, fs1) s)) as (fs & Hrun & Hother & Hitem);
      [by destruct s | done | intros; apply Hall; by right |].
    assert (∀ f, f ≠ element →
              default [] (fs1 !! pharmacophore_file f)
              = default [] (files s !! pharmacophore_file f)) as Hfs1.
    { intros f Hf. subst fs1. destruct (Qle_bool _ _); [| done].
      unfold write_line. rewrite lookup_insert_ne; [done |].
      intros Heq. by apply pharmacophore_file_inj in Heq. }
    exists fs. split_and!.
    + erewrite bind_Ok; [| exact Hround]. rewrite Hrun. by rewrite set_files_set_files.
    + intros f Hf. apply not_elem_of_cons in Hf as [Hf1 Hf2].
      rewrite Hother by done. simpl. by apply Hfs1.
    + intros f n c line' Hin Hc' Hline'.
      apply elem_of_cons in Hin as [[= -> ->] | Hin].
      * rewrite Hother by done. simpl.
        assert (c = cutoff) as -> by congruence.
        assert (line' = line) as -> by congruence.
        subst fs1. destruct (Qle_bool _ _); [| by rewrite app_nil_r].
        unfold write_line. by rewrite lookup_insert_eq.
      * rewrite (Hitem f n c line' Hin Hc' Hline'). simpl. rewrite Hfs1; [done |].
        intros ->. apply Hel. apply list_elem_of_fmap. by exists (element, n).
Qed.

Lemma format_line_pdb_Ok c element freq :
  element ≠ "" → ∃ line, format_line_pdb c element freq = Ok line.
Proof.
  intros Hne. unfold format_line_pdb, format_line_pdb_with. destruct c as [[x y] z].
  destruct element; [done |]. simpl. eauto.
Qed.

(** The rounds of line 96 for one voxel add to the file of each feature
    the record of the voxel if it survives, and nothing if it does not. *)
Lemma save_voxel (v : Voxel) thresholds s :
  threshold_dict s = Some thresholds →
  (∀ f, is_Some (freq_dict v !! f) → is_Some (thresholds !! f) ∧ f ≠ "") →
  ∃ fs,
    for_each (map_to_list (freq_dict v)) (λ '(element, freq),
      thresholds <- attr_threshold_dict ;;
      cutoff <- lift (dict_getitem thresholds element) ;;
      if Qle_bool cutoff (inject_Z freq) then
        let path := pharmacophore_file element in
        modify (set_files (open_append path)) ;;;
        line <- lift (format_line_pdb (center v) element freq) ;;
        modify (set_files (write_line path line))
      else ret tt) s
    = (Ok tt, set_files (λ _, fs) s) ∧
    ∀ f, default [] (fs !! pharmacophore_file f)
         = default [] (files s !! pharmacophore_file f)
           ++ if survives thresholds f v then [record f v] else [].
Proof.
  intros Htd Hcond.
  destruct (save_voxel_loop v thresholds (map_to_list (freq_dict v)) s Htd)
    as (fs & Hrun & Hother & Hitem).
  { apply NoDup_fst_map_to_list. }
  { intros [f n] Hin. apply elem_of_map_to_list in Hin. apply Hcond. eauto. }
  exists fs. split; [done |]. intros f. unfold survives, record, frequency.
  destruct (freq_dict v !! f) as [n|] eqn:Hf.
  - destruct (Hcond f) as [[c Hc] Hne]; [by rewrite Hf |].
    destruct (format_line_pdb_Ok (center v) f n Hne) as [line Hline].
    rewrite Hc. simpl. rewrite Hline.
    apply (Hitem f n c line); [by apply elem_of_map_to_list | done | done].
  - rewrite app_nil_r. apply Hother.
    intros Hin. apply list_elem_of_fmap in Hin as ([f' n] & -> & Hin).
    apply elem_of_map_to_list in Hin. simpl in Hf. congruence.
Qed.

Lemma voxels_at_set_files f s refs : voxels_at (set_files f s) refs = voxels_at s refs.
Proof. done. Qed.

Lemma save_loop thresholds (objs : list Voxel) refs vs :
  Forall2 (λ l v, objs !! l = Some v) refs vs →
  Forall (λ v, ∀ f, is_Some (freq_dict v !! f) →
                    is_Some (thresholds !! f) ∧ f ≠ "") vs →
  ∀ s, voxel_objs s = objs → threshold_dict s = Some thresholds →
  ∃ fs,
    for_each refs (λ l,
      voxel <- load_voxel l ;;
      for_each (map_to_list (freq_dict voxel)) (λ '(element, freq),
        thresholds <- attr_threshold_dict ;;
        cutoff <- lift (dict_getitem thresholds element) ;;
        if Qle_bool cutoff (inject_Z freq) then
          let path := pharmacophore_file element in
          modify (set_files (open_append path)) ;;;
          line <- lift (format_line_pdb (center voxel) element freq) ;;
          modify (set_files (write_line path line))
        else ret tt)) s
    = (Ok tt, set_files (λ _, fs) s) ∧
    ∀ f, default [] (fs !! pharmacophore_file f)
         = default [] (files s !! pharmacophore_file f) ++ records thresholds f vs.
Proof.
  induction 1 as [|l v refs vs Hl _ IH]; intros Hcond s Hobjs Htd.
  - exists (files s). simpl. rewrite set_files_id. split; [done |].
    intros f. unfold records. simpl. by rewrite app_nil_r.
  - apply Forall_cons in Hcond as [Hv Hcond]. simpl for_each.
    destruct (save_voxel v thresholds s Htd Hv) as (fs1 & Hrun1 & Hfs1).
    destruct (IH Hcond (set_files (λ _, fs1) s)) as (fs & Hrun & Hfs);
      [by destruct s | by destruct s |].
    exists fs. split.
    + erewrite bind_Ok; cycle 1.
      { erewrite bind_Ok; [exact Hrun1 |]. unfold load_voxel. by rewrite Hobjs, Hl. }
      etransitivity; [exact Hrun |]. by rewrite set_files_set_files.
    + intros f. rewrite Hfs. simpl. rewrite Hfs1. unfold records. simpl.
      destruct (survives thresholds f v); simpl; by rewrite <- ?app_assoc.
Qed.

(** X18.  [Target.save_pharmacophores], run when every registered feature has a
    threshold and a name that is not empty, adds to the file of each
    feature one record for each voxel that survives, in the order of the
    voxels, and nothing else; their number is the number of survivors. *)
Lemma Target_save_pharmacophores_records g s G vs thresholds :
  grid_at s g G vs → threshold_dict s = Some thresholds →
  Forall (λ v, ∀ f, is_Some (freq_dict v !! f) →
                    is_Some (thresholds !! f) ∧ f ≠ "") vs →
  ∃ fs,
    Target_save_pharmacophores (mkTarget g) s = (Ok tt, set_files (λ _, fs) s) ∧
    ∀ f, default [] (fs !! pharmacophore_file f)
         = default [] (files s !! pharmacophore_file f) ++ records thresholds f vs ∧
         length (records thresholds f vs) = survivors thresholds f vs.
Proof.
  intros (HG & _ & Hvs) Htd Hcond. unfold Target_save_pharmacophores.
  erewrite bind_Ok; [| unfold load_grid; simpl; by rewrite HG].
  apply voxels_at_Forall2 in Hvs.
  destruct (save_loop thresholds (voxel_objs s) (voxels G) vs Hvs Hcond s eq_refl Htd)
    as (fs & Hrun & Hfs).
  exists fs. split; [done |]. intros f. split; [done |].
  unfold records, survivors. by rewrite length_map.
Qed.

Lemma Target_save_pharmacophores_records_witness :
  let thresholds : gmap string Q := {[ "ARO" := 1%Q; "HBD" := 3%Q ]} in
  let s := set_threshold_dict (Some thresholds) three_grids in
  ∃ fs,
    Target_save_pharmacophores (mkTarget 1%nat) s = (Ok tt, set_files (λ _, fs) s) ∧
    ∀ f, default [] (fs !! pharmacophore_file f)
         = default [] (files s !! pharmacophore_file f) ++ records thresholds f snapshot_b ∧
         length (records thresholds f snapshot_b) = survivors thresholds f snapshot_b.
Proof.
  destruct three_grids_at as (_ & Hb & _).
  apply (Target_save_pharmacophores_records 1%nat
           (set_threshold_dict (Some {[ "ARO" := 1%Q; "HBD" := 3%Q ]}) three_grids)
           (lattice_grid [2; 3]%nat) snapshot_b {[ "ARO" := 1%Q; "HBD" := 3%Q ]});
    [exact Hb | reflexivity |].
  apply Forall_cons_2; [| apply Forall_cons_2; [| apply Forall_nil_2]];
    intros f [n Hf]; simpl in Hf;
    apply lookup_singleton_Some in Hf as [<- _]; (split; [by eexists | done]).
Defined.

(** The thresholds of bin 0 on the second snapshot: both features survive
    in their voxel, and each file receives the record of that voxel. *)
Example Target_save_pharmacophores_scenario :
  let s := (Target_set_frequency_filter (mkTarget 1%nat) 0 three_grids).2 in
  files (Target_save_pharmacophores (mkTarget 1%nat) s).2
  = {[ "AROpharmacophore.pdb" :=
         [ "ATOM     1 ARO  UNK A   1      -1.000   0.000   0.000  1.00  1.00           A"
           +:+ newline ];
       "HBDpharmacophore.pdb" :=
         [ "ATOM     1 HBD  UNK A   1       1.000   0.000   0.000  1.00  2.00           H"
           +:+ newline ] ]}.
Proof. vm_compute. reflexivity. Qed.

(** * Further properties of the code *)

(** ** [merge_grids]: what the merged grid holds *)

(** X1.  On two separate, well-formed grids with the same number of voxels,
    [merge_grids] returns a grid with as many voxels, and at every index
    and for every feature the frequency is the sum of the two frequencies
    and the origin list is the origins of the first argument followed by
    those of the second. *)
Theorem merge_grids_adds s a b Ga Gb va vb :
  grid_at s a Ga va → grid_at s b Gb vb → voxels Ga ## voxels Gb →
  Forall wf_voxel va → Forall wf_voxel vb → length va = length vb →
  ∃ vr, result_voxels (merge_grids (PGrid a) (PGrid b) s) = Some vr ∧
    length vr = length va ∧
    ∀ i v o, va !! i = Some v → vb !! i = Some o →
      ∃ x, vr !! i = Some x ∧
        ∀ feature, frequency x feature = frequency v feature + frequency o feature ∧
                   origins x feature = origins v feature ++ origins o feature.
Proof.
  intros Ha Hb Hsep Hwa Hwb Hlen. exists (merged va vb). split_and!.
  - by eapply merge_grids_result.
  - by apply merged_length.
  - intros i v o Hv Ho. by apply merged_counts.
Qed.

Lemma merge_grids_adds_witness :
  ∃ vr, result_voxels (merge_grids (PGrid 0%nat) (PGrid 1%nat) three_grids) = Some vr ∧
    length vr = length snapshot_a ∧
    ∀ i v o, snapshot_a !! i = Some v → snapshot_b !! i = Some o →
      ∃ x, vr !! i = Some x ∧
        ∀ feature, frequency x feature = frequency v feature + frequency o feature ∧
                   origins x feature = origins v feature ++ origins o feature.
Proof.
  destruct three_grids_at as (Ha & Hb & _).
  destruct three_grids_wf as (Hwa & Hwb & _).
  apply (merge_grids_adds three_grids 0%nat 1%nat _ _ snapshot_a snapshot_b Ha Hb);
    [| exact Hwa | exact Hwb | reflexivity].
  intros l H1 H2. apply list_elem_of_In in H1, H2. simpl in *. lia.
Defined.

Lemma counted_combine v o : counted v → counted o → counted (combine_voxel v o).
Proof.
  unfold counted, combine_voxel. simpl. intros Hv Ho. apply map_eq. intros k.
  rewrite Hv, Ho, lookup_fmap, !lookup_union_with, !lookup_fmap.
  destruct (origin_dict v !! k), (origin_dict o !! k); simpl; try done.
  by rewrite length_app, Nat2Z.inj_add.
Qed.

Lemma counted_merged va vb :
  Forall counted va → Forall counted vb → Forall counted (merged va vb).
Proof.
  intros Ha Hb. unfold merged. destruct (forallb no_feature va); [done |].
  revert vb Hb. induction Ha as [|v va Hv Ha IH]; intros [|o vb] Hb; simpl; try done.
  - by constructor.
  - apply Forall_cons in Hb as [Ho Hb]. constructor; [by apply counted_combine | auto].
Qed.

(** X2.  [merge_grids] keeps the invariants of the voxels: if in both
    grids every voxel holds origins exactly for the features it counted,
    none of them empty, and one origin per occurrence counted, then so does
    every voxel of the grid that is returned. *)
Theorem merge_grids_keeps_invariants s a b Ga Gb va vb :
  grid_at s a Ga va → grid_at s b Gb vb → voxels Ga ## voxels Gb →
  Forall wf_voxel va → Forall wf_voxel vb →
  Forall counted va → Forall counted vb → length va = length vb →
  ∃ vr, result_voxels (merge_grids (PGrid a) (PGrid b) s) = Some vr ∧
    Forall wf_voxel vr ∧ Forall counted vr.
Proof.
  intros Ha Hb Hsep Hwa Hwb Hca Hcb Hlen. exists (merged va vb). split_and!.
  - by eapply merge_grids_result.
  - by apply wf_merged.
  - by apply counted_merged.
Qed.

Lemma three_grids_counted :
  Forall counted snapshot_a ∧ Forall counted snapshot_b.
Proof. split; repeat constructor; unfold counted; simpl; vm_compute; reflexivity. Defined.

Lemma merge_grids_keeps_invariants_witness :
  ∃ vr, result_voxels (merge_grids (PGrid 0%nat) (PGrid 1%nat) three_grids) = Some vr ∧
    Forall wf_voxel vr ∧ Forall counted vr.
Proof.
  destruct three_grids_at as (Ha & Hb & _).
  destruct three_grids_wf as (Hwa & Hwb & _).
  destruct three_grids_counted as (Hca & Hcb).
  apply (merge_grids_keeps_invariants three_grids 0%nat 1%nat _ _ snapshot_a snapshot_b
           Ha Hb); [| done | done | done | done | reflexivity].
  intros l H1 H2. apply list_elem_of_In in H1, H2. simpl in *. lia.
Defined.

(** ** [merge_grids]: when it raises *)

Lemma merge_voxel_rounds_KeyError (o : Voxel) (L : list (string * Z)) : ∀ v,
  (∃ item, item ∈ L ∧ origin_dict o !! item.1 = None) →
  ∃ v',
    for_each L (λ '(feature, other_freq),
      modify (set_freq_dict (λ d, frequency_dict d feature other_freq)) ;;;
      other_models <- lift (dict_getitem (origin_dict o) feature) ;;
      for_each other_models (λ model,
        modify (set_origin_dict (λ d, list_dict d feature model)))) v
    = (Raise "KeyError", v').
Proof.
  induction L as [|[f n] L IH]; intros v (item & Hin & Hbad).
  - by apply elem_of_nil in Hin.
  - simpl. destruct (origin_dict o !! f) as [ms|] eqn:Hf.
    + erewrite bind_Ok; [| exact (merge_voxel_round o v f n ms Hf)].
      apply IH. exists item. split; [| done].
      apply elem_of_cons in Hin as [-> | Hin]; [| done]. simpl in Hbad. congruence.
    + eexists. apply bind_Raise.
      erewrite bind_Ok; [| reflexivity]. apply bind_Raise.
      unfold lift, dict_getitem. by rewrite Hf.
Qed.

Lemma merge_voxel_KeyError o v :
  ¬ has_origins o → ∃ v', merge_voxel false o v = (Raise "KeyError", v').
Proof.
  unfold has_origins. intros Hbad. unfold merge_voxel.
  assert (∃ f, is_Some (freq_dict o !! f) ∧ origin_dict o !! f = None)
    as (f & [n Hn] & Hf).
  { destruct (decide (∃ f, f ∈ dom (freq_dict o) ∧ f ∉ dom (origin_dict o)))
      as [(f & H1 & H2)|Hno].
    - exists f. split; [by apply elem_of_dom | by apply not_elem_of_dom].
    - exfalso. apply Hbad. intros f Hf.
      destruct (decide (f ∈ dom (origin_dict o))); [done |].
      exfalso. apply Hno. eauto. }
  rewrite bool_decide_eq_false_2; cycle 1.
  { intros He. rewrite He, lookup_empty in Hn. done. }
  apply merge_voxel_rounds_KeyError. exists (f, n). split; [| done].
  by apply elem_of_map_to_list.
Qed.

Lemma merge_grids_loop_outcome a Ga : ∀ obs pre suf s ovs vs,
  grid_objs s !! a = Some Ga → voxels Ga = pre ++ suf → NoDup suf →
  voxels_at s suf = Some vs → voxels_at s obs = Some ovs →
  (∀ l, l ∈ obs → l ∉ suf) →
  let o := (for_enumerate (length pre) obs (merge_grids_round (PGrid a)) s).1 in
  (o = Ok tt ∧ (length obs ≤ length suf)%nat ∧ Forall has_origins ovs) ∨
  (o = Raise "IndexError" ∧ ¬ (length obs ≤ length suf)%nat) ∨
  (o = Raise "KeyError" ∧ ¬ Forall has_origins ovs).
Proof.
  induction obs as [|ol obs IH]; intros pre suf s ovs vs Ha Hrefs Hnd Hvs Hovs Hdisj.
  - apply voxels_at_length in Hovs. destruct ovs; [|done]. simpl.
    left. split_and!; [done | lia | constructor].
  - apply voxels_at_Forall2 in Hovs.
    apply Forall2_cons_inv_l in Hovs as (ov & ovs' & Hol & Hovs & ->).
    simpl for_enumerate. destruct suf as [|l suf].
    + right. left. split; [| simpl; lia].
      erewrite bind_Raise; [done |]. unfold merge_grids_round.
      erewrite bind_Ok; [| simpl; erewrite bind_Ok; [reflexivity |];
                           unfold load_grid; by rewrite Ha].
      apply bind_Raise. unfold lift. rewrite list_getitem_nat_ge; [done |].
      rewrite Hrefs, app_nil_r. done.
    + apply voxels_at_Forall2 in Hvs.
      apply Forall2_cons_inv_l in Hvs as (v & vs' & Hl & Hvs & ->).
      apply NoDup_cons in Hnd as [Hl_suf Hnd].
      assert (l ≠ ol) as Hne.
      { intros ->. apply (Hdisj ol); by left. }
      assert (∀ out v', merge_voxel false ov v = (out, v') →
                merge_grids_round (PGrid a) (length pre) ol s
                = (out, set_voxel_objs (λ objs, <[l := v']> objs) s)) as Hround.
      { intros out v' Hm. unfold merge_grids_round.
        erewrite bind_Ok; [| simpl; erewrite bind_Ok; [reflexivity |];
                             unfold load_grid; by rewrite Ha].
        erewrite bind_Ok; cycle 1.
        { unfold lift. rewrite (list_getitem_nat _ _ l); [done |].
          rewrite Hrefs, lookup_app_r by lia. by rewrite Nat.sub_diag. }
        erewrite bind_Ok; [| unfold load_voxel; by rewrite Hol].
        rewrite bool_decide_eq_false_2 by done.
        by apply (with_voxel_run s l v). }
      destruct (decide (dom (freq_dict ov) ⊆ dom (origin_dict ov))) as [Hok|Hbad].
      * pose proof (merge_voxel_foldl ov v Hok) as Hm.
        apply Hround in Hm.
        set (s1 := set_voxel_objs _ s) in Hm.
        pose proof (only_writes_insert s l
                      (foldl (add_feature ov) v (map_to_list (freq_dict ov)))) as Hw1.
        fold s1 in Hw1.
        destruct (IH (pre ++ [l]) suf s1 ovs' vs') as [H|[H|H]].
        -- subst s1. exact Ha.
        -- by rewrite <- app_assoc.
        -- done.
        -- rewrite (only_writes_voxels_at [l] s s1); [by apply voxels_at_Forall2 | done |].
           intros l' Hl' Hin. apply list_elem_of_singleton in Hin as ->. done.
        -- rewrite (only_writes_voxels_at [l] s s1); [by apply voxels_at_Forall2 | done |].
           intros l' Hl' Hin. apply list_elem_of_singleton in Hin as ->.
           apply (Hdisj l); [by right | by left].
        -- intros l' Hl' Hin. apply (Hdisj l'); by right.
        -- destruct H as (Ho & Hlen & Hall). left.
           erewrite bind_Ok; [| exact Hm].
           rewrite length_app, Nat.add_1_r in Ho.
           split_and!; [done | simpl; lia | by constructor].
        -- destruct H as (Ho & Hlen). right. left.
           erewrite bind_Ok; [| exact Hm].
           rewrite length_app, Nat.add_1_r in Ho. split; [done | simpl; lia].
        -- destruct H as (Ho & Hall). right. right.
           erewrite bind_Ok; [| exact Hm].
           rewrite length_app, Nat.add_1_r in Ho. split; [done |].
           intros Hall'. apply Hall. by apply Forall_cons in Hall' as [_ ?].
      * destruct (merge_voxel_KeyError ov v Hbad) as [v' Hm].
        apply Hround in Hm. right. right.
        erewrite bind_Raise; [| exact Hm]. split; [done |].
        intros Hall. by apply Forall_cons in Hall as [? _].
Qed.

(** X3.  On two separate grids [merge_grids] always terminates, and raises
    nothing but [IndexError] and [KeyError].  It returns exactly when the
    first grid is empty, or has at least as many voxels as the second and
    every voxel of the second holds an origin entry for each feature it
    counted. *)
Theorem merge_grids_returns_iff s a b Ga Gb va vb :
  grid_at s a Ga va → grid_at s b Gb vb → voxels Ga ## voxels Gb →
  let o := (merge_grids (PGrid a) (PGrid b) s).1 in
  ((∃ r, o = Ok r) ↔
     forallb no_feature va = true ∨
     ((length vb ≤ length va)%nat ∧ Forall has_origins vb)) ∧
  o ≠ Diverge ∧
  (∀ exc, o = Raise exc → exc = "IndexError" ∨ exc = "KeyError").
Proof.
  intros Ha Hb Hsep o. subst o.
  destruct (forallb no_feature va) eqn:He.
  - erewrite merge_grids_empty by done. simpl.
    split_and!; [split; eauto | done | done].
  - unfold merge_grids.
    erewrite bind_Ok; [| by eapply is_empty_run]. rewrite He.
    pose proof Ha as (HGa & Hnd & Hva). pose proof Hb as (HGb & _ & Hvb).
    erewrite bind_Ok; [| simpl; erewrite bind_Ok; [reflexivity |];
                         unfold load_grid; by rewrite HGb].
    pose proof (merge_grids_loop_outcome a Ga (voxels Gb) [] (voxels Ga) s vb va
                  HGa eq_refl Hnd Hva Hvb) as Hloop.
    simpl in Hloop.
    rewrite (voxels_at_length _ _ _ Hva), (voxels_at_length _ _ _ Hvb).
    unfold bind.
    destruct (for_enumerate 0 (voxels Gb) (merge_grids_round (PGrid a)) s)
      as [[[]|e|] s'] eqn:Hrun; simpl in *;
      (destruct Hloop as [(Ho & Hlen & Hall)|[(Ho & Hlen)|(Ho & Hall)]];
       [intros l Hl Hin; by apply (Hsep l) | ..]); try done.
    + split_and!; [| done | done]. split; [intros _; right | eauto].
      split; [lia | done].
    + injection Ho as ->. split_and!; [| done | intros ? [= <-]; by left].
      split; [by intros [? ?] |]. intros [? | [? ?]]; [done | lia].
    + injection Ho as ->. split_and!; [| done | intros ? [= <-]; by right].
      split; [by intros [? ?] |]. intros [? | [? ?]]; done.
Qed.

Lemma merge_grids_returns_iff_witness :
  let o := (merge_grids (PGrid 0%nat) (PGrid 1%nat) three_grids).1 in
  ((∃ r, o = Ok r) ↔
     forallb no_feature snapshot_a = true ∨
     ((length snapshot_b ≤ length snapshot_a)%nat ∧ Forall has_origins snapshot_b)) ∧
  o ≠ Diverge ∧
  (∀ exc, o = Raise exc → exc = "IndexError" ∨ exc = "KeyError").
Proof.
  destruct three_grids_at as (Ha & Hb & _).
  apply (merge_grids_returns_iff three_grids 0%nat 1%nat _ _ snapshot_a snapshot_b Ha Hb).
  intros l H1 H2. apply list_elem_of_In in H1, H2. simpl in *. lia.
Defined.

(** ** [check_voxels], [fill_grid] and [analyze_trajectory]: edges *)

Lemma check_voxels_run self coords s G vs :
  grid_at s (grid self) G vs →
  check_voxels self coords s =
    (match cdist_argmin coords (map center vs) with
     | Ok voxel_inds => Ok voxel_inds
     | Raise exc => Raise exc
     | Diverge => Diverge
     end,
     set_grid_objs (λ gs, gs ++ [mkGrid (grid_center G) (radius G)
                                   (seq (length (voxel_objs s)) (length vs))])
       (set_voxel_objs (λ objs, objs ++ vs) s)).
Proof.
  intros Hg. unfold check_voxels.
  erewrite bind_Ok; [| by apply deepcopy_grid].
  set (s1 := set_grid_objs _ _).
  erewrite bind_Ok; cycle 1.
  { simpl. erewrite bind_Ok; [reflexivity |]. unfold load_grid. subst s1. simpl.
    rewrite lookup_app_r by lia. by rewrite Nat.sub_diag. }
  simpl voxels.
  erewrite bind_Ok; cycle 1.
  { apply map_each_load_center. subst s1. apply (voxels_at_seq_app s vs). }
  unfold bind, lift. by destruct (cdist_argmin coords (map center vs)).
Qed.

(** X4.  [check_voxels] works on a deep copy: whatever the points and
    whatever its outcome, every grid of the store, the grid of the analyzer
    among them, is left as it was.  On a grid that has no voxel it raises
    [ValueError]. *)
Theorem check_voxels_frame self coords s G vs :
  grid_at s (grid self) G vs →
  let r := check_voxels self coords s in
  (∀ g' G' vs', grid_at s g' G' vs' → grid_at r.2 g' G' vs') ∧
  (vs = [] → r.1 = Raise "ValueError").
Proof.
  intros Hg r. subst r. rewrite (check_voxels_run self coords s G vs Hg). simpl. split.
  - intros g' G' vs' Hg'. by apply grid_at_alloc.
  - by intros ->.
Qed.

Lemma check_voxels_frame_witness :
  let r := check_voxels scenario_self [(0, 0, 0)%Q] no_voxel_state in
  (∀ g' G' vs', grid_at no_voxel_state g' G' vs' → grid_at r.2 g' G' vs') ∧
  (@nil Voxel = [] → r.1 = Raise "ValueError").
Proof.
  apply (check_voxels_frame scenario_self [(0, 0, 0)%Q] no_voxel_state
           (mkGrid (0, 0, 0)%Q 2%Q []) []).
  split_and!; [reflexivity | apply NoDup_nil_2 | reflexivity].
Defined.

(** X5.  [fill_grid] names the voxel by [voxel], which the call does not
    bind: for every array of indices that is not empty it raises
    [NameError], whatever [count_feature] does, and for an empty one it
    returns; in both cases the store is left as it was. *)
Theorem fill_grid_NameError count_feature self feature voxel_inds s G :
  grid_objs s !! grid self = Some G →
  fill_grid count_feature self feature voxel_inds s =
    (match voxel_inds with [] => Ok tt | _ :: _ => Raise "NameError" end, s).
Proof.
  intros HG. unfold fill_grid. destruct voxel_inds as [|i inds]; [done |].
  simpl. apply bind_Raise.
  erewrite bind_Ok; [| unfold load_grid; by rewrite HG].
  apply bind_Raise. vm_compute. reflexivity.
Qed.

Lemma fill_grid_NameError_witness :
  fill_grid (λ feature, modify (set_freq_dict (λ d, frequency_dict d feature 1)))
    scenario_self "ARO" [7%nat; 0%nat] scenario_state
  = (Raise "NameError", scenario_state).
Proof.
  apply (fill_grid_NameError _ scenario_self "ARO" [7%nat; 0%nat] scenario_state
           scenario_grid).
  reflexivity.
Defined.

(** X6.  With no accepted step, [analyze_trajectory] returns a newly
    allocated grid, other than the template, whose voxels are new objects
    with the values of the voxels of the template; the template is left as
    it was. *)
Theorem analyze_trajectory_without_steps self trajectory s G vs :
  grid_at s (grid self) G vs →
  let r := analyze_trajectory self trajectory [] s in
  r.1 = Ok (PGrid (length (grid_objs s))) ∧
  length (grid_objs s) ≠ grid self ∧
  grid_at r.2 (grid self) G vs ∧
  ∃ G', grid_at r.2 (length (grid_objs s)) G' vs ∧ voxels G' ## voxels G ∧
        grid_center G' = grid_center G ∧ radius G' = radius G.
Proof.
  intros Hg r. subst r. unfold analyze_trajectory.
  erewrite bind_Ok; [| by apply deepcopy_grid]. simpl analyze_steps.
  split_and!; [done | | by apply grid_at_alloc |].
  - destruct Hg as (HG & _). apply lookup_lt_Some in HG. lia.
  - eexists. split_and!; [apply grid_at_copy | | done | done].
    intros l Hl Hl'. simpl in Hl. apply elem_of_seq in Hl.
    pose proof (grid_at_valid _ _ _ _ _ Hg Hl'). lia.
Qed.

Lemma analyze_trajectory_without_steps_witness :
  let r := analyze_trajectory scenario_self [] [] scenario_state in
  r.1 = Ok (PGrid (length (grid_objs scenario_state))) ∧
  length (grid_objs scenario_state) ≠ grid scenario_self ∧
  grid_at r.2 (grid scenario_self) scenario_grid (map empty_voxel scenario_centers) ∧
  ∃ G', grid_at r.2 (length (grid_objs scenario_state)) G'
          (map empty_voxel scenario_centers) ∧
        voxels G' ## voxels scenario_grid ∧
        grid_center G' = grid_center scenario_grid ∧ radius G' = radius scenario_grid.
Proof.
  apply (analyze_trajectory_without_steps scenario_self [] scenario_state scenario_grid).
  split_and!; [reflexivity | apply NoDup_seq | reflexivity].
Defined.

(** ** [set_frequency_filter]: which thresholds, and what they keep *)

Lemma list_dict_fold_other {A} (L : list (string * A)) k : ∀ d : gmap string (list A),
  k ∉ L.*1 →
  foldl (λ all item, list_dict all item.1 item.2) d L !! k = d !! k.
Proof.
  induction L as [|[k' v] L IH]; intros d Hk; simpl; [done |].
  rewrite fmap_cons in Hk. apply not_elem_of_cons in Hk as [Hne Hk].
  rewrite IH by done. unfold list_dict. by rewrite lookup_insert_ne.
Qed.

Lemma list_dict_fold_item {A} (L : list (string * A)) k v :
  ∀ d : gmap string (list A),
  NoDup L.*1 → (k, v) ∈ L →
  foldl (λ all item, list_dict all item.1 item.2) d L !! k
  = Some (default [] (d !! k) ++ [v]).
Proof.
  induction L as [|[k' v'] L IH]; intros d Hnd Hin; [by apply elem_of_nil in Hin |].
  rewrite fmap_cons in Hnd. apply NoDup_cons in Hnd as [Hk' Hnd].
  apply elem_of_cons in Hin as [[= <- <-] | Hin]; simpl.
  - rewrite list_dict_fold_other by done. unfold list_dict. by rewrite lookup_insert_eq.
  - rewrite IH by done. unfold list_dict. rewrite lookup_insert_ne; [done |].
    intros ->. apply Hk'. apply list_elem_of_fmap. by exists (k, v).
Qed.

Lemma collect_frequencies_fold vs feature : ∀ d : gmap string (list Z),
  default []
    (foldl (λ freq_dict_all voxel,
              if bool_decide (freq_dict voxel = ∅) then freq_dict_all
              else foldl (λ all item, list_dict all item.1 item.2)
                     freq_dict_all (map_to_list (freq_dict voxel)))
       d vs !! feature)
  = default [] (d !! feature) ++ registered feature vs.
Proof.
  induction vs as [|v vs IH]; intros d; simpl.
  - by rewrite app_nil_r.
  - rewrite IH. unfold registered. simpl.
    destruct (freq_dict v !! feature) as [n|] eqn:Hn; simpl.
    + rewrite bool_decide_eq_false_2; cycle 1.
      { intros He. by rewrite He, lookup_empty in Hn. }
      rewrite (list_dict_fold_item _ feature n);
        [| apply NoDup_fst_map_to_list | by apply elem_of_map_to_list].
      simpl. by rewrite <- app_assoc.
    + case_bool_decide; [done |].
      rewrite list_dict_fold_other; [done |].
      intros Hin. apply list_elem_of_fmap in Hin as ([k n] & -> & Hin).
      apply elem_of_map_to_list in Hin. simpl in Hn. congruence.
Qed.

Lemma collect_frequencies_nonempty vs feature : ∀ d : gmap string (list Z),
  (∀ k, d !! k ≠ Some []) →
  foldl (λ freq_dict_all voxel,
           if bool_decide (freq_dict voxel = ∅) then freq_dict_all
           else foldl (λ all item, list_dict all item.1 item.2)
                  freq_dict_all (map_to_list (freq_dict voxel)))
    d vs !! feature ≠ Some [].
Proof.
  induction vs as [|v vs IH]; intros d Hd; simpl; [done |].
  apply IH. intros k. case_bool_decide; [done |].
  destruct (decide (k ∈ (map_to_list (freq_dict v)).*1)) as [Hin|Hout].
  - apply list_elem_of_fmap in Hin as ([k' n] & -> & Hin).
    rewrite (list_dict_fold_item _ k' n); [| apply NoDup_fst_map_to_list | done].
    intros [= Heq]. by destruct (default [] (d !! k')).
  - by rewrite list_dict_fold_other.
Qed.

(** The list that is histogrammed for a feature: the frequencies of the
    voxels that registered it, in the order of the voxels; a feature that
    no voxel registered has none. *)
Lemma collect_frequencies_lookup vs feature :
  collect_frequencies vs !! feature =
    match registered feature vs with [] => None | l => Some l end.
Proof.
  pose proof (collect_frequencies_fold vs feature ∅) as Hfold.
  pose proof (collect_frequencies_nonempty vs feature ∅) as Hne.
  fold (collect_frequencies vs) in Hfold, Hne.
  rewrite lookup_empty in Hfold. simpl in Hfold.
  destruct (collect_frequencies vs !! feature) as [l|]; simpl in Hfold.
  - rewrite <- Hfold. destruct l; [| done]. exfalso. by apply Hne.
  - by rewrite <- Hfold.
Qed.

Lemma set_frequency_filter_thresholds self t s G vs :
  grid_at s (grid self) G vs → -11 ≤ t ≤ 10 →
  ∃ thresholds,
    (set_frequency_filter self t s).1 = Ok thresholds ∧
    ∀ feature, thresholds !! feature =
      match registered feature vs with
      | [] => None
      | l => Some (bin_edge t l)
      end.
Proof.
  intros Hg Ht. rewrite (set_frequency_filter_run self t s G vs Hg).
  rewrite bool_decide_eq_true_2 by done. simpl.
  eexists. split; [reflexivity |].
  intros feature. rewrite lookup_fmap, collect_frequencies_lookup.
  by destruct (registered feature vs).
Qed.

(** X7.  For a bin index from -11 to 10, [set_frequency_filter] returns the
    thresholds it stores in [self.threshold_dict]: one for each feature
    that some voxel registered and for no other feature, computed from the
    frequencies of the voxels that registered it.  The dict replaces the
    one of an earlier call, and the grids, the voxels and the files are
    left as they were. *)
Theorem set_frequency_filter_features self t s G vs :
  grid_at s (grid self) G vs → -11 ≤ t ≤ 10 →
  ∃ thresholds,
    set_frequency_filter self t s
    = (Ok thresholds, set_threshold_dict (Some thresholds) s) ∧
    ∀ feature, thresholds !! feature =
      match registered feature vs with
      | [] => None
      | l => Some (bin_edge t l)
      end.
Proof.
  intros Hg Ht. rewrite (set_frequency_filter_run self t s G vs Hg).
  rewrite bool_decide_eq_true_2 by done.
  eexists. split; [reflexivity |].
  intros feature. rewrite lookup_fmap, collect_frequencies_lookup.
  by destruct (registered feature vs).
Qed.

Lemma set_frequency_filter_features_witness :
  ∃ thresholds,
    set_frequency_filter (mkGridAnalyzer 1%nat) 2 three_grids
    = (Ok thresholds, set_threshold_dict (Some thresholds) three_grids) ∧
    ∀ feature, thresholds !! feature =
      match registered feature snapshot_b with
      | [] => None
      | l => Some (bin_edge 2 l)
      end.
Proof.
  destruct three_grids_at as (_ & Hb & _).
  apply (set_frequency_filter_features (mkGridAnalyzer 1%nat) 2 three_grids _ _ Hb). lia.
Defined.

Lemma bin_edge_value t a :
  0 ≤ t ≤ 10 →
  bin_edge t a
  = (inject_Z t * (((outer_edges a).2 - (outer_edges a).1) * (1 # 10))
     + (outer_edges a).1)%Q.
Proof.
  intros Ht. unfold bin_edge, edge_index, histogram_bin_edges.
  rewrite bool_decide_eq_true_2 by lia.
  rewrite linspace_lookup by lia. simpl default. by rewrite Z2Nat.id by lia.
Qed.

Lemma foldr_min_elem x xs n : n ∈ x :: xs → foldr Z.min x xs ≤ n.
Proof.
  intros Hin. apply elem_of_cons in Hin as [Heq | Hin].
  - subst. apply foldr_min_le.
  - induction xs as [|y ys IH]; [by apply elem_of_nil in Hin |]. simpl.
    apply elem_of_cons in Hin as [Heq | Hin]; [subst; lia |].
    specialize (IH Hin). lia.
Qed.

Lemma foldr_max_elem x xs n : n ∈ x :: xs → n ≤ foldr Z.max x xs.
Proof.
  intros Hin. apply elem_of_cons in Hin as [Heq | Hin].
  - subst. apply foldr_max_ge.
  - induction xs as [|y ys IH]; [by apply elem_of_nil in Hin |]. simpl.
    apply elem_of_cons in Hin as [Heq | Hin]; [subst; lia |].
    specialize (IH Hin). lia.
Qed.

Lemma registered_elem feature vs v n :
  v ∈ vs → freq_dict v !! feature = Some n → n ∈ registered feature vs.
Proof. intros Hv Hn. unfold registered. apply list_elem_of_omap. eauto. Qed.

Lemma survivors_all thresholds feature vs cutoff :
  thresholds !! feature = Some cutoff →
  (∀ v n, v ∈ vs → freq_dict v !! feature = Some n →
          Qle_bool cutoff (inject_Z n) = true) →
  survivors thresholds feature vs = length (registered feature vs).
Proof.
  intros Hc. unfold survivors, registered, survives. rewrite Hc.
  induction vs as [|v vs IH]; intros Hall; simpl; [done |].
  destruct (freq_dict v !! feature) as [n|] eqn:Hn; simpl.
  - rewrite (Hall v n); [| by left | done]. simpl. f_equal.
    apply IH. intros w m Hw. apply Hall. by right.
  - apply IH. intros w m Hw. apply Hall. by right.
Qed.

Lemma survivors_none thresholds feature vs :
  (∀ v n cutoff, v ∈ vs → freq_dict v !! feature = Some n →
     thresholds !! feature = Some cutoff → Qle_bool cutoff (inject_Z n) = false) →
  survivors thresholds feature vs = 0%nat.
Proof.
  unfold survivors, survives.
  induction vs as [|v vs IH]; intros Hall; simpl; [done |].
  destruct (freq_dict v !! feature) as [n|] eqn:Hn,
           (thresholds !! feature) as [c|] eqn:Hc;
    try (apply IH; intros w m c' Hw; apply Hall; by right).
  rewrite (Hall v n c); [| by left | done | done].
  apply IH. intros w m c' Hw. apply Hall. by right.
Qed.

(** X8.  With the bin index 0 nothing is filtered: for every feature the
    voxels that survive are all the voxels that registered it. *)
Theorem threshold_zero_keeps_all self s G vs :
  grid_at s (grid self) G vs →
  ∃ thresholds,
    (set_frequency_filter self 0 s).1 = Ok thresholds ∧
    ∀ feature, survivors thresholds feature vs = length (registered feature vs).
Proof.
  intros Hg.
  destruct (set_frequency_filter_thresholds self 0 s G vs Hg) as (th & Hrun & Hth);
    [lia |].
  exists th. split; [done |]. intros feature. specialize (Hth feature).
  destruct (registered feature vs) as [|x xs] eqn:Hreg.
  - apply survivors_none. intros v n c Hv Hn Hc. congruence.
  - rewrite <- Hreg.
    apply (survivors_all th feature vs (bin_edge 0 (x :: xs))); [done |].
    intros v n Hv Hn. apply Qle_bool_iff.
    pose proof (registered_elem feature vs v n Hv Hn) as Hin. rewrite Hreg in Hin.
    pose proof (foldr_min_elem x xs n Hin) as Hmin.
    rewrite bin_edge_value by lia. simpl outer_edges.
    rewrite Zle_Qle in Hmin. change (inject_Z 0) with 0%Q.
    case_bool_decide; simpl; lra.
Qed.

Lemma threshold_zero_keeps_all_witness :
  ∃ thresholds,
    (set_frequency_filter (mkGridAnalyzer 1%nat) 0 three_grids).1 = Ok thresholds ∧
    ∀ feature, survivors thresholds feature snapshot_b
               = length (registered feature snapshot_b).
Proof.
  destruct three_grids_at as (_ & Hb & _).
  exact (threshold_zero_keeps_all (mkGridAnalyzer 1%nat) three_grids _ _ Hb).
Defined.

Lemma bin_edge_negative t a : -11 ≤ t ≤ -1 → bin_edge t a = bin_edge (t + 11) a.
Proof.
  intros Ht. unfold bin_edge, edge_index.
  rewrite bool_decide_eq_false_2 by lia. rewrite bool_decide_eq_true_2 by lia.
  by rewrite Z.add_comm.
Qed.

(** X9.  A negative bin index counts the edges from the last one: for an
    index [t] from -11 to -1 the call does what it does for [t + 11], so
    that -1 selects the last edge as 10 does. *)
Theorem set_frequency_filter_negative self t s G vs :
  grid_at s (grid self) G vs → -11 ≤ t ≤ -1 →
  set_frequency_filter self t s = set_frequency_filter self (t + 11) s.
Proof.
  intros Hg Ht. rewrite !(set_frequency_filter_run self _ s G vs Hg).
  rewrite !bool_decide_eq_true_2 by lia.
  assert (bin_edge t <$> collect_frequencies vs
          = bin_edge (t + 11) <$> collect_frequencies vs) as ->; [| done].
  apply map_fmap_ext. intros k a _. by apply bin_edge_negative.
Qed.

Lemma set_frequency_filter_negative_witness :
  set_frequency_filter (mkGridAnalyzer 1%nat) (-1) three_grids
  = set_frequency_filter (mkGridAnalyzer 1%nat) (-1 + 11) three_grids.
Proof.
  destruct three_grids_at as (_ & Hb & _).
  apply (set_frequency_filter_negative (mkGridAnalyzer 1%nat) (-1) three_grids _ _ Hb).
  lia.
Defined.

Lemma spread_state_at :
  grid_at spread_state 0%nat (mkGrid (0, 0, 0)%Q 2%Q [0; 1; 2]%nat) spread_voxels.
Proof. split_and!; [reflexivity | apply (NoDup_seq 0 3) | reflexivity]. Defined.

(** X10.  With the bin index 10 the cutoff of a feature whose frequencies
    are not all equal is its greatest frequency: a voxel survives exactly
    when it holds that greatest frequency. *)
Theorem threshold_ten_keeps_maxima self s G vs :
  grid_at s (grid self) G vs →
  ∃ thresholds,
    (set_frequency_filter self 10 s).1 = Ok thresholds ∧
    ∀ feature x xs,
      registered feature vs = x :: xs → foldr Z.min x xs ≠ foldr Z.max x xs →
      ∀ v n, v ∈ vs → freq_dict v !! feature = Some n →
        (survives thresholds feature v = true ↔ n = foldr Z.max x xs).
Proof.
  intros Hg.
  destruct (set_frequency_filter_thresholds self 10 s G vs Hg) as (th & Hrun & Hth);
    [lia |].
  exists th. split; [done |]. intros feature x xs Hreg Hne v n Hv Hn.
  specialize (Hth feature). rewrite Hreg in Hth.
  unfold survives. rewrite Hn, Hth, Qle_bool_iff.
  pose proof (registered_elem feature vs v n Hv Hn) as Hin. rewrite Hreg in Hin.
  pose proof (foldr_max_elem x xs n Hin) as Hmax.
  rewrite bin_edge_value by lia. simpl outer_edges.
  rewrite bool_decide_eq_false_2 by done. simpl.
  change (inject_Z 10) with 10%Q.
  split.
  - intros Hle.
    assert (inject_Z (foldr Z.max x xs) <= inject_Z n)%Q as Hle' by lra.
    rewrite <- Zle_Qle in Hle'. lia.
  - intros ->. lra.
Qed.

Lemma threshold_ten_keeps_maxima_witness :
  ∃ thresholds,
    (set_frequency_filter (mkGridAnalyzer 0%nat) 10 spread_state).1 = Ok thresholds ∧
    ∀ feature x xs,
      registered feature spread_voxels = x :: xs →
      foldr Z.min x xs ≠ foldr Z.max x xs →
      ∀ v n, v ∈ spread_voxels → freq_dict v !! feature = Some n →
        (survives thresholds feature v = true ↔ n = foldr Z.max x xs).
Proof.
  exact (threshold_ten_keeps_maxima (mkGridAnalyzer 0%nat) spread_state _ _
           spread_state_at).
Defined.

(** On the three voxels that counted ARO 1, 4 and 10 times: one survivor
    for the bin index 10, two for the bin index 3 (cutoff 3.7), three for
    the bin index 0. *)
Example threshold_spread :
  map (λ t, match (set_frequency_filter (mkGridAnalyzer 0%nat) t spread_state).1 with
            | Ok thresholds => Some (survivors thresholds "ARO" spread_voxels)
            | _ => None
            end) [10; 3; 0]
  = [Some 1%nat; Some 2%nat; Some 3%nat].
Proof. vm_compute. reflexivity. Qed.

Lemma foldr_min_max_equal x xs :
  Forall (eq x) xs → foldr Z.min x xs = x ∧ foldr Z.max x xs = x.
Proof. induction 1 as [|y ys <- _ [IH1 IH2]]; simpl; [done | lia]. Qed.

(** X11.  When the voxels that registered a feature all hold the same
    frequency (as when a single voxel registered it), the bins are laid
    from half a unit below that frequency to half a unit above: the bin
    indices 0 to 5 keep all these voxels, and the bin indices 6 to 10 keep
    none. *)
Theorem threshold_equal_frequencies self t s G vs :
  grid_at s (grid self) G vs → 0 ≤ t ≤ 10 →
  ∃ thresholds,
    (set_frequency_filter self t s).1 = Ok thresholds ∧
    ∀ feature x xs,
      registered feature vs = x :: xs → Forall (eq x) xs →
      survivors thresholds feature vs
      = if bool_decide (t ≤ 5) then length (x :: xs) else 0%nat.
Proof.
  intros Hg Ht.
  destruct (set_frequency_filter_thresholds self t s G vs Hg) as (th & Hrun & Hth);
    [lia |].
  exists th. split; [done |]. intros feature x xs Hreg Heq.
  specialize (Hth feature). rewrite Hreg in Hth.
  destruct (foldr_min_max_equal x xs Heq) as [Hmin Hmax].
  assert (∀ v n, v ∈ vs → freq_dict v !! feature = Some n → n = x) as Hall.
  { intros v n Hv Hn.
    pose proof (registered_elem feature vs v n Hv Hn) as Hin. rewrite Hreg in Hin.
    apply elem_of_cons in Hin as [-> | Hin]; [done |].
    rewrite Forall_forall in Heq. symmetry. by apply Heq. }
  assert (bin_edge t (x :: xs)
          = (inject_Z t * ((inject_Z x + (1 # 2) - (inject_Z x - (1 # 2))) * (1 # 10))
             + (inject_Z x - (1 # 2)))%Q) as Hedge.
  { rewrite bin_edge_value by lia. simpl outer_edges.
    rewrite bool_decide_eq_true_2 by congruence. simpl. by rewrite Hmin, Hmax. }
  case_bool_decide as Ht5.
  - rewrite <- Hreg. apply (survivors_all th feature vs _ Hth).
    intros v n Hv Hn. rewrite (Hall v n Hv Hn), Hedge. apply Qle_bool_iff.
    assert (inject_Z t <= 5)%Q by (change 5%Q with (inject_Z 5); rewrite <- Zle_Qle; lia).
    nra.
  - apply survivors_none. intros v n c Hv Hn Hc.
    assert (c = bin_edge t (x :: xs)) as -> by congruence.
    rewrite (Hall v n Hv Hn), Hedge.
    destruct (Qle_bool _ _) eqn:Hle; [| done]. apply Qle_bool_iff in Hle.
    assert (6 <= inject_Z t)%Q by (change 6%Q with (inject_Z 6); rewrite <- Zle_Qle; lia).
    nra.
Qed.

Lemma threshold_equal_frequencies_witness :
  ∃ thresholds,
    (set_frequency_filter (mkGridAnalyzer 1%nat) 6 three_grids).1 = Ok thresholds ∧
    ∀ feature x xs,
      registered feature snapshot_b = x :: xs → Forall (eq x) xs →
      survivors thresholds feature snapshot_b
      = if bool_decide (6 ≤ 5) then length (x :: xs) else 0%nat.
Proof.
  destruct three_grids_at as (_ & Hb & _).
  apply (threshold_equal_frequencies (mkGridAnalyzer 1%nat) 6 three_grids _ _ Hb). lia.
Defined.

(** ** [Target]: from the atoms of a frame to the frequencies *)

(** X14.  [Target.check_voxels] raises [ValueError] when it is given no
    atom, as it does on a grid without voxels, and leaves the store as it
    was: a frame with no atom inside the grid is an error. *)
Theorem Target_check_voxels_ValueError sqrt self grid_atoms s G vs :
  grid_objs s !! target_grid self = Some G → voxels_at s (voxels G) = Some vs →
  grid_atoms = [] ∨ vs = [] →
  Target_check_voxels sqrt self grid_atoms s = (Raise "ValueError", s).
Proof.
  intros HG Hvs Hempty. unfold Target_check_voxels.
  erewrite bind_Ok; [| unfold load_grid; by rewrite HG].
  erewrite bind_Ok; [| by apply map_each_load_center].
  apply bind_Raise. unfold lift.
  destruct Hempty as [-> | ->]; [done |]. by destruct grid_atoms.
Qed.

Lemma Target_check_voxels_ValueError_witness :
  Target_check_voxels (λ x, x) (mkTarget 0%nat) [] scenario_state
  = (Raise "ValueError", scenario_state).
Proof.
  apply (Target_check_voxels_ValueError (λ x, x) (mkTarget 0%nat) [] scenario_state
           scenario_grid (map empty_voxel scenario_centers));
    [reflexivity | reflexivity | by left].
Defined.

Lemma setdefault_append_fold (voxel : nat) (atomlist : list string) :
  ∀ (d : gmap nat (list string)) k,
    default [] (foldl (λ all a, setdefault_append all voxel a) d atomlist !! k)
    = default [] (d !! k) ++ (if decide (k = voxel) then atomlist else []).
Proof.
  induction atomlist as [|a atomlist IH]; intros d k; simpl.
  - destruct (decide _); by rewrite app_nil_r.
  - rewrite IH. unfold setdefault_append.
    destruct (decide (k = voxel)) as [->|Hne].
    + rewrite lookup_insert_eq. simpl. by rewrite <- app_assoc.
    + by rewrite lookup_insert_ne.
Qed.

Lemma merge_voxel_dicts_fold (L : list (nat * list string)) k :
  ∀ d : gmap nat (list string),
    NoDup L.*1 →
    default [] (foldl (λ all item,
                         foldl (λ all a, setdefault_append all item.1 a) all item.2)
                  d L !! k)
    = default [] (d !! k)
      ++ default []
           ((λ found : nat * (nat * list string), found.2.2)
              <$> list_find (λ item, item.1 = k) L).
Proof.
  induction L as [|[v al] L IH]; intros d Hnd; simpl.
  - by rewrite app_nil_r.
  - rewrite fmap_cons in Hnd. apply NoDup_cons in Hnd as [Hv Hnd].
    rewrite IH by done. rewrite setdefault_append_fold. simpl.
    destruct (decide (v = k)) as [->|Hne].
    + rewrite decide_True by done. simpl.
      assert (list_find (λ item : nat * list string, item.1 = k) L = None) as Hnone.
      { apply list_find_None. apply Forall_forall. intros [k' al'] Hin Heq.
        simpl in Heq. subst. apply Hv. apply list_elem_of_fmap. by exists (k, al'). }
      rewrite <- app_assoc. f_equal.
      destruct (list_find _ L) as [[j item]|] eqn:Hfind; [done |]. simpl.
      by rewrite app_nil_r.
    + rewrite decide_False by done. rewrite app_nil_r. f_equal.
      by destruct (list_find _ L) as [[j item]|].
Qed.

Lemma merge_voxel_dicts_lookup (voxel_dict_all voxel_dict : gmap nat (list string))
    (voxel : nat) :
  default [] (Target_merge_voxel_dicts voxel_dict_all voxel_dict !! voxel)
  = default [] (voxel_dict_all !! voxel) ++ default [] (voxel_dict !! voxel).
Proof.
  unfold Target_merge_voxel_dicts.
  rewrite merge_voxel_dicts_fold by apply NoDup_fst_map_to_list. f_equal.
  destruct (voxel_dict !! voxel) as [al|] eqn:Hd.
  - assert (NoDup (map_to_list voxel_dict).*1) as Hnd by apply NoDup_fst_map_to_list.
    apply elem_of_map_to_list in Hd.
    destruct (list_find (λ item : nat * list string, item.1 = voxel)
                (map_to_list voxel_dict))
      as [[j [k' al']]|] eqn:Hfind.
    + apply list_find_Some in Hfind as (Hj & Hk & _). simpl in Hk. subst k'.
      apply list_elem_of_lookup_2 in Hj. apply elem_of_map_to_list in Hj, Hd.
      simpl. congruence.
    + apply list_find_None in Hfind. rewrite Forall_forall in Hfind.
      exfalso. by apply (Hfind (voxel, al)).
  - destruct (list_find _ _) as [[j [k' al']]|] eqn:Hfind; [| done].
    apply list_find_Some in Hfind as (Hj & Hk & _). simpl in Hk. subst k'.
    apply list_elem_of_lookup_2 in Hj. apply elem_of_map_to_list in Hj. congruence.
Qed.

(** X15.  [Target.merge_voxel_dicts] appends, voxel by voxel, the features
    of the incoming dict to those gathered so far; merged one after the
    other into an empty dict, the dicts of the trajectories leave under
    each voxel their lists of features joined in the order of the
    trajectories. *)
Theorem Target_merge_voxel_dicts_appends
    (voxel_dict_all voxel_dict : gmap nat (list string)) (dicts : list (gmap nat (list string)))
    (voxel : nat) :
  default [] (Target_merge_voxel_dicts voxel_dict_all voxel_dict !! voxel)
  = default [] (voxel_dict_all !! voxel) ++ default [] (voxel_dict !! voxel) ∧
  default [] (foldl Target_merge_voxel_dicts ∅ dicts !! voxel)
  = concat (map (λ d : gmap nat (list string), default [] (d !! voxel)) dicts).
Proof.
  pose proof (λ all d, merge_voxel_dicts_lookup all d voxel) as Hone.
  split; [apply Hone |].
  assert (∀ all : gmap nat (list string),
            default [] (foldl Target_merge_voxel_dicts all dicts !! voxel)
            = default [] (all !! voxel)
              ++ concat (map (λ d : gmap nat (list string), default [] (d !! voxel)) dicts))
    as Hall.
  { induction dicts as [|d dicts IH]; intros all; simpl.
    - by rewrite app_nil_r.
    - rewrite IH, Hone. by rewrite <- app_assoc. }
  by rewrite Hall, lookup_empty.
Qed.

Lemma count_features_fold (atomlist : list string) (f : string) :
  ∀ d : gmap string Z,
    default 0
      (foldl (λ freq_dict atom,
                match freq_dict !! atom with
                | Some n => <[atom := n + 1]> freq_dict
                | None => <[atom := 1]> freq_dict
                end) d atomlist !! f)
    = default 0 (d !! f)
      + Z.of_nat (length (List.filter (λ atom, bool_decide (atom = f)) atomlist)).
Proof.
  induction atomlist as [|a al IH]; intros d; simpl; [lia |].
  rewrite IH. case_bool_decide as Ha.
  - subst a. simpl length. destruct (d !! f) as [n|] eqn:Hd;
      rewrite lookup_insert_eq; simpl; lia.
  - destruct (d !! a); by rewrite lookup_insert_ne.
Qed.

(** What [count_features] counts. *)
Lemma count_features_frequency (atomlist : list string) (f : string) :
  default 0 (count_features atomlist !! f)
  = Z.of_nat (length (List.filter (λ atom, bool_decide (atom = f)) atomlist)).
Proof. unfold count_features. by rewrite count_features_fold, lookup_empty. Qed.

Lemma get_frequencies_loop g G (L : list (nat * list string)) : ∀ s,
  grid_objs s !! g = Some G → NoDup (voxels G) → NoDup L.*1 →
  (∀ item, item ∈ L → (item.1 < length (voxels G))%nat) →
  (∀ l, l ∈ voxels G → is_Some (voxel_objs s !! l)) →
  ∃ objs,
    for_each L (λ '(i, atomlist),
      let freq_dict := count_features atomlist in
      G <- load_grid g ;;
      l <- lift (list_getitem (voxels G) (Z.of_nat i)) ;;
      with_voxel l (store_frequencies freq_dict)) s
    = (Ok tt, set_voxel_objs (λ _, objs) s) ∧
    length objs = length (voxel_objs s) ∧
    (∀ i al l, (i, al) ∈ L → voxels G !! i = Some l →
       objs !! l = set_freq_dict (λ _, count_features al) <$> voxel_objs s !! l) ∧
    (∀ l, (∀ i al, (i, al) ∈ L → voxels G !! i ≠ Some l) →
       objs !! l = voxel_objs s !! l).
Proof.
  induction L as [|[i al] L IH]; intros s HG Hnd HndL Hrange Hvalid.
  - exists (voxel_objs s). simpl. split_and!; [by destruct s | done | | done].
    intros i al l Hin. by apply elem_of_nil in Hin.
  - rewrite fmap_cons in HndL. apply NoDup_cons in HndL as [Hi HndL]. simpl in Hi.
    assert (i < length (voxels G))%nat as Hlt by (apply (Hrange (i, al)); by left).
    destruct (lookup_lt_is_Some_2 _ _ Hlt) as [l Hl].
    destruct (Hvalid l) as [v Hv]; [by eapply list_elem_of_lookup_2 |].
    set (s1 := set_voxel_objs
                 (λ objs, <[l := set_freq_dict (λ _, count_features al) v]> objs) s).
    assert ((G <- load_grid g ;;
             l <- lift (list_getitem (voxels G) (Z.of_nat i)) ;;
             with_voxel l (store_frequencies (count_features al))) s = (Ok tt, s1))
      as Hround.
    { erewrite bind_Ok; [| unfold load_grid; by rewrite HG].
      erewrite bind_Ok; [| unfold lift; by rewrite (list_getitem_nat _ _ l)].
      by apply (with_voxel_run s l v). }
    destruct (IH s1) as (objs & Hrun & Hlen & Hitem & Hother).
    + done.
    + done.
    + done.
    + intros item Hin. apply Hrange. by right.
    + intros l' Hl'. subst s1. simpl. apply lookup_lt_is_Some.
      rewrite length_insert. apply lookup_lt_is_Some. by apply Hvalid.
    + assert (∀ j al' l', (j, al') ∈ L → voxels G !! j = Some l' → l' ≠ l) as Hdiff.
      { intros j al' l' Hin Hj ->.
        assert (j = i) as -> by apply (NoDup_lookup (voxels G) j i l Hnd Hj Hl).
        apply Hi. apply list_elem_of_fmap. by exists (i, al'). }
      exists objs. split_and!.
      * simpl for_each. erewrite bind_Ok; [| exact Hround].
        etransitivity; [exact Hrun |]. by destruct s.
      * rewrite Hlen. subst s1. simpl. by rewrite length_insert.
      * intros j al' l' Hin Hj. apply elem_of_cons in Hin as [[= -> ->] | Hin].
        -- assert (l' = l) as -> by congruence.
           rewrite Hother.
           ++ subst s1. simpl. rewrite list_lookup_insert_eq by by eapply lookup_lt_Some.
              by rewrite Hv.
           ++ intros j al'' Hin Hj'. by apply (Hdiff j al'' l Hin Hj').
        -- rewrite (Hitem j al' l' Hin Hj). subst s1. simpl.
           rewrite list_lookup_insert_ne; [done |]. intros ->.
           by apply (Hdiff j al' l' Hin Hj).
      * intros l' Hl'. rewrite Hother.
        -- subst s1. simpl. rewrite list_lookup_insert_ne; [done |].
           intros ->. by apply (Hl' i al); [left |].
        -- intros j al' Hin. apply (Hl' j al'). by right.
Qed.

Lemma get_frequencies_run g s G vs (voxel_dict_all : gmap nat (list string)) :
  grid_at s g G vs →
  (∀ i, is_Some (voxel_dict_all !! i) → (i < length vs)%nat) →
  ∃ objs vs',
    Target_get_frequencies store_frequencies (mkTarget g) voxel_dict_all s
    = (Ok tt, set_voxel_objs (λ _, objs) s) ∧
    grid_at (set_voxel_objs (λ _, objs) s) g G vs' ∧ length vs' = length vs ∧
    ∀ i v, vs !! i = Some v →
      vs' !! i = Some match voxel_dict_all !! i with
                      | Some al => set_freq_dict (λ _, count_features al) v
                      | None => v
                      end.
Proof.
  intros (HG & Hnd & Hvs) Hrange.
  pose proof (voxels_at_length _ _ _ Hvs) as Hlen.
  destruct (get_frequencies_loop g G (map_to_list voxel_dict_all) s HG Hnd)
    as (objs & Hrun & Hlen' & Hitem & Hother).
  { apply NoDup_fst_map_to_list. }
  { intros [i al] Hin. apply elem_of_map_to_list in Hin. simpl. rewrite <- Hlen.
    apply Hrange. by rewrite Hin. }
  { intros l Hl. apply lookup_lt_is_Some. by eapply voxels_at_valid. }
  set (update := λ (i : nat) (v : Voxel),
         match voxel_dict_all !! i with
         | Some al => set_freq_dict (λ _, count_features al) v
         | None => v
         end).
  exists objs, (imap update vs). split_and!.
  - exact Hrun.
  - split_and!; [done | done |]. apply voxels_at_Forall2.
    apply Forall2_same_length_lookup_2; [by rewrite length_imap |].
    intros i l x Hl Hx. simpl.
    destruct (voxels_at_lookup _ _ _ _ _ Hvs Hl) as (v & Hv & Hlv).
    rewrite list_lookup_imap, Hv in Hx. simpl in Hx. injection Hx as <-.
    unfold update. destruct (voxel_dict_all !! i) as [al|] eqn:Hd.
    + rewrite (Hitem i al l); [by rewrite Hlv | by apply elem_of_map_to_list | done].
    + rewrite Hother; [done |]. intros j al Hin Hj.
      assert (j = i) as -> by apply (NoDup_lookup (voxels G) j i l Hnd Hj Hl).
      apply elem_of_map_to_list in Hin. congruence.
  - by rewrite length_imap.
  - intros i v Hv. by rewrite list_lookup_imap, Hv.
Qed.

(** X16.  [Target.get_frequencies], when every voxel index of
    [voxel_dict_all] names a voxel of the grid, gives to each voxel listed
    a frequency dict that counts, for each feature, the times it occurs in
    the list of that voxel; a voxel that is not listed is left as it was,
    and no center or origin is touched. *)
Theorem Target_get_frequencies_counts g s G vs (voxel_dict_all : gmap nat (list string)) :
  grid_at s g G vs →
  (∀ i, is_Some (voxel_dict_all !! i) → (i < length vs)%nat) →
  let r := Target_get_frequencies store_frequencies (mkTarget g) voxel_dict_all s in
  r.1 = Ok tt ∧
  ∃ vs', grid_at r.2 g G vs' ∧ length vs' = length vs ∧
    ∀ i v, vs !! i = Some v →
      ∃ v', vs' !! i = Some v' ∧ center v' = center v ∧
        origin_dict v' = origin_dict v ∧
        match voxel_dict_all !! i with
        | Some atomlist =>
            ∀ f, frequency v' f
                 = Z.of_nat (length (List.filter (λ atom, bool_decide (atom = f)) atomlist))
        | None => v' = v
        end.
Proof.
  intros Hg Hrange r. subst r.
  destruct (get_frequencies_run g s G vs voxel_dict_all Hg Hrange)
    as (objs & vs' & -> & Hg' & Hlen & Hvs').
  simpl. split; [done |]. exists vs'. split_and!; [done | done |].
  intros i v Hv. eexists. split; [by apply Hvs' |].
  destruct (voxel_dict_all !! i) as [al|]; [| done].
  split_and!; try done. intros f. unfold frequency. simpl.
  apply count_features_frequency.
Qed.

Lemma Target_get_frequencies_counts_witness :
  let voxel_dict_all : gmap nat (list string) := {[ 7%nat := ["HBD"; "ARO"; "HBD"] ]} in
  let r := Target_get_frequencies store_frequencies (mkTarget 0%nat) voxel_dict_all
             scenario_state in
  r.1 = Ok tt ∧
  ∃ vs', grid_at r.2 0%nat scenario_grid vs' ∧
    length vs' = length (map empty_voxel scenario_centers) ∧
    ∀ i v, map empty_voxel scenario_centers !! i = Some v →
      ∃ v', vs' !! i = Some v' ∧ center v' = center v ∧
        origin_dict v' = origin_dict v ∧
        match voxel_dict_all !! i with
        | Some atomlist =>
            ∀ f, frequency v' f
                 = Z.of_nat (length (List.filter (λ atom, bool_decide (atom = f)) atomlist))
        | None => v' = v
        end.
Proof.
  apply (Target_get_frequencies_counts 0%nat scenario_state scenario_grid
           (map empty_voxel scenario_centers) {[ 7%nat := ["HBD"; "ARO"; "HBD"] ]}).
  - split_and!; [reflexivity | apply NoDup_seq | reflexivity].
  - intros i [al Hi]. apply lookup_singleton_Some in Hi as [<- _]. simpl. lia.
Defined.

(** Two donors and one aromatic atom in the last voxel of the scenario. *)
Example Target_get_frequencies_scenario :
  freq_dict <$>
    voxel_objs (Target_get_frequencies store_frequencies (mkTarget 0%nat)
                  {[ 7%nat := ["HBD"; "ARO"; "HBD"] ]} scenario_state).2 !! 7%nat
  = Some {[ "HBD" := 2; "ARO" := 1 ]}.
Proof. vm_compute. reflexivity. Qed.

(** ** [Target.save_pharmacophores] before and after the filter *)

Lemma save_unset_loop (objs : list Voxel) refs vs :
  Forall2 (λ l v, objs !! l = Some v) refs vs →
  ∀ s, voxel_objs s = objs → threshold_dict s = None →
  for_each refs (λ l,
    voxel <- load_voxel l ;;
    for_each (map_to_list (freq_dict voxel)) (λ '(element, freq),
      thresholds <- attr_threshold_dict ;;
      cutoff <- lift (dict_getitem thresholds element) ;;
      if Qle_bool cutoff (inject_Z freq) then
        let path := pharmacophore_file element in
        modify (set_files (open_append path)) ;;;
        line <- lift (format_line_pdb (center voxel) element freq) ;;
        modify (set_files (write_line path line))
      else ret tt)) s
  = (if bool_decide (Forall (λ v, freq_dict v = ∅) vs) then Ok tt
     else Raise "AttributeError", s).
Proof.
  induction 1 as [|l v refs vs Hl _ IH]; intros s Hobjs Htd; [done |].
  simpl for_each.
  destruct (map_to_list (freq_dict v)) as [|[element freq] L] eqn:HL.
  - apply map_to_list_empty_iff in HL as Hempty.
    erewrite bind_Ok; cycle 1.
    { erewrite bind_Ok; [| unfold load_voxel; by rewrite Hobjs, Hl].
      rewrite HL. reflexivity. }
    etransitivity; [exact (IH s Hobjs Htd) |]. f_equal.
    apply (f_equal (λ b : bool, if b then Ok tt else Raise "AttributeError")).
    apply bool_decide_ext. rewrite Forall_cons. tauto.
  - erewrite bind_Raise; cycle 1.
    { erewrite bind_Ok; [| unfold load_voxel; by rewrite Hobjs, Hl].
      rewrite HL. simpl for_each. erewrite bind_Raise; [reflexivity |].
      erewrite bind_Raise; [reflexivity |].
      unfold attr_threshold_dict. by rewrite Htd. }
    rewrite bool_decide_eq_false_2; [done |].
    intros HF. apply Forall_cons in HF as [Hempty _].
    rewrite Hempty, map_to_list_empty in HL. done.
Qed.

(** X19.  [Target.save_pharmacophores] reads [self.threshold_dict], which
    only [set_frequency_filter] creates.  Called before it, the method
    raises [AttributeError] as soon as a voxel holds a feature, and returns
    when no voxel holds one; in both cases no file is opened and the store
    is left as it was. *)
Theorem Target_save_pharmacophores_unset g s G vs :
  grid_at s g G vs → threshold_dict s = None →
  Target_save_pharmacophores (mkTarget g) s
  = (if bool_decide (Forall (λ v, freq_dict v = ∅) vs) then Ok tt
     else Raise "AttributeError", s).
Proof.
  intros (HG & _ & Hvs) Htd. unfold Target_save_pharmacophores.
  erewrite bind_Ok; [| unfold load_grid; simpl; by rewrite HG].
  apply voxels_at_Forall2 in Hvs.
  apply (save_unset_loop (voxel_objs s) (voxels G) vs Hvs s eq_refl Htd).
Qed.

Lemma Target_save_pharmacophores_unset_witness :
  Target_save_pharmacophores (mkTarget 1%nat) three_grids
  = (if bool_decide (Forall (λ v, freq_dict v = ∅) snapshot_b) then Ok tt
     else Raise "AttributeError", three_grids).
Proof.
  destruct three_grids_at as (_ & Hb & _).
  apply (Target_save_pharmacophores_unset 1%nat three_grids _ _ Hb). reflexivity.
Defined.

Lemma Target_set_frequency_filter_run g t s G vs :
  grid_at s g G vs → -11 ≤ t ≤ 10 →
  Target_set_frequency_filter (mkTarget g) t s
  = (Ok tt, set_threshold_dict (Some (bin_edge t <$> collect_frequencies vs)) s).
Proof.
  intros (HG & _ & Hvs) Ht. unfold Target_set_frequency_filter.
  erewrite bind_Ok; [| reflexivity].
  erewrite bind_Ok; [| unfold load_grid; simpl; by rewrite HG].
  erewrite bind_Ok; [| by apply map_each_load_voxel].
  rewrite Target_collect_frequencies_eq.
  rewrite (thresholds_loop t _ Ht _ ∅) by done.
  rewrite foldl_insert_map_to_list. by destruct s.
Qed.

(** X20.  [Target.set_frequency_filter] followed by
    [Target.save_pharmacophores]: for a bin index from -11 to 10, and when
    no feature has the empty name, the two calls return.  Every feature
    that a voxel holds has its cutoff, so that no lookup fails, and the
    file of each feature receives one record for each voxel whose
    frequency reaches the cutoff of the feature. *)
Theorem Target_filter_then_save g t s G vs :
  grid_at s g G vs → -11 ≤ t ≤ 10 →
  Forall (λ v, freq_dict v !! "" = None) vs →
  let thresholds := bin_edge t <$> collect_frequencies vs in
  ∃ fs,
    (Target_set_frequency_filter (mkTarget g) t ;;;
     Target_save_pharmacophores (mkTarget g)) s
    = (Ok tt, set_files (λ _, fs) (set_threshold_dict (Some thresholds) s)) ∧
    ∀ f, default [] (fs !! pharmacophore_file f)
         = default [] (files s !! pharmacophore_file f) ++ records thresholds f vs ∧
         length (records thresholds f vs) = survivors thresholds f vs.
Proof.
  intros Hg Ht Hnames thresholds.
  pose proof (Target_set_frequency_filter_run g t s G vs Hg Ht) as Hfilter.
  destruct Hg as (HG & _ & Hvs). apply voxels_at_Forall2 in Hvs.
  destruct (save_loop thresholds (voxel_objs s) (voxels G) vs Hvs) with
    (s := set_threshold_dict (Some thresholds) s) as (fs & Hrun & Hfs).
  - apply Forall_forall. intros v Hv f [n Hf]. split.
    + unfold thresholds. rewrite lookup_fmap, collect_frequencies_lookup.
      destruct (registered f vs) eqn:Hreg; [| by eexists].
      apply (registered_elem f vs v n) in Hv; [| done]. rewrite Hreg in Hv.
      by apply elem_of_nil in Hv.
    + intros ->. rewrite Forall_forall in Hnames. rewrite (Hnames v Hv) in Hf. done.
  - by destruct s.
  - by destruct s.
  - exists fs. split.
    + erewrite bind_Ok; [| exact Hfilter]. unfold Target_save_pharmacophores.
      erewrite bind_Ok; [| unfold load_grid; simpl; destruct s; simpl in *; by rewrite HG].
      exact Hrun.
    + intros f. split.
      * rewrite Hfs. by destruct s.
      * unfold records, survivors. by rewrite length_map.
Qed.

Lemma Target_filter_then_save_witness :
  let thresholds := bin_edge 3 <$> collect_frequencies snapshot_b in
  ∃ fs,
    (Target_set_frequency_filter (mkTarget 1%nat) 3 ;;;
     Target_save_pharmacophores (mkTarget 1%nat)) three_grids
    = (Ok tt, set_files (λ _, fs) (set_threshold_dict (Some thresholds) three_grids)) ∧
    ∀ f, default [] (fs !! pharmacophore_file f)
         = default [] (files three_grids !! pharmacophore_file f)
           ++ records thresholds f snapshot_b ∧
         length (records thresholds f snapshot_b) = survivors thresholds f snapshot_b.
Proof.
  destruct three_grids_at as (_ & Hb & _).
  apply (Target_filter_then_save 1%nat 3 three_grids _ _ Hb); [lia |].
  apply Forall_cons_2; [| apply Forall_cons_2; [| apply Forall_nil_2]]; reflexivity.
Defined.

(** ** [format_line_pdb]: fields are padded, never cut *)

Lemma length_spaces n : String.length (spaces n) = n.
Proof. induction n; simpl; congruence. Qed.

Lemma length_ljust width s :
  String.length (ljust width s) = (width `max` String.length s)%nat.
Proof. unfold ljust. rewrite string_length_app, length_spaces. lia. Qed.

Lemma length_rjust width s :
  String.length (rjust width s) = (width `max` String.length s)%nat.
Proof. unfold rjust. rewrite string_length_app, length_spaces. lia. Qed.

(** X21.  [format_line_pdb] raises [IndexError] on the empty name, whose
    first character it takes, and on no other.  The widths of the format
    are least widths: a name, a coordinate or a frequency longer than its
    field is written whole, so that the line, with its end of line, has 78
    characters or more, one more for each character that does not fit. *)
Theorem format_line_pdb_never_cuts (x y z : Q) (atomname : string) (bfact : Z) :
  match format_line_pdb (x, y, z) atomname bfact with
  | Ok line =>
      atomname ≠ "" ∧
      String.length line
      = (44 + 4 `max` String.length atomname
         + 8 `max` String.length (format_f 3 x)
         + 8 `max` String.length (format_f 3 y)
         + 8 `max` String.length (format_f 3 z)
         + 6 `max` String.length (format_f 2 (inject_Z bfact)))%nat ∧
      (78 ≤ String.length line)%nat
  | Raise exc => atomname = "" ∧ exc = "IndexError"
  | Diverge => False
  end.
Proof.
  unfold format_line_pdb, format_line_pdb_with.
  destruct atomname as [|c name]; [done |]. cbn [first_char].
  split; [done |].
  replace (rjust 6 (format_f 2 1%Q)) with "  1.00" by (vm_compute; reflexivity).
  generalize (format_f 3 x) (format_f 3 y) (format_f 3 z)
    (format_f 2 (inject_Z bfact)) (String c name).
  intros fx fy fz fb name'.
  rewrite !string_length_app, !length_ljust, !length_rjust.
  cbn [String.length newline]. lia.
Qed.

(** ** From the atoms of a frame to the frequencies of the voxels *)

Lemma setdefault_append_nonempty (d : gmap nat (list string)) key value :
  (∀ k, d !! k ≠ Some []) → ∀ k, setdefault_append d key value !! k ≠ Some [].
Proof.
  intros Hd k. unfold setdefault_append. destruct (decide (k = key)) as [->|Hne].
  - rewrite lookup_insert_eq. intros [= H]. by destruct (default [] (d !! key)).
  - rewrite lookup_insert_ne by done. apply Hd.
Qed.

Lemma voxel_dict_nonempty (L : list (Atom * nat)) : ∀ d : gmap nat (list string),
  (∀ k, d !! k ≠ Some []) →
  ∀ k, foldl (λ voxel_dict item, setdefault_append voxel_dict item.2 (feature item.1))
         d L !! k ≠ Some [].
Proof.
  induction L as [|item L IH]; intros d Hd; simpl; [done |].
  apply IH. by apply setdefault_append_nonempty.
Qed.

Lemma merge_voxel_dicts_nonempty (all voxel_dict : gmap nat (list string)) :
  (∀ k, all !! k ≠ Some []) →
  ∀ k, Target_merge_voxel_dicts all voxel_dict !! k ≠ Some [].
Proof.
  unfold Target_merge_voxel_dicts. generalize (map_to_list voxel_dict) as L.
  intros L. revert all. induction L as [|[voxel atomlist] L IH]; intros all Hall; simpl;
    [done |].
  apply IH. clear IH. revert all Hall.
  induction atomlist as [|a atomlist IH]; intros all Hall; simpl; [done |].
  apply IH. by apply setdefault_append_nonempty.
Qed.

Lemma length_filter_features (f : string) (keep : Atom → bool) (atoms : list Atom) :
  length (List.filter (λ atom, bool_decide (atom = f))
            (map feature (List.filter keep atoms)))
  = length (List.filter (λ a, bool_decide (feature a = f) && keep a) atoms).
Proof.
  induction atoms as [|a atoms IH]; simpl; [done |].
  destruct (keep a); simpl.
  - rewrite andb_true_r. destruct (bool_decide (feature a = f)); simpl; by rewrite IH.
  - by rewrite andb_false_r.
Qed.

Lemma nearest_lt (cs : list point) (p : point) (i : nat) :
  nearest cs p = Ok i → (i < length cs)%nat.
Proof.
  intros Hi. destruct cs as [|c cs]; [done |].
  destruct (nearest_spec (c :: cs) p) as (j & cj & Hj & Hcj & _); [done |].
  rewrite Hi in Hj. injection Hj as ->. by eapply lookup_lt_Some.
Qed.

(** X22.  The steps of the main program on one frame: [check_voxels] on
    the atoms of the frame, [merge_voxel_dicts] into an empty
    [voxel_dict_all], then [get_frequencies].  The calls return, and in
    the voxel of index [i] the frequency of a feature becomes the number of
    atoms of the frame that carry the feature and are nearest to that
    voxel.  A voxel to which no atom is nearest keeps the frequency dict it
    had, also one of an earlier run.  No center or origin is touched. *)
Theorem Target_frequencies_count_nearest sqrt g grid_atoms s G vs :
  (∀ x y, Qle_bool (sqrt x) (sqrt y) = Qle_bool x y) →
  grid_at s g G vs → vs ≠ [] → grid_atoms ≠ [] →
  let run :=
    (voxel_dict <- Target_check_voxels sqrt (mkTarget g) grid_atoms ;;
     Target_get_frequencies store_frequencies (mkTarget g)
       (Target_merge_voxel_dicts ∅ voxel_dict)) s in
  run.1 = Ok tt ∧
  ∃ vs', grid_at run.2 g G vs' ∧ length vs' = length vs ∧
    ∀ i v, vs !! i = Some v →
      ∃ v', vs' !! i = Some v' ∧ center v' = center v ∧
        origin_dict v' = origin_dict v ∧
        if bool_decide (Exists (λ a, nearest (map center vs) (coord a) = Ok i) grid_atoms)
        then ∀ f, frequency v' f
                  = Z.of_nat (atoms_counted (map center vs) f i grid_atoms)
        else v' = v.
Proof.
  intros Hsqrt Hg Hne Hatoms run. subst run.
  pose proof Hg as (HG & _ & Hvs).
  destruct (Target_check_voxels_run sqrt (mkTarget g) grid_atoms s G vs
              Hsqrt HG Hvs Hne Hatoms) as (mins & HF & Hcheck).
  erewrite bind_Ok; [| exact Hcheck].
  set (voxel_dict := foldl _ ∅ (zip grid_atoms mins)).
  set (all := Target_merge_voxel_dicts ∅ voxel_dict).
  assert (∀ i, default [] (all !! i)
               = map feature
                   (List.filter
                      (λ a, bool_decide (nearest (map center vs) (coord a) = Ok i))
                      grid_atoms)) as Hall.
  { intros i. unfold all. rewrite merge_voxel_dicts_lookup, lookup_empty. simpl.
    unfold voxel_dict.
    rewrite (voxel_dict_fold (map center vs) grid_atoms mins HF). by rewrite lookup_empty. }
  assert (∀ i, all !! i ≠ Some []) as Hnonempty.
  { apply merge_voxel_dicts_nonempty. intros k. by rewrite lookup_empty. }
  assert (∀ i al, all !! i = Some al →
            ∃ a, a ∈ grid_atoms ∧ nearest (map center vs) (coord a) = Ok i) as Hsome.
  { intros i al Hi. specialize (Hall i). rewrite Hi in Hall. simpl in Hall.
    destruct (List.filter _ grid_atoms) as [|a l] eqn:Hfilter.
    - simpl in Hall. subst al. by destruct (Hnonempty i).
    - assert (In a (List.filter
                      (λ a, bool_decide (nearest (map center vs) (coord a) = Ok i))
                      grid_atoms)) as Hin by (rewrite Hfilter; by left).
      apply filter_In in Hin as [Hin Ha]. apply bool_decide_eq_true in Ha.
      exists a. split; [by apply list_elem_of_In | done]. }
  destruct (get_frequencies_run g s G vs all Hg) as (objs & vs' & -> & Hg' & Hlen & Hvs').
  { intros i [al Hi]. destruct (Hsome i al Hi) as (a & _ & Ha).
    apply nearest_lt in Ha. by rewrite length_map in Ha. }
  simpl. split; [done |]. exists vs'. split_and!; [done | done |].
  intros i v Hv. eexists. split; [by apply Hvs' |].
  destruct (all !! i) as [al|] eqn:Hi.
  - split_and!; try done.
    rewrite bool_decide_eq_true_2; cycle 1.
    { apply Exists_exists. by apply (Hsome i al). }
    intros f. unfold frequency. simpl. rewrite count_features_frequency.
    specialize (Hall i). rewrite Hi in Hall. simpl in Hall. subst al.
    unfold atoms_counted. by rewrite length_filter_features.
  - split_and!; try done.
    rewrite bool_decide_eq_false_2; [done |].
    intros Hex. apply Exists_exists in Hex as (a & Hin & Ha).
    specialize (Hall i). rewrite Hi in Hall. simpl in Hall.
    assert (In a (List.filter
                    (λ a, bool_decide (nearest (map center vs) (coord a) = Ok i))
                    grid_atoms)) as Hin'.
    { apply filter_In. split; [by apply list_elem_of_In | by apply bool_decide_eq_true]. }
    destruct (List.filter _ grid_atoms); [done | discriminate].
Qed.

Lemma Target_frequencies_count_nearest_witness :
  let grid_atoms :=
    [mkAtom (9 # 10, 9 # 10, 9 # 10)%Q "HBD"; mkAtom (-1, -1, -1)%Q "ARO";
     mkAtom (1, 1, 1)%Q "HBD"] in
  let vs := map empty_voxel scenario_centers in
  let run :=
    (voxel_dict <- Target_check_voxels (λ x, x) (mkTarget 0%nat) grid_atoms ;;
     Target_get_frequencies store_frequencies (mkTarget 0%nat)
       (Target_merge_voxel_dicts ∅ voxel_dict)) scenario_state in
  run.1 = Ok tt ∧
  ∃ vs', grid_at run.2 0%nat scenario_grid vs' ∧ length vs' = length vs ∧
    ∀ i v, vs !! i = Some v →
      ∃ v', vs' !! i = Some v' ∧ center v' = center v ∧
        origin_dict v' = origin_dict v ∧
        if bool_decide (Exists (λ a, nearest (map center vs) (coord a) = Ok i) grid_atoms)
        then ∀ f, frequency v' f
                  = Z.of_nat (atoms_counted (map center vs) f i grid_atoms)
        else v' = v.
Proof.
  apply (Target_frequencies_count_nearest (λ x, x) 0%nat
           [mkAtom (9 # 10, 9 # 10, 9 # 10)%Q "HBD"; mkAtom (-1, -1, -1)%Q "ARO";
            mkAtom (1, 1, 1)%Q "HBD"]
           scenario_state scenario_grid (map empty_voxel scenario_centers));
    [reflexivity | | discriminate | discriminate].
  split_and!; [reflexivity | apply NoDup_seq | reflexivity].
Defined.
